(** * ReportBro: band layout, renderers and document geometry

    A shallow embedding of [reportbro/reportbro.py]: the document geometry
    ([DocumentProperties]), the band preparation and pagination pass
    ([ReportBand]), the PDF renderer and the spreadsheet renderer, the fonts
    and page set-up of the PDF document ([FPDFRB]), the loops of the
    report's constructor and [generate_pdf] ([Report]) and the floating-point
    arithmetic of the page size ([PyFloat]), followed by the properties
    established about them.  The processing of the report data ([process_data],
    [compute_parameters]) rests on decimals, dates and expression evaluation
    that are not among the sources, and is left out.

    Python objects that are mutated through several references (the document
    elements, with their predecessor and successor links) live in an explicit
    store indexed by reference; lists indexed and edited in place are stdpp
    lists; the dictionary of completed elements is a [gmap]. *)

From Stdlib Require Import ZArith QArith Qround Qabs Lqa SpecFloat.
From stdpp Require Import base option list functions gmap strings sorting.

Local Open Scope Z_scope.

(** ** Exceptions and results *)

Inductive Exn :=
| KeyError (key : string)
| AttributeError
| RuntimeError (msg : string).

(** The outcome of running a piece of the program: a value, a raised
    exception, or exhaustion of the iteration budget handed to a loop of the
    model (shown below never to happen for the budgets the renderers use). *)
Inductive Outcome (A : Type) :=
| Done (a : A)
| Raised (e : Exn)
| OutOfFuel.
Arguments Done {A} a.
Arguments Raised {A} e.
Arguments OutOfFuel {A}.

(** ** Error records collected in [report.errors] *)

Record Error := mkError {
  msg_id : string;
  object_id : string;
  field : string }.

(** * Document geometry *)

Module Geometry.

(** ** JSON data handed to the constructor

    The scalar values of JSON.  Lists and objects are left out: none is a
    valid entry of the document properties, and as the name of an
    enumeration member one would raise a [TypeError] (unhashable), which
    [Exn] does not have. *)

Inductive JValue :=
| JNone
| JBool (b : bool)
| JInt (z : Z)
| JStr (s : string).

(** [data.get(key)]: Python's [None] when the key is missing. *)
Definition get (data : gmap string JValue) (key : string) : JValue :=
  match data !! key with
  | Some v => v
  | None => JNone
  end.

(** [data.get(key, '')] *)
Definition get_default (data : gmap string JValue) (key : string) (d : JValue) : JValue :=
  match data !! key with
  | Some v => v
  | None => d
  end.

(** Truth value of a JSON value, as [bool(...)] computes it. *)
Definition truthy (v : JValue) : bool :=
  match v with
  | JNone => false
  | JBool b => b
  | JInt z => negb (z =? 0)
  | JStr s => negb (String.eqb s "")
  end.

(** ** Enumerations

    Modelled from the spec: the enumeration classes are declared in a module
    that is not among the sources.  Members named in [reportbro.py] keep their
    names ([a4], [a5], [letter], [portrait], [mm], [inch], [never], [always],
    [not_on_first_page]); each enumeration gets one further member standing for
    whatever else the class declares, which the code only ever reaches through
    its [else] branches. *)

Inductive PageFormat := a4 | a5 | letter | user_defined.
Inductive Orientation := portrait | landscape.
Inductive Unit := pt | mm | inch.
Inductive BandDisplay := never | always | not_on_first_page.

Global Instance PageFormat_eq_dec : EqDecision PageFormat.
Proof. solve_decision. Defined.
Global Instance Orientation_eq_dec : EqDecision Orientation.
Proof. solve_decision. Defined.
Global Instance Unit_eq_dec : EqDecision Unit.
Proof. solve_decision. Defined.
Global Instance BandDisplay_eq_dec : EqDecision BandDisplay.
Proof. solve_decision. Defined.

(** [Enum[name]]: lookup by member name, [KeyError] otherwise. *)
Definition PageFormat_lookup (name : string) : Exn + PageFormat :=
  if String.eqb name "a4" then inr a4
  else if String.eqb name "a5" then inr a5
  else if String.eqb name "letter" then inr letter
  else if String.eqb name "user_defined" then inr user_defined
  else inl (KeyError name).

Definition Orientation_lookup (name : string) : Exn + Orientation :=
  if String.eqb name "portrait" then inr portrait
  else if String.eqb name "landscape" then inr landscape
  else inl (KeyError name).

Definition Unit_lookup (name : string) : Exn + Unit :=
  if String.eqb name "pt" then inr pt
  else if String.eqb name "mm" then inr mm
  else if String.eqb name "inch" then inr inch
  else inl (KeyError name).

Definition BandDisplay_lookup (name : string) : Exn + BandDisplay :=
  if String.eqb name "never" then inr never
  else if String.eqb name "always" then inr always
  else if String.eqb name "not_on_first_page" then inr not_on_first_page
  else inl (KeyError name).

(** The subscript [Enum[v]] on a JSON value: only a string can name a member.
    The key of the [KeyError] is the name for a string; for the other
    scalars, whose keys are no strings, it is left empty. *)
Definition enum_of {A} (lookup : string -> Exn + A) (v : JValue) : Exn + A :=
  match v with
  | JStr s => lookup s
  | _ => inl (KeyError "")
  end.

(** [str.lower()] on the ASCII range. *)
Definition lower_ascii (c : Ascii.ascii) : Ascii.ascii :=
  let n := Ascii.N_of_ascii c in
  if ((65 <=? n) && (n <=? 90))%N then Ascii.ascii_of_N (n + 32) else c.

Fixpoint lower (s : string) : string :=
  match s with
  | EmptyString => EmptyString
  | String c s' => String (lower_ascii c) (lower s')
  end.

(** ** Numbers

    Page sizes are integers, except for the letter format (8.5 by 11 inches);
    they are kept as rationals until they are rounded to device units.
    [py_round] is Python 3's [round]: to the nearest integer, ties to even.
    The source rounds the double [(72 * w) / 25.4]; [to_device] below rounds
    the exact quotient.  [PyFloat] has the computation in doubles, and
    [PageFacts] compares the two: they give the same integer for every
    size from 1 up to [2 ^ 48 / 72] millimetres, which covers the sizes the
    constructor accepts without recording an error, and they part for
    larger ones (at [10 ^ 15] millimetres, for one); for an integer beyond
    the range of the doubles the source raises an [OverflowError], which
    [to_device] does not show. *)

Definition py_round (q : Q) : Z :=
  let f := Qfloor q in
  let r := (q - inject_Z f)%Q in
  match (r ?= 1 # 2)%Q with
  | Lt => f
  | Gt => f + 1
  | Eq => if Z.even f then f else f + 1
  end.

(** ** The constructor's monad: the error list of the report as state, and
    exceptions. *)

Definition M (A : Type) : Type := list Error -> (Exn + A) * list Error.

Global Instance M_ret : MRet M := fun A a errs => (inr a, errs).
Global Instance M_bind : MBind M := fun A B k m errs =>
  match m errs with
  | (inr a, errs') => k a errs'
  | (inl e, errs') => (inl e, errs')
  end.
Definition raise {A} (e : Exn) : M A := fun errs => (inl e, errs).
Definition lift {A} (r : Exn + A) : M A := fun errs => (r, errs).
(** [self.report.errors.append(e)] *)
Definition append_error (e : Error) : M unit := fun errs => (inr tt, errs ++ [e]).

Record DocumentProperties := mkDocumentProperties {
  id : string;
  page_format : PageFormat;
  orientation : Orientation;
  page_width : Z;
  page_height : Z;
  content_height : Z;
  margin_left : Z;
  margin_top : Z;
  margin_right : Z;
  margin_bottom : Z;
  pattern_locale : JValue;
  pattern_currency_symbol : JValue;
  header : bool;
  header_display : BandDisplay;
  header_size : Z;
  footer : bool;
  footer_display : BandDisplay;
  footer_size : Z }.

Definition self_id : string := "0_document_properties".

Definition invalid_page_size : Error :=
  mkError "errorMsgInvalidPageSize" self_id "page".

(** [self.pattern_locale not in ('de', 'en', 'es', 'fr', 'it')] is decided on
    [supported_locales]. *)
Definition supported_locales : list JValue :=
  [JStr "de"; JStr "en"; JStr "es"; JStr "fr"; JStr "it"].

Global Instance JValue_eq_dec : EqDecision JValue.
Proof. solve_decision. Defined.

Section Init.

(** [get_int_value] comes from [utils], which is not among the sources; it
    is a parameter of the constructor. *)
Variable get_int_value : gmap string JValue -> string -> Z.

(** The size checks of a custom page format: the [if]/[elif] ladder on the
    unit, and inside it the [if]/[elif] on width and height. *)
Definition check_page_size (unit : Unit) (w h : Z) : M () :=
  if decide (unit = mm) then
    if (w <? 100) || (w >=? 100000) then append_error invalid_page_size
    else if (h <? 100) || (h >=? 100000) then append_error invalid_page_size
    else mret tt
  else if decide (unit = inch) then
    if (w <? 1) || (w >=? 1000) then append_error invalid_page_size
    else if (h <? 1) || (h >=? 1000) then append_error invalid_page_size
    else mret tt
  else mret tt.

(** Page width, page height (before conversion) and unit. *)
Definition page_size (data : gmap string JValue) (fmt : PageFormat) (o : Orientation)
  : M (Q * Q * Unit) :=
  match fmt with
  | a4 =>
      if decide (o = portrait) then mret (210 # 1, 297 # 1, mm)%Q
      else mret (297 # 1, 210 # 1, mm)%Q
  | a5 =>
      if decide (o = portrait) then mret (148 # 1, 210 # 1, mm)%Q
      else mret (210 # 1, 148 # 1, mm)%Q
  | letter =>
      if decide (o = portrait) then mret (17 # 2, 11 # 1, inch)%Q
      else mret (11 # 1, 17 # 2, inch)%Q
  | user_defined =>
      let w := get_int_value data "pageWidth" in
      let h := get_int_value data "pageHeight" in
      unit ← lift (enum_of Unit_lookup (get data "unit"));
      check_page_size unit w h;;
      mret (inject_Z w, inject_Z h, unit)
  end.

Definition dpi : Q := 72 # 1.

(** The conversion to device units, on exact numbers:
    [round((dpi * w) / 25.4)] for millimetres and [round(dpi * w)]
    otherwise.  [PyFloat.to_device] is the conversion of an integer size
    in the doubles of the source. *)
Definition to_device (unit : Unit) (v : Q) : Z :=
  if decide (unit = mm) then py_round ((dpi * v) / (254 # 10))%Q
  else py_round (dpi * v)%Q.

(** [data.get('pageFormat').lower()] *)
Definition page_format_name (data : gmap string JValue) : Exn + JValue :=
  match get data "pageFormat" with
  | JStr s => inr (JStr (lower s))
  | _ => inl AttributeError
  end.

Definition band_settings (data : gmap string JValue) (flag display size : string)
  : M (bool * BandDisplay * Z) :=
  let present := truthy (get data flag) in
  if present then
    d ← lift (enum_of BandDisplay_lookup (get data display));
    mret (present, d, get_int_value data size)
  else mret (present, never, 0).

Definition DocumentProperties_init (data : gmap string JValue) : M DocumentProperties :=
  name ← lift (page_format_name data);
  fmt ← lift (enum_of PageFormat_lookup name);
  o ← lift (enum_of Orientation_lookup (get data "orientation"));
  '(w, h, unit) ← page_size data fmt o;
  let page_width := to_device unit w in
  let page_height := to_device unit h in
  let content_height := get_int_value data "contentHeight" in
  let margin_left := get_int_value data "marginLeft" in
  let margin_top := get_int_value data "marginTop" in
  let margin_right := get_int_value data "marginRight" in
  let margin_bottom := get_int_value data "marginBottom" in
  let pattern_locale := get_default data "patternLocale" (JStr "") in
  let pattern_currency_symbol := get_default data "patternCurrencySymbol" (JStr "") in
  if decide (pattern_locale ∉ supported_locales) then
    raise (RuntimeError "invalid pattern_locale")
  else
    '(header, header_display, header_size) ←
      band_settings data "header" "headerDisplay" "headerSize";
    '(footer, footer_display, footer_size) ←
      band_settings data "footer" "footerDisplay" "footerSize";
    let content_height :=
      if content_height =? 0 then
        page_height - header_size - footer_size - margin_top - margin_bottom
      else content_height in
    mret (mkDocumentProperties self_id fmt o page_width page_height
           content_height margin_left margin_top margin_right margin_bottom
           pattern_locale pattern_currency_symbol
           header header_display header_size
           footer footer_display footer_size).

End Init.

(** A reading of [get_int_value] used for concrete runs: an integer entry is
    returned as it is, anything else counts as 0. *)
Definition int_entry (data : gmap string JValue) (key : string) : Z :=
  match get data key with
  | JInt z => z
  | _ => 0
  end.

End Geometry.

(** * Document elements

    Modelled from the spec: the element classes live in [elements.py], which is
    not among the sources.  The record keeps the attributes [reportbro.py]
    reads and writes; [priv] stands for whatever further state an element
    variant keeps for itself. *)

Abbreviation ref := nat.

Module Element.

Inductive Kind := PageBreakElement | TableElement | OtherElement.

Global Instance Kind_eq_dec : EqDecision Kind.
Proof. solve_decision. Defined.

Record t {Priv : Type} := mk {
  id : Z;
  kind : Kind;
  x : Z;
  y : Z;
  bottom : Z;
  sort_order : Z;
  spreadsheet_hide : bool;
  first_render_element : bool;
  rendering_complete : bool;
  render_bottom : Z;
  predecessor : option ref;
  successors : list ref;
  priv : Priv }.
Arguments t : clear implicits.
Arguments mk {Priv}.

Section Setters.
Context {Priv : Type}.
Implicit Type e : t Priv.

Definition with_first_render_element (b : bool) e : t Priv :=
  mk (id e) (kind e) (x e) (y e) (bottom e) (sort_order e) (spreadsheet_hide e)
     b (rendering_complete e) (render_bottom e) (predecessor e) (successors e) (priv e).

Definition with_rendering_complete (b : bool) e : t Priv :=
  mk (id e) (kind e) (x e) (y e) (bottom e) (sort_order e) (spreadsheet_hide e)
     (first_render_element e) b (render_bottom e) (predecessor e) (successors e) (priv e).

Definition with_predecessor (p : option ref) e : t Priv :=
  mk (id e) (kind e) (x e) (y e) (bottom e) (sort_order e) (spreadsheet_hide e)
     (first_render_element e) (rendering_complete e) (render_bottom e) p (successors e) (priv e).

Definition with_successors (l : list ref) e : t Priv :=
  mk (id e) (kind e) (x e) (y e) (bottom e) (sort_order e) (spreadsheet_hide e)
     (first_render_element e) (rendering_complete e) (render_bottom e) (predecessor e) l (priv e).

(** [isinstance(elem, PageBreakElement)] *)
Definition is_page_break e : bool := bool_decide (kind e = PageBreakElement).
(** [isinstance(elem, TableElement)] *)
Definition is_table e : bool := bool_decide (kind e = TableElement).
End Setters.

End Element.

(** Modelled from the spec: the evaluation context, of which the renderers use
    the page-number counter (increment, get, set total). *)
Record Context := mkContext {
  page_number : Z;
  page_count : Z }.

Definition inc_page_number (ctx : Context) : Context :=
  mkContext (page_number ctx + 1) (page_count ctx).
Definition get_page_number (ctx : Context) : Z := page_number ctx.
Definition set_page_count (ctx : Context) (n : Z) : Context :=
  mkContext (page_number ctx) n.

(** Modelled from the spec: the element capability consumed by the bands
    (section 6).  A method that mutates its element returns the element's new
    state; an element method touches no other element.  [pdf_doc] is passed as
    the truth value the band tests ([true] for a PDF document, [false] for
    [None]). *)
Class ElementOps (Priv Frag : Type) := {
  (** [elem.prepare(ctx, pdf_doc, only_verify)] *)
  elem_prepare : Context -> bool -> bool -> Element.t Priv -> Element.t Priv;
  (** [elem.is_printed(ctx)] *)
  is_printed : Element.t Priv -> Context -> bool;
  (** [elem.get_next_render_element(offset_y, container_height, ctx, pdf_doc)]:
      the fragment, if any, the completion flag, and the element afterwards *)
  get_next_render_element :
    Element.t Priv -> Z -> Z -> Context -> option Frag * bool * Element.t Priv;
  (** [elem.finish_empty_element(offset_y)] *)
  finish_empty_element : Element.t Priv -> Z -> Element.t Priv;
  (** [elem.cleanup()] *)
  elem_cleanup : Element.t Priv -> Element.t Priv;
  (** [elem.render_spreadsheet(row, col, ctx, workbook, worksheet)]: the row
      after the cells the element wrote *)
  elem_render_spreadsheet : Element.t Priv -> Z -> Z -> Context -> Z;
  (** [elem.get_column_count()] *)
  get_column_count : Element.t Priv -> Z }.

(** Modelled from the spec: [elem.set_predecessor(predecessor)] links the
    element to its predecessor and registers it among the predecessor's
    dependents. *)
Definition set_predecessor {Priv} (σ : ref -> Element.t Priv) (elem predecessor : ref)
  : ref -> Element.t Priv :=
  let σ := <[elem := Element.with_predecessor (Some predecessor) (σ elem)]> σ in
  <[predecessor :=
      Element.with_successors (Element.successors (σ predecessor) ++ [elem]) (σ predecessor)]> σ.

(** * Bands *)

Module BandType.
Inductive t := header | content | footer.
Global Instance eq_dec : EqDecision t.
Proof. solve_decision. Defined.
End BandType.

(** What a band queues for the page sink: a fragment obtained from an element,
    or the [PageBreakElement(report, dict(y=-1))] that closes a page. *)
Inductive RenderElement (Frag : Type) :=
| Fragment (f : Frag)
| PageBreak.
Arguments Fragment {Frag} f.
Arguments PageBreak {Frag}.

(** Calls a pagination pass makes on its elements, in order.  The record is
    kept beside the pass and is never read by it. *)
Inductive Call :=
| CallNext (elem : ref) (offset_y container_height : Z)
| CallFinishEmpty (elem : ref) (offset_y : Z).

(** [sorted(l, key=...)]: Python's sort is stable, and a list has exactly one
    stable arrangement in key order; insertion from the right computes it. *)
Definition key_le (k1 k2 : Z * Z) : bool :=
  (k1.1 <? k2.1) || ((k1.1 =? k2.1) && (k1.2 <=? k2.2)).

Fixpoint insert_sorted {A} (key : A -> Z * Z) (a : A) (l : list A) : list A :=
  match l with
  | [] => [a]
  | b :: l' => if key_le (key a) (key b) then a :: l else b :: insert_sorted key a l'
  end.

Definition sorted {A} (l : list A) (key : A -> Z * Z) : list A :=
  foldr (insert_sorted key) [] l.

Module ReportBand.

Record t {Frag : Type} := mk {
  band : BandType.t;
  width : Z;
  height : Z;
  doc_elements : list ref;
  allow_page_break : bool;
  container_offset_y : Z;
  sorted_elements : list ref;
  render_elements : list (RenderElement Frag);
  explicit_page_break : bool;
  page_y : Z }.
Arguments t : clear implicits.
Arguments mk {Frag}.

Section Band.
Context {Priv Frag : Type} `{!ElementOps Priv Frag}.
Implicit Type self : t Frag.
Implicit Type σ : ref -> Element.t Priv.

Definition with_sorted_elements (l : list ref) self : t Frag :=
  mk (band self) (width self) (height self) (doc_elements self) (allow_page_break self)
     (container_offset_y self) l (render_elements self)
     (explicit_page_break self) (page_y self).

Definition with_render_elements (l : list (RenderElement Frag)) self : t Frag :=
  mk (band self) (width self) (height self) (doc_elements self) (allow_page_break self)
     (container_offset_y self) (sorted_elements self) l
     (explicit_page_break self) (page_y self).

Definition with_explicit_page_break (b : bool) self : t Frag :=
  mk (band self) (width self) (height self) (doc_elements self) (allow_page_break self)
     (container_offset_y self) (sorted_elements self) (render_elements self)
     b (page_y self).

Definition with_page_y (z : Z) self : t Frag :=
  mk (band self) (width self) (height self) (doc_elements self) (allow_page_break self)
     (container_offset_y self) (sorted_elements self) (render_elements self)
     (explicit_page_break self) z.

(** [ReportBand.__init__]; [sorted_elements] and [render_elements] start as
    [None] and are lists from the first [prepare] on. *)
Definition init (band : BandType.t) (dp : Geometry.DocumentProperties) : t Frag :=
  let width := Geometry.page_width dp - Geometry.margin_left dp - Geometry.margin_right dp in
  match band with
  | BandType.content => mk band width (Geometry.content_height dp) [] true 0 [] [] true 0
  | BandType.header => mk band width (Geometry.header_size dp) [] false 0 [] [] true 0
  | BandType.footer => mk band width (Geometry.footer_size dp) [] false 0 [] [] true 0
  end.

(** [Container.add] *)
Definition add (doc_element : ref) self : t Frag :=
  mk (band self) (width self) (height self) (doc_elements self ++ [doc_element])
     (allow_page_break self) (container_offset_y self) (sorted_elements self)
     (render_elements self) (explicit_page_break self) (page_y self).

Definition is_visible (dp : Geometry.DocumentProperties) self : bool :=
  match band self with
  | BandType.header => Geometry.header dp
  | BandType.footer => Geometry.footer dp
  | BandType.content => true
  end.

(** ** [prepare] *)

(** One round of the first loop of [prepare]. *)
Definition prepare_element (ctx : Context) (pdf_doc only_verify : bool) self
    (acc : (ref -> Element.t Priv) * list ref) (r : ref)
  : (ref -> Element.t Priv) * list ref :=
  let '(σ, sorted_elements) := acc in
  let elem := σ r in
  if pdf_doc || negb (Element.spreadsheet_hide elem) || only_verify then
    let elem := elem_prepare ctx pdf_doc only_verify elem in
    let elem :=
      if negb (allow_page_break self) then
        Element.with_rendering_complete false (Element.with_first_render_element true elem)
      else elem in
    (<[r := elem]> σ, sorted_elements ++ [r])
  else acc.

(** One round of the inner scan [for j in range(i-1, -1, -1)]. *)
Definition scan (σ : ref -> Element.t Priv) (elem : Element.t Priv)
    (predecessor : option ref) (r2 : ref) : option ref :=
  let elem2 := σ r2 in
  if (Element.bottom elem2 <=? Element.y elem)
     && match predecessor with
        | None => true
        | Some p => Element.bottom elem2 >? Element.bottom (σ p)
        end
  then Some r2 else predecessor.

(** The scan for the element at index [i]: the candidates are the elements
    at the indices [i-1], ..., [0], in this order. *)
Definition find_predecessor σ (sorted_elements : list ref) (i : nat) (r : ref)
  : option ref :=
  foldl (scan σ (σ r)) None (reverse (take i sorted_elements)).

(** One round of [for i, elem in enumerate(self.sorted_elements)]. *)
Definition link (sorted_elements : list ref) σ (i : nat) : ref -> Element.t Priv :=
  match sorted_elements !! i with
  | Some r =>
      match find_predecessor σ sorted_elements i r with
      | Some p =>
          if negb (Element.is_page_break (σ p)) then set_predecessor σ r p else σ
      | None => σ
      end
  | None => σ
  end.

Definition prepare (ctx : Context) (pdf_doc only_verify : bool) self σ
  : t Frag * (ref -> Element.t Priv) :=
  let '(σ, sorted_elements) :=
    foldl (prepare_element ctx pdf_doc only_verify self) (σ, []) (doc_elements self) in
  if pdf_doc then
    let sorted_elements :=
      sorted sorted_elements (λ r, (Element.y (σ r), Element.sort_order (σ r))) in
    let σ := foldl (link sorted_elements) σ (seq 0 (length sorted_elements)) in
    (with_render_elements [] (with_sorted_elements sorted_elements self), σ)
  else
    let sorted_elements :=
      sorted sorted_elements (λ r, (Element.y (σ r), Element.x (σ r))) in
    (with_sorted_elements sorted_elements self, σ).

(** ** [create_render_elements] *)

(** The variables of the [while] loop, the band and the element store;
    [ls_calls] is the record of the calls made so far. *)
Record Loop := mkLoop {
  ls_i : nat;
  ls_new_page : bool;
  ls_processed_elements : list ref;
  ls_completed_elements : gmap Z bool;
  ls_set_explicit_page_break : bool;
  ls_band : t Frag;
  ls_store : ref -> Element.t Priv;
  ls_calls : list Call }.

(** What [create_render_elements] hands back: the returned flag, the band
    and the elements as the pass leaves them, and the calls it made. *)
Record Pass := mkPass {
  pass_result : bool;
  pass_band : t Frag;
  pass_store : ref -> Element.t Priv;
  pass_calls : list Call }.

Inductive Step :=
| Next (s : Loop)
| Return (p : Pass).

(** [elem.predecessor and (elem.predecessor.id not in completed_elements or
    not elem.predecessor.rendering_complete)] *)
Definition predecessor_pending σ (completed_elements : gmap Z bool)
    (elem : Element.t Priv) : bool :=
  match Element.predecessor elem with
  | Some p =>
      bool_decide (completed_elements !! Element.id (σ p) = None)
      || negb (Element.rendering_complete (σ p))
  | None => false
  end.

Definition offset_y self σ (elem : Element.t Priv) : Z :=
  match Element.predecessor elem with
  | Some p =>
      Element.render_bottom (σ p) + (Element.y elem - Element.bottom (σ p))
  | None =>
      if allow_page_break self then
        if Element.first_render_element elem && explicit_page_break self
        then Element.y elem - page_y self
        else 0
      else Element.y elem
  end.

(** The body of the [while] loop, entered with [new_page] false and
    [elem = self.sorted_elements[i]] held by the reference [r]. *)
Definition body (container_height : Z) (ctx : Context) (r : ref) (s : Loop) : Step :=
  let self := ls_band s in
  let σ := ls_store s in
  let i := ls_i s in
  let elem := σ r in
  if predecessor_pending σ (ls_completed_elements s) elem then
    Next (mkLoop i true (ls_processed_elements s) (ls_completed_elements s)
            (ls_set_explicit_page_break s) self σ (ls_calls s))
  else if Element.is_page_break elem then
    if allow_page_break self then
      Next (mkLoop i true (ls_processed_elements s) (ls_completed_elements s) true
              (with_page_y (Element.y elem)
                 (with_sorted_elements (delete i (sorted_elements self)) self))
              σ (ls_calls s))
    else
      Return (mkPass true (with_sorted_elements [] self) σ (ls_calls s))
  else
    let offset_y := offset_y self σ elem in
    if is_printed elem ctx then
      if offset_y >=? container_height then
        Next (mkLoop (i + 1) true (ls_processed_elements s) (ls_completed_elements s)
                (ls_set_explicit_page_break s) self σ (ls_calls s))
      else
        let '(render_elem, complete, elem') :=
          get_next_render_element elem offset_y container_height ctx in
        let σ := <[r := elem']> σ in
        let calls := ls_calls s ++ [CallNext r offset_y container_height] in
        let processed_elements :=
          match render_elem with
          | Some _ =>
              if complete then ls_processed_elements s ++ [r]
              else ls_processed_elements s
          | None => ls_processed_elements s
          end in
        let self :=
          match render_elem with
          | Some f => with_render_elements (render_elements self ++ [Fragment f]) self
          | None => self
          end in
        if complete then
          Next (mkLoop i false processed_elements
                  (<[Element.id (σ r) := true]> (ls_completed_elements s))
                  (ls_set_explicit_page_break s)
                  (with_sorted_elements (delete i (sorted_elements self)) self)
                  σ calls)
        else
          Next (mkLoop (i + 1) false processed_elements (ls_completed_elements s)
                  (ls_set_explicit_page_break s) self σ calls)
    else
      let σ := <[r := finish_empty_element elem offset_y]> σ in
      Next (mkLoop i false (ls_processed_elements s ++ [r])
              (<[Element.id (σ r) := true]> (ls_completed_elements s))
              (ls_set_explicit_page_break s)
              (with_sorted_elements (delete i (sorted_elements self)) self)
              σ (ls_calls s ++ [CallFinishEmpty r offset_y])).

(** [for successor in processed_element.successors: successor.predecessor = None] *)
Definition clear_successors σ (processed_element : ref) : ref -> Element.t Priv :=
  foldl (λ σ successor, <[successor := Element.with_predecessor None (σ successor)]> σ)
    σ (Element.successors (σ processed_element)).

(** The statements after the [while] loop. *)
Definition finish (s : Loop) : Pass :=
  let self := ls_band s in
  let self :=
    with_explicit_page_break
      (if allow_page_break self then ls_set_explicit_page_break s else true) self in
  if (0 <? length (sorted_elements self))%nat then
    mkPass (bool_decide (length (sorted_elements self) = 0%nat))
      (with_render_elements (render_elements self ++ [PageBreak]) self)
      (foldl clear_successors (ls_store s) (ls_processed_elements s))
      (ls_calls s)
  else
    mkPass (bool_decide (length (sorted_elements self) = 0%nat)) self
      (ls_store s) (ls_calls s).

(** [while not new_page and i < len(self.sorted_elements)], run for at most
    [fuel] rounds; [None] if the loop is still running when they are used
    up. *)
Fixpoint loop (fuel : nat) (container_height : Z) (ctx : Context) (s : Loop)
  : option Pass :=
  if ls_new_page s then Some (finish s)
  else
    match sorted_elements (ls_band s) !! ls_i s with
    | None => Some (finish s)
    | Some r =>
        match fuel with
        | O => None
        | S fuel =>
            match body container_height ctx r s with
            | Next s' => loop fuel container_height ctx s'
            | Return p => Some p
            end
        end
    end.

Definition enter self σ : Loop :=
  mkLoop 0 false [] ∅ false self σ [].

(** Every round of the loop removes an element or moves the index forward,
    so the length of the list bounds the number of rounds. *)
Definition create_render_elements (container_height : Z) (ctx : Context) self σ
  : option Pass :=
  loop (length (sorted_elements self)) container_height ctx (enter self σ).

(** ** [render_pdf]

    Drawing a fragment and releasing it are operations of the fragment; the
    page records what was drawn where, and [released] what was cleaned up. *)

Inductive DrawOp :=
| Image (x y w h : Q)
| Draw (f : Frag) (offset_x offset_y : Z).

Fixpoint render_pdf_loop (container_offset_x container_offset_y : Z) (cleanup : bool)
    (l : list (RenderElement Frag)) (counter : nat)
    (page : list DrawOp) (released : list Frag)
  : nat * list DrawOp * list Frag :=
  match l with
  | [] => (counter, page, released)
  | render_elem :: l' =>
      let counter := (counter + 1)%nat in
      match render_elem with
      | PageBreak => (counter, page, released)
      | Fragment f =>
          render_pdf_loop container_offset_x container_offset_y cleanup l' counter
            (page ++ [Draw f container_offset_x container_offset_y])
            (if cleanup then released ++ [f] else released)
      end
  end.

Definition render_pdf (container_offset_x container_offset_y : Z) (cleanup : bool)
    self (page : list DrawOp) (released : list Frag)
  : t Frag * list DrawOp * list Frag :=
  let '(counter, page, released) :=
    render_pdf_loop container_offset_x container_offset_y cleanup
      (render_elements self) 0 page released in
  (with_render_elements (drop counter (render_elements self)) self, page, released).

Definition is_finished self : bool :=
  bool_decide (length (render_elements self) = 0%nat).

Definition cleanup self σ : ref -> Element.t Priv :=
  foldl (λ σ r, <[r := elem_cleanup (σ r)]> σ) σ (doc_elements self).

(** ** [render_spreadsheet]

    The worksheet records which element was asked to write its cells at which
    row and column. *)

Record CellWrite := mkCellWrite {
  cw_elem : ref;
  cw_row : Z;
  cw_col : Z }.

(** The runs the two nested [while] loops walk through: [elem] opens a row,
    and the elements right after it whose [y] equals its [y] join it. *)
Fixpoint rows σ (l : list ref) : list (list ref) :=
  match l with
  | [] => []
  | r :: l' =>
      match rows σ l' with
      | (r2 :: row_elements) :: rest =>
          if Element.y (σ r2) =? Element.y (σ r)
          then (r :: r2 :: row_elements) :: rest
          else [r] :: (r2 :: row_elements) :: rest
      | [] :: rest => [r] :: rest
      | [] => [[r]]
      end
  end.

(** [for row_element in row_elements] *)
Definition render_row_element (ctx : Context) σ (current_row : Z)
    (acc : Z * Z * list CellWrite) (r : ref) : Z * Z * list CellWrite :=
  let '(row, col, worksheet) := acc in
  let row_element := σ r in
  let tmp_row := elem_render_spreadsheet row_element current_row col ctx in
  (Z.max row tmp_row,
   col + (if Element.is_table row_element then get_column_count row_element else 1),
   worksheet ++ [mkCellWrite r current_row col]).

Definition render_row (ctx : Context) σ (acc : Z * list CellWrite)
    (row_elements : list ref) : Z * list CellWrite :=
  let '(row, worksheet) := acc in
  let current_row := row in
  let '(row, _, worksheet) :=
    foldl (render_row_element ctx σ current_row) (row, 0, worksheet) row_elements in
  (row, worksheet).

Definition render_spreadsheet (row : Z) (ctx : Context) self σ
    (worksheet : list CellWrite) : Z * list CellWrite :=
  foldl (render_row ctx σ) (row, worksheet) (rows σ (sorted_elements self)).

End Band.
End ReportBand.

(** * The PDF renderer *)

Module DocumentPDFRenderer.

Section Renderer.
Context {Priv Frag : Type} `{!ElementOps Priv Frag}.

(** [pdf_doc] is the list of pages, the page being drawn first; [store] holds
    the elements of the three bands, [released] the fragments cleaned up. *)
Record t := mk {
  header_band : ReportBand.t Frag;
  content_band : ReportBand.t Frag;
  footer_band : ReportBand.t Frag;
  document_properties : Geometry.DocumentProperties;
  pdf_doc : list (list (ReportBand.DrawOp (Frag := Frag)));
  context : Context;
  add_watermark : bool;
  store : ref -> Element.t Priv;
  released : list Frag }.

(** [self.pdf_doc.add_page(); self.context.inc_page_number()] *)
Definition add_page (self : t) : t :=
  mk (header_band self) (content_band self) (footer_band self)
     (document_properties self) ([] :: pdf_doc self)
     (inc_page_number (context self)) (add_watermark self) (store self) (released self).

Definition is_finished (self : t) : bool :=
  ReportBand.is_finished (content_band self).

(** The test both phases apply to a display policy:
    [display == BandDisplay.always or
     (display == BandDisplay.not_on_first_page and page != 1)] *)
Definition displayed (display : Geometry.BandDisplay) (page : Z) : bool :=
  bool_decide (display = Geometry.always)
  || (bool_decide (display = Geometry.not_on_first_page) && negb (page =? 1)).

(** The height handed to the content band for the page [page_count]. *)
Definition content_height (dp : Geometry.DocumentProperties) (page_count : Z) : Z :=
  let height :=
    Geometry.page_height dp - Geometry.margin_top dp - Geometry.margin_bottom dp in
  let height :=
    if displayed (Geometry.header_display dp) page_count
    then height - Geometry.header_size dp else height in
  if displayed (Geometry.footer_display dp) page_count
  then height - Geometry.footer_size dp else height.

Definition too_many_pages : Exn :=
  RuntimeError "Too many pages (probably an endless loop)".

(** The first [while True] loop of [render], run for at most [fuel] rounds.
    Beside the outcome it reports how many times it called
    [create_render_elements]. *)
Fixpoint sizing (fuel : nat) (dp : Geometry.DocumentProperties) (ctx : Context)
    (page_count : Z) (content_band : ReportBand.t Frag) (σ : ref -> Element.t Priv)
    (calls : nat)
  : Outcome (Z * ReportBand.t Frag * (ref -> Element.t Priv)) * nat :=
  match fuel with
  | O => (OutOfFuel, calls)
  | S fuel =>
      let height := content_height dp page_count in
      match ReportBand.create_render_elements height ctx content_band σ with
      | None => (OutOfFuel, calls)
      | Some p =>
          let calls := S calls in
          if ReportBand.pass_result p then
            (Done (page_count, ReportBand.pass_band p, ReportBand.pass_store p), calls)
          else
            let page_count := page_count + 1 in
            if page_count >=? 10000 then (Raised too_many_pages, calls)
            else sizing fuel dp ctx page_count
                   (ReportBand.pass_band p) (ReportBand.pass_store p) calls
      end
  end.

(** [self.pdf_doc.image(...)] and the drawing of a band go to the page that
    was added last. *)
Definition on_page (f : list (ReportBand.DrawOp (Frag := Frag)) -> list ReportBand.DrawOp)
    (pdf_doc : list (list ReportBand.DrawOp)) : list (list ReportBand.DrawOp) :=
  match pdf_doc with
  | page :: rest => f page :: rest
  | [] => []
  end.

Definition current_page (pdf_doc : list (list (ReportBand.DrawOp (Frag := Frag))))
  : list ReportBand.DrawOp :=
  match pdf_doc with
  | page :: _ => page
  | [] => []
  end.

(** Header and footer on a page: [prepare], [create_render_elements] against
    the band's own size, [render_pdf] at the band's place. *)
Definition render_fixed_band (band : ReportBand.t Frag) (size offset_x offset_y : Z)
    (ctx : Context) (σ : ref -> Element.t Priv)
    (page : list ReportBand.DrawOp) (released : list Frag)
  : option (ReportBand.t Frag * (ref -> Element.t Priv)
            * list ReportBand.DrawOp * list Frag) :=
  let '(band, σ) := ReportBand.prepare ctx true false band σ in
  match ReportBand.create_render_elements size ctx band σ with
  | None => None
  | Some p =>
      let '(band, page, released) :=
        ReportBand.render_pdf offset_x offset_y false (ReportBand.pass_band p)
          page released in
      Some (band, ReportBand.pass_store p, page, released)
  end.

(** The body of the second [while] loop of [render]: one physical page. *)
Definition render_page (watermark_width watermark_height : Q) (footer_offset_y : Z)
    (self : t) : option t :=
  let self := add_page self in
  let dp := document_properties self in
  let pdf_doc :=
    if add_watermark self then
      if Qlt_le_dec watermark_height (inject_Z (Geometry.page_height dp)) then
        on_page (λ page, page ++
          [ReportBand.Image
             (inject_Z (Geometry.page_width dp) / (2 # 1) - watermark_width / (2 # 1))%Q
             (inject_Z (Geometry.page_height dp) - watermark_height)%Q
             watermark_width watermark_height]) (pdf_doc self)
      else pdf_doc self
    else pdf_doc self in
  let content_offset_y := Geometry.margin_top dp in
  let page_number := get_page_number (context self) in
  let page := current_page pdf_doc in
  let with_header :=
    if displayed (Geometry.header_display dp) page_number then
      match render_fixed_band (header_band self) (Geometry.header_size dp)
              (Geometry.margin_left dp) (Geometry.margin_top dp)
              (context self) (store self) page (released self) with
      | Some (band, σ, page, released) =>
          Some (content_offset_y + Geometry.header_size dp, band, σ, page, released)
      | None => None
      end
    else Some (content_offset_y, header_band self, store self, page, released self) in
  match with_header with
  | None => None
  | Some (content_offset_y, header_band', σ, page, released) =>
      let with_footer :=
        if displayed (Geometry.footer_display dp) page_number then
          render_fixed_band (footer_band self) (Geometry.footer_size dp)
            (Geometry.margin_left dp) footer_offset_y (context self) σ page released
        else Some (footer_band self, σ, page, released) in
      match with_footer with
      | None => None
      | Some (footer_band', σ, page, released) =>
          let '(content_band', page, released) :=
            ReportBand.render_pdf (Geometry.margin_left dp) content_offset_y true
              (content_band self) page released in
          Some (mk header_band' content_band' footer_band' dp
                  (on_page (λ _, page) pdf_doc) (context self) (add_watermark self)
                  σ released)
      end
  end.

(** [while not self.content_band.is_finished() or
    self.context.get_page_number() == 0], run for at most [fuel] rounds. *)
Fixpoint pages (fuel : nat) (watermark_width watermark_height : Q)
    (footer_offset_y : Z) (self : t) : Outcome t :=
  if negb (is_finished self) || (get_page_number (context self) =? 0) then
    match fuel with
    | O => OutOfFuel
    | S fuel =>
        match render_page watermark_width watermark_height footer_offset_y self with
        | Some self => pages fuel watermark_width watermark_height footer_offset_y self
        | None => OutOfFuel
        end
    end
  else Done self.

(** [render]: [watermark_exists] is the answer of [os.path.exists] for the
    watermark image.  The sizing loop stops by itself within 10000 rounds;
    a round of the page loop takes at least one entry off the content
    band's queue when there is one. *)
Definition render (watermark_exists : bool) (self : t) : Outcome t :=
  let dp := document_properties self in
  let '(watermark, watermark_width, watermark_height) :=
    if add_watermark self then
      if negb watermark_exists then (false, 0 # 1, 0 # 1)%Q
      else
        let watermark_width := (inject_Z (Geometry.page_width dp) / (3 # 1))%Q in
        (true, watermark_width, (watermark_width * ((108 # 1) / (461 # 1)))%Q)
    else (false, 0 # 1, 0 # 1)%Q in
  let '(content, σ) :=
    ReportBand.prepare (context self) true false (content_band self) (store self) in
  match (sizing (Z.to_nat 10000) dp (context self) 1 content σ 0).1 with
  | Done (page_count, content, σ) =>
      let ctx := set_page_count (context self) page_count in
      let footer_offset_y :=
        Geometry.page_height dp - Geometry.footer_size dp - Geometry.margin_bottom dp in
      let self :=
        mk (header_band self) content (footer_band self) dp (pdf_doc self)
           ctx watermark σ (released self) in
      match pages (S (length (ReportBand.render_elements content)))
              watermark_width watermark_height footer_offset_y self with
      | Done self =>
          let σ := ReportBand.cleanup (header_band self) (store self) in
          let σ := ReportBand.cleanup (footer_band self) σ in
          Done (mk (header_band self) (content_band self) (footer_band self) dp
                  (pdf_doc self) (context self) (add_watermark self) σ (released self))
      | Raised e => Raised e
      | OutOfFuel => OutOfFuel
      end
  | Raised e => Raised e
  | OutOfFuel => OutOfFuel
  end.

End Renderer.
End DocumentPDFRenderer.

(** * The spreadsheet renderer *)

Module DocumentXLSXRenderer.

Section Renderer.
Context {Priv Frag : Type} `{!ElementOps Priv Frag}.

Record t := mk {
  header_band : ReportBand.t Frag;
  content_band : ReportBand.t Frag;
  footer_band : ReportBand.t Frag;
  document_properties : Geometry.DocumentProperties;
  worksheet : list ReportBand.CellWrite;
  context : Context;
  row : Z;
  store : ref -> Element.t Priv }.

Definition get_band (which : BandType.t) (self : t) : ReportBand.t Frag :=
  match which with
  | BandType.header => header_band self
  | BandType.content => content_band self
  | BandType.footer => footer_band self
  end.

(** [render_band(band)], the band named by its place in the renderer. *)
Definition render_band (which : BandType.t) (self : t) : t :=
  let '(band, σ) :=
    ReportBand.prepare (context self) false false (get_band which self) (store self) in
  let '(row, worksheet) :=
    ReportBand.render_spreadsheet (row self) (context self) band σ (worksheet self) in
  match which with
  | BandType.header =>
      mk band (content_band self) (footer_band self) (document_properties self)
         worksheet (context self) row σ
  | BandType.content =>
      mk (header_band self) band (footer_band self) (document_properties self)
         worksheet (context self) row σ
  | BandType.footer =>
      mk (header_band self) (content_band self) band (document_properties self)
         worksheet (context self) row σ
  end.

Definition render (self : t) : t :=
  let self :=
    if bool_decide (Geometry.header_display (document_properties self) ≠ Geometry.never)
    then render_band BandType.header self else self in
  let self := render_band BandType.content self in
  if bool_decide (Geometry.header_display (document_properties self) ≠ Geometry.never)
  then render_band BandType.footer self else self.

End Renderer.
End DocumentXLSXRenderer.

(** * A sample element capability

    Elements that are always printed and whose private state is the height
    still to be rendered: preparing an element sets it to the height of the
    element, and a call for the next fragment fills what is left of the page
    below the offset and either finishes the element or leaves the remainder
    for the next page.  A fragment is recorded as the element's id,
    its offset and the height it takes. *)

Module Sample.

Definition next (e : Element.t Z) (offset_y container_height : Z) (ctx : Context)
  : option (Z * Z * Z) * bool * Element.t Z :=
  let available := container_height - offset_y in
  let needed := Element.priv e in
  if needed <=? available then
    (Some (Element.id e, offset_y, needed), true,
     Element.mk (Element.id e) (Element.kind e) (Element.x e) (Element.y e)
       (Element.bottom e) (Element.sort_order e) (Element.spreadsheet_hide e)
       false true (offset_y + needed) (Element.predecessor e)
       (Element.successors e) 0)
  else
    (Some (Element.id e, offset_y, available), false,
     Element.mk (Element.id e) (Element.kind e) (Element.x e) (Element.y e)
       (Element.bottom e) (Element.sort_order e) (Element.spreadsheet_hide e)
       false false (offset_y + available) (Element.predecessor e)
       (Element.successors e) (needed - available)).

Definition finish_empty (e : Element.t Z) (offset_y : Z) : Element.t Z :=
  Element.mk (Element.id e) (Element.kind e) (Element.x e) (Element.y e)
    (Element.bottom e) (Element.sort_order e) (Element.spreadsheet_hide e)
    (Element.first_render_element e) true offset_y (Element.predecessor e)
    (Element.successors e) (Element.priv e).

(** Preparing an element restores the height it has to render. *)
Definition prepare (ctx : Context) (pdf_doc only_verify : bool) (e : Element.t Z)
  : Element.t Z :=
  Element.mk (Element.id e) (Element.kind e) (Element.x e) (Element.y e)
    (Element.bottom e) (Element.sort_order e) (Element.spreadsheet_hide e)
    (Element.first_render_element e) (Element.rendering_complete e)
    (Element.render_bottom e) (Element.predecessor e) (Element.successors e)
    (Element.bottom e - Element.y e).

Global Instance ops : ElementOps Z (Z * Z * Z) := {
  elem_prepare := prepare;
  is_printed := λ _ _, true;
  get_next_render_element := next;
  finish_empty_element := finish_empty;
  elem_cleanup := λ e, e;
  elem_render_spreadsheet := λ _ row _ _, row + 1;
  get_column_count := λ _, 1 }.

(** An element as its constructor leaves it: nothing rendered, no links. *)
Definition element (id : Z) (kind : Element.Kind) (y height : Z) (hide : bool)
  : Element.t Z :=
  Element.mk id kind 0 y (y + height) 1 hide true false 0 None [] height.

Definition page_break (id y : Z) : Element.t Z :=
  Element.mk id Element.PageBreakElement 0 y y 1 true true false 0 None [] 0.

(** A store holding the listed elements at the references 0, 1, ... *)
Definition store_of (l : list (Element.t Z)) : ref -> Element.t Z :=
  λ r, default (page_break (-1) 0) (l !! r).

(** A band holding the elements at the references [0 .. n-1]. *)
Definition band_of (band : BandType.t) (n : nat) (height : Z)
  : ReportBand.t (Z * Z * Z) :=
  ReportBand.mk band 0 height (seq 0 n)
    (bool_decide (band = BandType.content)) 0 [] [] true 0.

End Sample.

(** * Floating point

    Python's [float] is the IEEE 754 double: 53 bits of precision and
    exponents below 1024; its operations are the ones of [SpecFloat] at
    these parameters.  [DocumentProperties.__init__] computes the size of a
    page given in millimetres as [round((dpi * self.page_width) / 25.4)]:
    the integer [dpi * self.page_width] is converted to a double and
    divided by the double [25.4], and the quotient, a double, is rounded to
    an integer.  This module has that computation as the source makes it;
    [Geometry.to_device] rounds the exact quotient. *)

Module PyFloat.

Definition prec : Z := 53.
Definition emax : Z := 1024.

(** The conversion of the integer operand of [n / 25.4]: to the nearest
    double, ties to even.  [None] stands for the [OverflowError] of an
    integer too large for a double. *)
Definition of_int (n : Z) : option spec_float :=
  match binary_normalize prec emax n 0 false with
  | S754_infinity _ | S754_nan => None
  | f => Some f
  end.

(** The literal [25.4]: the double nearest to 254/10. *)
Definition float_25_4 : spec_float :=
  SFdiv prec emax (binary_normalize prec emax 254 0 false)
                  (binary_normalize prec emax 10 0 false).

(** The number a finite double stands for. *)
Definition value (f : spec_float) : option Q :=
  match f with
  | S754_zero _ => Some 0%Q
  | S754_finite s m e =>
      let z := if s then Z.neg m else Z.pos m in
      Some (match e with
            | Z.neg p => z # 2 ^ p
            | _ => inject_Z (z * 2 ^ e)
            end)
  | _ => None
  end.

(** [round(x)] of a double: the nearest integer, ties to even.  [None]
    stands for the [OverflowError] of an infinity and the [ValueError] of a
    NaN. *)
Definition round (f : spec_float) : option Z := Geometry.py_round <$> value f.

(** [round((dpi * w) / 25.4)] for an integer [w], with [dpi = 72]. *)
Definition mm_to_device (w : Z) : option Z :=
  f ← of_int (72 * w); round (SFdiv prec emax f float_25_4).

(** The conversion at the end of the size computation, for an integer size:
    [if unit == Unit.mm: ... else: round(dpi * w)], where [dpi * w] is an
    integer and [round] returns it. *)
Definition to_device (unit : Geometry.Unit) (w : Z) : option Z :=
  if decide (unit = Geometry.mm) then mm_to_device w else Some (72 * w).

End PyFloat.

(** * The PDF document: fonts and page set-up *)

Module FPDFRB.

(** An entry of [additional_fonts]: a key is there or not; the family name
    and the file names are strings. *)
Record AdditionalFont := mkAdditionalFont {
  af_value : option string;
  af_filename : option string;
  af_bold_filename : option string;
  af_italic_filename : option string;
  af_bold_italic_filename : option string;
  af_uni : option bool }.

(** The dictionary kept for an additional font. *)
Record FontFiles := mkFontFiles {
  added : bool;
  regular_filename : string;
  bold_filename : string;
  italic_filename : string;
  bold_italic_filename : string;
  style_map : gmap string string;
  uni : bool;
  style2filename : gmap string string }.

(** An entry of [available_fonts]: [dict(standard_font=True)], or the
    dictionary of an additional font. *)
Inductive Font :=
| StandardFont
| AdditionalFontFiles (font : FontFiles).

(** The calls that reach the base class [fpdf.FPDF], in order. *)
Inductive FontCall :=
| AddFont (family : string) (style : option string) (fname : option string) (uni : bool)
| SetFont (family : string) (style : string) (size : Z).

Record t := mk {
  orientation : string;
  dimension : Z * Z;
  available_fonts : gmap string Font;
  calls : list FontCall }.

Definition with_font (family : string) (font : Font) (self : t) : t :=
  mk (orientation self) (dimension self) (<[family := font]> (available_fonts self))
     (calls self).

Definition call (c : FontCall) (self : t) : t :=
  mk (orientation self) (dimension self) (available_fonts self) (calls self ++ [c]).

(** The style map of an additional font, after the three [if]/[elif]
    ladders; the four styles are keys of it throughout. *)
Definition make_style_map (regular bold italic bold_italic : string)
  : gmap string string :=
  let style_map : gmap string string :=
    <["" := ""]> (<["B" := "B"]> (<["I" := "I"]> (<["BI" := "BI"]> ∅))) in
  let style_map :=
    if bool_decide (bold = regular) then <["B" := ""]> style_map else style_map in
  let style_map :=
    if bool_decide (italic = bold) then <["I" := style_map !!! "B"]> style_map
    else if bool_decide (italic = regular) then <["I" := ""]> style_map
    else style_map in
  if bool_decide (bold_italic = italic) then <["BI" := style_map !!! "I"]> style_map
  else if bool_decide (bold_italic = bold) then <["BI" := style_map !!! "B"]> style_map
  else if bool_decide (bold_italic = regular) then <["BI" := ""]> style_map
  else style_map.

(** The body of [for additional_font in additional_fonts]. *)
Definition font_files (additional_font : AdditionalFont) : FontFiles :=
  let filename := default "" (af_filename additional_font) in
  let bold := default filename (af_bold_filename additional_font) in
  let italic := default filename (af_italic_filename additional_font) in
  let bold_italic := default filename (af_bold_italic_filename additional_font) in
  mkFontFiles false filename bold italic bold_italic
    (make_style_map filename bold italic bold_italic)
    (default true (af_uni additional_font))
    (<["" := filename]> (<["B" := bold]> (<["I" := italic]>
       (<["BI" := bold_italic]> ∅)))).

Definition add_additional_font (fonts : gmap string Font)
    (additional_font : AdditionalFont) : gmap string Font :=
  <[default "" (af_value additional_font) := AdditionalFontFiles (font_files additional_font)]>
    fonts.

Definition standard_fonts : gmap string Font :=
  <["courier" := StandardFont]> (<["helvetica" := StandardFont]>
    (<["times" := StandardFont]> ∅)).

(** [FPDFRB.__init__]: the orientation letter and the page dimensions handed
    to [fpdf.FPDF.__init__], and the table of fonts.  [additional_fonts] is
    [None] or a list. *)
Definition init (document_properties : Geometry.DocumentProperties)
    (additional_fonts : option (list AdditionalFont)) : t :=
  let '(orientation, dimension) :=
    if decide (Geometry.orientation document_properties = Geometry.portrait) then
      ("P", (Geometry.page_width document_properties,
             Geometry.page_height document_properties))
    else
      ("L", (Geometry.page_height document_properties,
             Geometry.page_width document_properties)) in
  mk orientation dimension
     (foldl add_additional_font standard_fonts (default [] additional_fonts)) [].

(** [style.replace('U', '')] *)
Fixpoint remove_U (style : string) : string :=
  match style with
  | EmptyString => EmptyString
  | String c style' =>
      if String.eqb (String c EmptyString) "U" then remove_U style'
      else String c (remove_U style')
  end.

(** [set_font] returns, or [style += 'U'] raises a [TypeError] because the
    style map had no entry for the style asked for. *)
Inductive Result :=
| Returned (self : t)
| TypeError (self : t).

Definition after (r : Result) : t :=
  match r with
  | Returned self => self
  | TypeError self => self
  end.

Definition set_font (family style : string) (size : Z) (underline : bool) (self : t)
  : Result :=
  match available_fonts self !! family with
  | None => Returned self
  | Some font =>
      let '(style, self) :=
        match font with
        | StandardFont => (Some style, self)
        | AdditionalFontFiles files =>
            let style :=
              if negb (String.eqb style "") then style_map files !! remove_U style
              else Some style in
            if negb (added files) then
              let filename := style ≫= (style2filename files !!.) in
              let self := call (AddFont family style filename (uni files)) self in
              (style,
               with_font family
                 (AdditionalFontFiles
                    (mkFontFiles true (regular_filename files) (bold_filename files)
                       (italic_filename files) (bold_italic_filename files)
                       (style_map files) (uni files) (style2filename files)))
                 self)
            else (style, self)
        end in
      let style :=
        if underline then (λ s, s +:+ "U") <$> style else style in
      match style with
      | Some style => Returned (call (SetFont family style size) self)
      | None => TypeError self
      end
  end.

(** A series of [set_font] calls, each given as family, style, size and
    underline; it ends where a call raises. *)
Fixpoint set_fonts (requests : list (string * string * Z * bool)) (self : t) : Result :=
  match requests with
  | [] => Returned self
  | (family, style, size, underline) :: requests =>
      match set_font family style size underline self with
      | Returned self => set_fonts requests self
      | TypeError self => TypeError self
      end
  end.

End FPDFRB.

(** * The report *)

Module Report.

(** Modelled from its use: of a parameter ([structs.Parameter], not among the
    sources) the constructor of the report reads [id] and [name]. *)
Record ReportParameter := mkReportParameter {
  parameter_id : Z;
  parameter_name : string }.

(** An error record that names a parameter or an element: [object_id] is the
    integer id of that object.  These records go to [report.errors] like
    the ones of the document properties; the loops below only append, and
    the part of the list they append is kept on its own. *)
Record ObjectError := mkObjectError {
  oe_msg_id : string;
  oe_object_id : Z;
  oe_field : string }.

(** The body of [for item in report_definition.get('parameters')], the
    parameter already constructed. *)
Definition add_parameter
    (acc : gmap string ReportParameter * list ReportParameter * list ObjectError)
    (parameter : ReportParameter)
  : gmap string ReportParameter * list ReportParameter * list ObjectError :=
  let '(parameters, parameter_list, errors) := acc in
  let errors :=
    if bool_decide (is_Some (parameters !! parameter_name parameter)) then
      errors ++ [mkObjectError "errorMsgDuplicateParameter" (parameter_id parameter) "name"]
    else errors in
  (<[parameter_name parameter := parameter]> parameters,
   parameter_list ++ [parameter], errors).

Definition add_parameters (items : list ReportParameter) (errors : list ObjectError)
  : gmap string ReportParameter * list ReportParameter * list ObjectError :=
  foldl add_parameter (∅, [], errors) items.

Section Elements.
Context {Priv Frag : Type} `{!ElementOps Priv Frag}.

(** The attributes [width] and [height] of an element, which the element
    record does not keep. *)
Variables elem_width elem_height : Element.t Priv -> Z.

(** The three bands, which are the containers the report itself registers
    in [self.containers]. *)
Record Bands := mkBands {
  header : ReportBand.t Frag;
  content : ReportBand.t Frag;
  footer : ReportBand.t Frag }.

Definition get_band (which : BandType.t) (bands : Bands) : ReportBand.t Frag :=
  match which with
  | BandType.header => header bands
  | BandType.content => content bands
  | BandType.footer => footer bands
  end.

Definition set_band (which : BandType.t) (band : ReportBand.t Frag) (bands : Bands)
  : Bands :=
  match which with
  | BandType.header => mkBands band (content bands) (footer bands)
  | BandType.content => mkBands (header bands) band (footer bands)
  | BandType.footer => mkBands (header bands) (content bands) band
  end.

(** The three bands as [Report.__init__] makes them. *)
Definition new_bands (dp : Geometry.DocumentProperties) : Bands :=
  mkBands (ReportBand.init BandType.header dp) (ReportBand.init BandType.content dp)
    (ReportBand.init BandType.footer dp).

(** [self.containers.get(container_id)] under [if container_id:], for the
    containers the report registers: the ids of the three bands. *)
Definition container_of (container_id : option string) : option BandType.t :=
  match container_id with
  | Some id =>
      if negb (String.eqb id "") then
        if String.eqb id "0_header" then Some BandType.header
        else if String.eqb id "0_content" then Some BandType.content
        else if String.eqb id "0_footer" then Some BandType.footer
        else None
      else None
  | None => None
  end.

Definition position_error (msg_id : string) (elem : Element.t Priv) : ObjectError :=
  mkObjectError msg_id (Element.id elem) "position".

(** The checks under [if container.is_visible():]. *)
Definition check_position (dp : Geometry.DocumentProperties)
    (container : ReportBand.t Frag) (elem : Element.t Priv)
    (errors : list ObjectError) : list ObjectError :=
  if ReportBand.is_visible dp container then
    let errors :=
      if Element.x elem <? 0 then
        errors ++ [position_error "errorMsgInvalidPosition" elem]
      else if Element.x elem + elem_width elem >? ReportBand.width container then
        errors ++ [position_error "errorMsgInvalidSize" elem]
      else errors in
    if Element.y elem <? 0 then
      errors ++ [position_error "errorMsgInvalidPosition" elem]
    else if Element.y elem + elem_height elem >? ReportBand.height container then
      errors ++ [position_error "errorMsgInvalidSize" elem]
    else errors
  else errors.

(** An entry of [docElements] as the loop sees it: the container id, and
    what looking up the element type and constructing the element gave: an
    exception, no element, or the new element in the store. *)
Record DocElementItem := mkDocElementItem {
  container_id : option string;
  element : Exn + option ref }.

(** The body of [for doc_element in report_definition.get('docElements')]. *)
Definition add_doc_element (dp : Geometry.DocumentProperties)
    (σ : ref -> Element.t Priv) (acc : Bands * list ObjectError)
    (doc_element : DocElementItem) : Exn + Bands * list ObjectError :=
  let '(bands, errors) := acc in
  match element doc_element with
  | inl e => inl e
  | inr elem =>
      match elem, container_of (container_id doc_element) with
      | Some r, Some which =>
          let container := get_band which bands in
          let errors := check_position dp container (σ r) errors in
          inr (set_band which (ReportBand.add r container) bands, errors)
      | _, _ => inr (bands, errors)
      end
  end.

Fixpoint add_doc_elements (dp : Geometry.DocumentProperties)
    (σ : ref -> Element.t Priv) (doc_elements : list DocElementItem)
    (acc : Bands * list ObjectError) : Exn + Bands * list ObjectError :=
  match doc_elements with
  | [] => inr acc
  | doc_element :: doc_elements =>
      match add_doc_element dp σ acc doc_element with
      | inl e => inl e
      | inr acc => add_doc_elements dp σ doc_elements acc
      end
  end.

(** [verify]: the bands prepared with [only_verify]; [pdf_doc] is left at
    its default. *)
Definition verify (dp : Geometry.DocumentProperties) (ctx : Context)
    (bands : Bands) (σ : ref -> Element.t Priv) : Bands * (ref -> Element.t Priv) :=
  let '(bands, σ) :=
    if bool_decide (Geometry.header_display dp ≠ Geometry.never) then
      let '(band, σ) := ReportBand.prepare ctx false true (header bands) σ in
      (set_band BandType.header band bands, σ)
    else (bands, σ) in
  let '(band, σ) := ReportBand.prepare ctx false true (content bands) σ in
  let bands := set_band BandType.content band bands in
  if bool_decide (Geometry.header_display dp ≠ Geometry.never) then
    let '(band, σ) := ReportBand.prepare ctx false true (footer bands) σ in
    (set_band BandType.footer band bands, σ)
  else (bands, σ).

End Elements.

Section Generate.
Context {Priv Frag : Type} `{!ElementOps Priv Frag}.

(** What [generate_pdf] uses of a report: the three bands, the document
    properties, the context that [__init__] makes once
    ([self.context = Context(self, self.parameters, data)]) and the
    elements. *)
Record t := mk {
  bands : Bands (Frag := Frag);
  document_properties : Geometry.DocumentProperties;
  context : Context;
  store : ref -> Element.t Priv }.

(** [generate_pdf]: a new renderer with a new, empty document, on the bands
    and on the context of the report.  The bands, the context and the
    elements are objects the renderer mutates, so the report has them
    afterwards as [render] left them.  The pages of the document are
    returned in the order they were added. *)
Definition generate_pdf (watermark_exists add_watermark : bool) (self : t)
  : Outcome (list (list (ReportBand.DrawOp (Frag := Frag))) * t) :=
  let renderer :=
    DocumentPDFRenderer.mk (header (bands self)) (content (bands self))
      (footer (bands self)) (document_properties self) []
      (context self) add_watermark (store self) [] in
  match DocumentPDFRenderer.render watermark_exists renderer with
  | Done renderer =>
      Done (reverse (DocumentPDFRenderer.pdf_doc renderer),
            mk (mkBands (DocumentPDFRenderer.header_band renderer)
                  (DocumentPDFRenderer.content_band renderer)
                  (DocumentPDFRenderer.footer_band renderer))
               (document_properties self)
               (DocumentPDFRenderer.context renderer)
               (DocumentPDFRenderer.store renderer))
  | Raised e => Raised e
  | OutOfFuel => OutOfFuel
  end.

End Generate.
End Report.

(** * The vocabulary of the properties

    Predicates the statements below are written with, and the concrete
    reports they are tried on. *)

Module GeometryTerms.
Import Geometry.

(** The description of a report on a custom page of the given width, height
    and unit, with the given locale, a header and no footer. *)
Definition custom_page (w h : Z) (unit locale : string) : gmap string JValue :=
  list_to_map
    [("pageFormat", JStr "user_defined"); ("orientation", JStr "portrait");
     ("pageWidth", JInt w); ("pageHeight", JInt h); ("unit", JStr unit);
     ("patternLocale", JStr locale); ("marginTop", JInt 20); ("marginBottom", JInt 20);
     ("header", JBool true); ("headerDisplay", JStr "always"); ("headerSize", JInt 60);
     ("footer", JBool false)].

(** The plausible bounds of a custom page size, per unit. *)
Definition outside_bounds (unit : Unit) (v : Z) : Prop :=
  match unit with
  | mm => v < 100 ∨ v >= 100000
  | inch => v < 1 ∨ v >= 1000
  | pt => False
  end.

(** The page format a description asks for. *)
Definition requested_format (data : gmap string JValue) : Exn + PageFormat :=
  match page_format_name data with
  | inr name => enum_of PageFormat_lookup name
  | inl e => inl e
  end.

End GeometryTerms.

Module PrepareTerms.
Import ReportBand.

Section Sorting.
Context {A : Type} (key : A -> Z * Z).

Definition in_key_order (a b : A) : Prop := key_le (key a) (key b) = true.

End Sorting.

Section Prepare.
Context {Priv Frag : Type} `{!ElementOps Priv Frag}.
Implicit Type self : ReportBand.t Frag.
Implicit Type σ : ref -> Element.t Priv.

(** The test that lets an element into [sorted_elements]. *)
Definition selected (pdf_doc only_verify : bool) (elem : Element.t Priv) : bool :=
  pdf_doc || negb (Element.spreadsheet_hide elem) || only_verify.

End Prepare.

End PrepareTerms.

Module PredecessorTerms.
Import ReportBand PrepareTerms.

Section Predecessors.
Context {Priv Frag : Type} `{!ElementOps Priv Frag}.
Implicit Type self : ReportBand.t Frag.
Implicit Type σ : ref -> Element.t Priv.

(** [q] is a candidate for [elem]: its bottom edge does not exceed the top
    edge of [elem]. *)
Definition fits σ (elem : Element.t Priv) (q : ref) : Prop :=
  Element.bottom (σ q) <= Element.y elem.

#[global] Instance fits_dec σ elem q : Decision (fits σ elem q).
Proof. unfold fits. apply _. Defined.

(** What the scan leaves in [predecessor] after the candidates [cands], in
    the order scanned: nothing if none fits; otherwise the first of those
    with the greatest bottom edge among the fitting ones. *)
Definition best σ (elem : Element.t Priv) (cands : list ref) (res : option ref) : Prop :=
  match res with
  | None => ∀ q, q ∈ cands -> ¬ fits σ elem q
  | Some p =>
      ∃ k, cands !! k = Some p ∧ fits σ elem p
           ∧ (∀ k' q, cands !! k' = Some q -> fits σ elem q ->
                      Element.bottom (σ q) <= Element.bottom (σ p))
           ∧ (∀ k' q, (k' < k)%nat -> cands !! k' = Some q -> fits σ elem q ->
                      Element.bottom (σ q) < Element.bottom (σ p))
  end.

(** The element above [r] with the greatest bottom edge not exceeding the
    top edge of [r]; of several with that bottom edge, the nearest one. *)
Definition tightest σ (l : list ref) (i : nat) (r p : ref) : Prop :=
  ∃ j, (j < i)%nat ∧ l !! j = Some p ∧ fits σ (σ r) p
       ∧ (∀ k q, (k < i)%nat -> l !! k = Some q -> fits σ (σ r) q ->
                 Element.bottom (σ q) <= Element.bottom (σ p))
       ∧ (∀ k q, (j < k < i)%nat -> l !! k = Some q -> fits σ (σ r) q ->
                 Element.bottom (σ q) < Element.bottom (σ p)).

(** Two stores that place and classify every element alike. *)
Definition same_place σ σ' : Prop :=
  ∀ q, Element.y (σ' q) = Element.y (σ q)
       ∧ Element.bottom (σ' q) = Element.bottom (σ q)
       ∧ Element.kind (σ' q) = Element.kind (σ q).

(** The link the round for index [i] leaves on the element at [i]. *)
Definition linked σ (l : list ref) (i : nat) (r : ref) : option ref :=
  match find_predecessor σ l i r with
  | Some p => if Element.is_page_break (σ p) then Element.predecessor (σ r) else Some p
  | None => Element.predecessor (σ r)
  end.

(** The store as the first loop of [prepare] leaves it. *)
Definition prepared_store ctx (pdf_doc only_verify : bool) self σ
  : ref -> Element.t Priv :=
  (foldl (prepare_element ctx pdf_doc only_verify self) (σ, []) (doc_elements self)).1.

(** The predecessor as the claim describes it: page-break markers are left
    out of the scan, the scan is otherwise the same. *)
Definition predecessor_skipping_page_breaks σ (l : list ref) (i : nat) (r : ref)
  : option ref :=
  foldl (scan σ (σ r)) None
    (reverse (filter (λ q, Element.is_page_break (σ q) = false) (take i l))).

End Predecessors.

(** A band with a text of height 10 at the top, a page break at 20 and a text
    at 30. *)
Definition broken_page : ref -> Element.t Z :=
  Sample.store_of
    [Sample.element 1 Element.OtherElement 0 10 false;
     Sample.page_break 2 20;
     Sample.element 3 Element.OtherElement 30 10 false].

End PredecessorTerms.

Module PassTerms.
Import ReportBand.

Section Pass.
Context {Priv Frag : Type} `{!ElementOps Priv Frag}.
Variables (container_height : Z) (ctx : Context).
Implicit Type self : ReportBand.t Frag.
Implicit Type σ : ref -> Element.t Priv.
Implicit Type s : Loop (Priv := Priv) (Frag := Frag).

(** The loop is at the element [r]: it has not asked for a new page, and
    [r] is [sorted_elements[i]]. *)
Definition at_cursor s (r : ref) : Prop :=
  ls_new_page s = false ∧ sorted_elements (ls_band s) !! ls_i s = Some r.

(** The loop states a pass goes through. *)
Inductive rounds : Loop -> Loop -> Prop :=
| rounds_here s : rounds s s
| rounds_next s r s' s'' :
    at_cursor s r -> body container_height ctx r s = Next s' ->
    rounds s' s'' -> rounds s s''.

(** Rounds still to go, at most. *)
Definition remaining s : nat :=
  (length (sorted_elements (ls_band s)) - ls_i s)%nat.

Definition enough (fuel : nat) s : Prop :=
  ls_new_page s = true ∨ (remaining s <= fuel)%nat.

Definition step_calls (st : Step (Priv := Priv) (Frag := Frag)) : list Call :=
  match st with
  | Next s => ls_calls s
  | Return p => pass_calls p
  end.

Definition step_band (st : Step (Priv := Priv) (Frag := Frag)) : ReportBand.t Frag :=
  match st with
  | Next s => ls_band s
  | Return p => pass_band p
  end.

Definition call_elem (c : Call) : ref :=
  match c with
  | CallNext r _ _ => r
  | CallFinishEmpty r _ => r
  end.


(** The predecessor of [elem] has completed in this pass. *)
Definition completed σ (completed_elements : gmap Z bool) (p : ref) : Prop :=
  is_Some (completed_elements !! Element.id (σ p))
  ∧ Element.rendering_complete (σ p) = true.

(** The loop has come to a page-break marker: the element at the cursor is
    one, and its predecessor, if it has one, has completed. *)
Definition marker_reached s (r : ref) : Prop :=
  predecessor_pending (ls_store s) (ls_completed_elements s) (ls_store s r) = false
  ∧ Element.is_page_break (ls_store s r) = true.


End Pass.

End PassTerms.

Module Scenes.
Import ReportBand.

Definition ctx0 : Context := mkContext 0 0.

(** A text of height 150 at the top and a text of height 10 below it, in a
    content band. *)
Definition tall_then_short : ref -> Element.t Z :=
  Sample.store_of
    [Sample.element 1 Element.OtherElement 0 150 false;
     Sample.element 2 Element.OtherElement 150 10 false].

Definition tall_band : ReportBand.t (Z * Z * Z) :=
  (prepare ctx0 true false (Sample.band_of BandType.content 2 100) tall_then_short).1.
Definition tall_store : ref -> Element.t Z :=
  (prepare ctx0 true false (Sample.band_of BandType.content 2 100) tall_then_short).2.

(** The loop state after the round at the tall text, on a page of height 100. *)
Definition after_tall : Loop :=
  match body 100 ctx0 0%nat (enter tall_band tall_store) with
  | Next s => s
  | Return _ => enter tall_band tall_store
  end.

(** A header band of height 40 with a text, a page break and a second text. *)
Definition broken_header : ref -> Element.t Z :=
  Sample.store_of
    [Sample.element 1 Element.OtherElement 0 10 false;
     Sample.page_break 2 20;
     Sample.element 3 Element.OtherElement 30 10 false].

Definition header_band : ReportBand.t (Z * Z * Z) :=
  (prepare ctx0 true false (Sample.band_of BandType.header 3 40) broken_header).1.
Definition header_store : ref -> Element.t Z :=
  (prepare ctx0 true false (Sample.band_of BandType.header 3 40) broken_header).2.

Definition after_text : Loop :=
  match body 40 ctx0 0%nat (enter header_band header_store) with
  | Next s => s
  | Return _ => enter header_band header_store
  end.

(** Document properties of an A4 page with margins of 20, a header of 40 that
    is switched off, and a footer of 30 shown on every page. *)
Definition footer_only : Geometry.DocumentProperties :=
  Geometry.mkDocumentProperties Geometry.self_id Geometry.a4 Geometry.portrait
    595 842 0 20 20 20 20 (Geometry.JStr "en") (Geometry.JStr "")
    false Geometry.never 0 true Geometry.always 30.

(** Three bands over one store: a text in the header (reference 0), two texts
    in the content band (1 and 2), a text in the footer (3). *)
Definition report_store : ref -> Element.t Z :=
  Sample.store_of
    [Sample.element 1 Element.OtherElement 0 10 false;
     Sample.element 2 Element.OtherElement 0 500 false;
     Sample.element 3 Element.OtherElement 500 500 false;
     Sample.element 4 Element.OtherElement 0 10 false].

Definition band_with (band : BandType.t) (elements : list ref) (height : Z)
  : ReportBand.t (Z * Z * Z) :=
  ReportBand.mk band 555 height elements
    (bool_decide (band = BandType.content)) 0 [] [] true 0.

(** Document properties that leave no height for the content: page height 40,
    margins of 20 at the top and at the bottom. *)
Definition no_room : Geometry.DocumentProperties :=
  Geometry.mkDocumentProperties Geometry.self_id Geometry.user_defined Geometry.portrait
    100 40 0 0 20 0 20 (Geometry.JStr "en") (Geometry.JStr "")
    false Geometry.never 0 false Geometry.never 0.

Definition pdf_report : DocumentPDFRenderer.t :=
  DocumentPDFRenderer.mk
    (band_with BandType.header [0%nat] 0)
    (band_with BandType.content [1; 2]%nat 772)
    (band_with BandType.footer [3%nat] 30)
    footer_only [] ctx0 false report_store [].

(** A report with nothing in its content band: the header switched off,
    the footer text shown on every page, and the context as the constructor
    of the report makes it. *)
Definition empty_report : Report.t (Priv := Z) (Frag := Z * Z * Z) :=
  Report.mk
    (Report.mkBands (band_with BandType.header [0%nat] 0)
       (band_with BandType.content [] 772)
       (band_with BandType.footer [3%nat] 30))
    footer_only ctx0 report_store.

Definition xlsx_report : DocumentXLSXRenderer.t :=
  DocumentXLSXRenderer.mk
    (band_with BandType.header [0%nat] 0)
    (band_with BandType.content [1; 2]%nat 772)
    (band_with BandType.footer [3%nat] 30)
    footer_only [] ctx0 0 report_store.

End Scenes.

Module OrderTerms.
Import ReportBand PrepareTerms.

Section Order.
Context {Priv Frag : Type} `{!ElementOps Priv Frag}.
Implicit Type σ : ref -> Element.t Priv.

(** The key [prepare] sorts by: [(y, sort_order)] for a PDF document,
    [(y, x)] for a spreadsheet. *)
Definition sort_key (pdf_doc : bool) σ (r : ref) : Z * Z :=
  (Element.y (σ r),
   if pdf_doc then Element.sort_order (σ r) else Element.x (σ r)).

(** The elements of [l] that [prepare] takes up, judged in the store [σ]. *)
Definition selection (pdf_doc only_verify : bool) σ (l : list ref) : list ref :=
  filter (λ r, selected pdf_doc only_verify (σ r) = true) l.

(** The stores agree on every element but for the two links. *)
Definition same_but_links σ σ' : Prop :=
  ∀ q, Element.with_successors [] (Element.with_predecessor None (σ' q))
       = Element.with_successors [] (Element.with_predecessor None (σ q)).

(** An element as [prepare] leaves a fixed band's elements. *)
Definition rendered_anew (e : Element.t Priv) : Prop :=
  Element.first_render_element e = true ∧ Element.rendering_complete e = false.

(** No element of the store has a link. *)
Definition without_links σ : Prop :=
  ∀ q, Element.predecessor (σ q) = None ∧ Element.successors (σ q) = [].

End Order.

End OrderTerms.

Module QueueTerms.
Import ReportBand PassTerms.

Section Queue.
Context {Priv Frag : Type} `{!ElementOps Priv Frag}.
Implicit Type s : Loop (Priv := Priv) (Frag := Frag).

(** The entry a pass closes the queue with: none when it reports the band
    done, the page break otherwise. *)
Definition closing (done : bool) : list (RenderElement Frag) :=
  if done then [] else [PageBreak].

(** The drawing of the fragment [f] at the place of a band. *)
Definition drawn (offset_x offset_y : Z) (f : Frag) : DrawOp (Frag := Frag) :=
  Draw f offset_x offset_y.

(** A queue that does not start with a fragment: it is empty, or starts
    with a page break. *)
Definition at_boundary (l : list (RenderElement Frag)) : Prop :=
  match l with
  | Fragment _ :: _ => False
  | _ => True
  end.

(** A request for a fragment stays within the page: it is made for the
    height of the page, at an offset above its lower edge. *)
Definition within_page (container_height : Z) (c : Call) : Prop :=
  match c with
  | CallNext _ offset_y height => height = container_height ∧ offset_y < container_height
  | CallFinishEmpty _ _ => True
  end.

(** The store [σ'] is the store [σ], except that elements may have lost
    their predecessor. *)
Definition unlinked (σ σ' : ref -> Element.t Priv) : Prop :=
  ∀ q, σ' q = σ q ∨ σ' q = Element.with_predecessor None (σ q).

(** The elements called so far are none of those from the cursor on. *)
Definition called_behind s : Prop :=
  NoDup (sorted_elements (ls_band s))
  ∧ NoDup (call_elem <$> ls_calls s)
  ∧ ∀ c, c ∈ ls_calls s ->
         call_elem c ∉ drop (ls_i s) (sorted_elements (ls_band s)).

End Queue.

End QueueTerms.

Module SheetTerms.
Import ReportBand.

Section Sheet.
Context {Priv Frag : Type} `{!ElementOps Priv Frag}.
Implicit Type σ : ref -> Element.t Priv.

(** The columns an element takes in its row. *)
Definition span σ (r : ref) : Z :=
  if Element.is_table (σ r) then get_column_count (σ r) else 1.

(** The elements of [l] written into the row [row], side by side from the
    column [col] on. *)
Fixpoint side_by_side σ (row col : Z) (l : list ref) : list CellWrite :=
  match l with
  | [] => []
  | r :: l' => mkCellWrite r row col :: side_by_side σ row (col + span σ r) l'
  end.

(** No two neighbours in [l] have the same [y]. *)
Fixpoint separate_lines σ (l : list ref) : Prop :=
  match l with
  | r1 :: l' =>
      match l' with
      | r2 :: _ => Element.y (σ r1) ≠ Element.y (σ r2)
      | [] => True
      end ∧ separate_lines σ l'
  | [] => True
  end.

End Sheet.

End SheetTerms.

Module PageTerms.
Import Geometry GeometryTerms.

#[global] Instance outside_bounds_dec unit v : Decision (outside_bounds unit v).
Proof. destruct unit; simpl; apply _. Defined.

(** Width and height, in points, of the named page formats. *)
Definition named_size (fmt : PageFormat) (o : Orientation) : option (Z * Z) :=
  let turn (s : Z * Z) := if decide (o = portrait) then s else (s.2, s.1) in
  match fmt with
  | a4 => Some (turn (595, 842))
  | a5 => Some (turn (420, 595))
  | letter => Some (turn (612, 792))
  | user_defined => None
  end.

(** [z] is an integer nearest to [q]. *)
Definition nearest (z : Z) (q : Q) : Prop :=
  (Qabs (inject_Z z - q) <= 1 # 2)%Q.

(** A length of [v] units in points, before rounding. *)
Definition in_points (unit : Unit) (v : Z) : Q :=
  match unit with
  | mm => (inject_Z (720 * v) / inject_Z 254)%Q
  | _ => inject_Z (72 * v)
  end.

(** The constructor leaves the report's errors as they were, or adds the
    record of an invalid page size at their end. *)
Definition at_most_page_error (errs errs' : list Error) : Prop :=
  errs' = errs ∨ errs' = errs ++ [invalid_page_size].

Definition is_string (v : JValue) : Prop := ∃ s, v = JStr s.

(** A string of ASCII characters only; on these [lower] is Python's
    [str.lower]. *)
Fixpoint is_ascii (s : string) : bool :=
  match s with
  | EmptyString => true
  | String (Ascii.Ascii _ _ _ _ _ _ _ b7) s' => negb b7 && is_ascii s'
  end.

(** The sizes in millimetres for which the conversion in doubles is shown to
    give the integer the exact conversion gives: from 1 up to [2 ^ 48 / 72],
    about [3.9 * 10 ^ 12]. *)
Definition double_exact (v : Z) : Prop := 0 < v ∧ 72 * v < 2 ^ 48.

End PageTerms.

Module PagesTerms.
Import ReportBand DocumentPDFRenderer.

Section Pages.
Context {Priv Frag : Type} `{!ElementOps Priv Frag}.
Implicit Type self : DocumentPDFRenderer.t (Priv := Priv) (Frag := Frag).

(** The fragments of a queue, in its order. *)
Fixpoint fragments (l : list (RenderElement Frag)) : list Frag :=
  match l with
  | [] => []
  | Fragment f :: l => f :: fragments l
  | PageBreak :: l => fragments l
  end.

(** The number of page breaks in a queue. *)
Fixpoint page_breaks (l : list (RenderElement Frag)) : nat :=
  match l with
  | [] => 0
  | Fragment _ :: l => page_breaks l
  | PageBreak :: l => S (page_breaks l)
  end.

(** The first phase of [render]: the content band prepared and its pages
    counted. *)
Definition counted self
  : Outcome (Z * ReportBand.t Frag * (ref -> Element.t Priv)) :=
  let '(content, σ) :=
    ReportBand.prepare (context self) true false (content_band self) (store self) in
  (sizing (Z.to_nat 10000) (document_properties self) (context self) 1 content σ 0).1.

(** Pages [self'] has more than [self]. *)
Definition pages_added self self' : Z :=
  Z.of_nat (length (pdf_doc self')) - Z.of_nat (length (pdf_doc self)).

End Pages.

End PagesTerms.

Module WorkbookTerms.
Import ReportBand DocumentXLSXRenderer.

Section Workbook.
Context {Priv Frag : Type} `{!ElementOps Priv Frag}.
Implicit Type self : DocumentXLSXRenderer.t (Priv := Priv) (Frag := Frag).

(** [r] is an element of one of the three bands. *)
Definition in_report self (r : ref) : Prop :=
  ∃ which, r ∈ doc_elements (get_band which self).

(** The cells lie between the rows [first] and [last]. *)
Definition within_rows (first last : Z) (writes : list CellWrite) : Prop :=
  Forall (λ w, first <= cw_row w <= last) writes.

End Workbook.

End WorkbookTerms.

Module FontTerms.
Import FPDFRB.

(** The four font styles. *)
Definition styles : list string := [""; "B"; "I"; "BI"].

(** The font file a style of the font stands for. *)
Definition file_of (font : FontFiles) (style : string) : option string :=
  style2filename font !! style.

(** The call adds the family [family]. *)
Definition adds (family : string) (c : FontCall) : bool :=
  match c with
  | AddFont f _ _ _ => bool_decide (f = family)
  | SetFont _ _ _ => false
  end.

(** How many times the family is added in [calls]. *)
Definition additions (family : string) (calls : list FontCall) : nat :=
  length (filter (λ c, adds family c = true) calls).

(** The family is selected somewhere in [calls]. *)
Definition selects (family : string) (calls : list FontCall) : Prop :=
  ∃ style size, SetFont family style size ∈ calls.

(** What the calls so far and the table of fonts have to do with the table
    [fonts] the document started with: the table has the same families, of
    the same kind; a family that is not in the table is neither added nor
    selected; a standard font is never added; an additional font is added
    once if it is marked as added and not at all otherwise, and it is not
    selected before it is added. *)
Definition fonts_in_step (fonts : gmap string Font) (self : t) : Prop :=
  ∀ family,
    match fonts !! family, available_fonts self !! family with
    | None, None =>
        additions family (calls self) = 0%nat ∧ ¬ selects family (calls self)
    | Some StandardFont, Some StandardFont =>
        additions family (calls self) = 0%nat
    | Some (AdditionalFontFiles _), Some (AdditionalFontFiles files) =>
        additions family (calls self) = (if added files then 1 else 0)%nat
        ∧ (selects family (calls self) -> added files = true)
    | _, _ => False
    end.

End FontTerms.

Module ReportTerms.
Import Report.

(** The parameters of [items] with the name [name], in order. *)
Definition named (name : string) (items : list ReportParameter) : list ReportParameter :=
  filter (λ p, parameter_name p = name) items.

(** The record of a duplicate: message, and the field [name]. *)
Definition duplicate_record (e : ObjectError) : Prop :=
  oe_msg_id e = "errorMsgDuplicateParameter" ∧ oe_field e = "name".

Section Elements.
Context {Priv Frag : Type} `{!ElementOps Priv Frag}.
Variables elem_width elem_height : Element.t Priv -> Z.

(** The element lies within the container. *)
Definition inside (container : ReportBand.t Frag) (elem : Element.t Priv) : Prop :=
  0 <= Element.x elem
  ∧ Element.x elem + elem_width elem <= ReportBand.width container
  ∧ 0 <= Element.y elem
  ∧ Element.y elem + elem_height elem <= ReportBand.height container.

(** The element an entry puts into the band [which], if it puts one
    there. *)
Definition placed (which : BandType.t) (doc_element : DocElementItem) : option ref :=
  match element doc_element with
  | inr (Some r) =>
      if decide (container_of (container_id doc_element) = Some which) then Some r
      else None
  | _ => None
  end.

(** None of the entries raises. *)
Definition constructed (doc_elements : list DocElementItem) : Prop :=
  Forall (λ doc_element, ∃ elem, element doc_element = inr elem) doc_elements.

(** The band ignoring its list of elements. *)
Definition frame (band : ReportBand.t Frag) : ReportBand.t Frag :=
  ReportBand.mk (ReportBand.band band) (ReportBand.width band) (ReportBand.height band)
    [] (ReportBand.allow_page_break band) (ReportBand.container_offset_y band)
    (ReportBand.sorted_elements band) (ReportBand.render_elements band)
    (ReportBand.explicit_page_break band) (ReportBand.page_y band).

End Elements.

End ReportTerms.

Module Cases.
Import Scenes.

(** A content band with a page of one fragment queued, and a fragment of the
    next page behind the page break. *)
Definition queued : ReportBand.t (Z * Z * Z) :=
  ReportBand.mk BandType.content 555 772 [] true 0 []
    [Fragment (1, 0, 10); PageBreak; Fragment (2, 0, 5)] true 0.

(** The bands of [report_store] as prepared for a spreadsheet: the header
    text and the first content text, both at the top; and the two content
    texts, one below the other. *)
Definition one_line : ReportBand.t (Z * Z * Z) :=
  ReportBand.mk BandType.content 555 772 [0; 1]%nat true 0 [0; 1]%nat [] true 0.

Definition two_lines : ReportBand.t (Z * Z * Z) :=
  ReportBand.mk BandType.content 555 772 [1; 2]%nat true 0 [1; 2]%nat [] true 0.

(** A header text as a page leaves it: rendered, and complete. *)
Definition worn_header : ref -> Element.t Z :=
  Sample.store_of
    [Element.mk 1 Element.OtherElement 0 0 10 1 false false true 10 None [] 0].

(** The description of a report on A4 paper, landscape, the page format
    written in capitals, with a footer. *)
Definition a4_landscape : gmap string Geometry.JValue :=
  list_to_map
    [("pageFormat", Geometry.JStr "A4"); ("orientation", Geometry.JStr "landscape");
     ("patternLocale", Geometry.JStr "de"); ("marginTop", Geometry.JInt 20);
     ("marginBottom", Geometry.JInt 20); ("footer", Geometry.JBool true);
     ("footerDisplay", Geometry.JStr "always"); ("footerSize", Geometry.JInt 30)].

(** Widths and heights for the elements of [report_store]: every element is
    100 wide and as high as its record says. *)
Definition width_100 (elem : Element.t Z) : Z := 100.
Definition height_of (elem : Element.t Z) : Z := Element.bottom elem - Element.y elem.

(** Entries of a report description: the tall text goes to the content band,
    the short text to the header, a text to a container that is none of the
    bands, and an entry that makes no element. *)
Definition entries : list Report.DocElementItem :=
  [Report.mkDocElementItem (Some "0_content") (inr (Some 2%nat));
   Report.mkDocElementItem (Some "0_header") (inr (Some 0%nat));
   Report.mkDocElementItem (Some "17") (inr (Some 1%nat));
   Report.mkDocElementItem (Some "0_footer") (inr None)].

(** A report whose content band holds a text followed by two page breaks. *)
Definition two_breaks : ref -> Element.t Z :=
  Sample.store_of
    [Sample.element 1 Element.OtherElement 0 10 false;
     Sample.page_break 2 20;
     Sample.page_break 3 30].

Definition broken_report : DocumentPDFRenderer.t :=
  DocumentPDFRenderer.mk
    (band_with BandType.header [] 0)
    (band_with BandType.content [0; 1; 2]%nat 772)
    (band_with BandType.footer [] 30)
    footer_only [] ctx0 false two_breaks [].

End Cases.

(** * Properties *)

Set Warnings "-clear-no-such-hyp".

Module GeometryFacts.
Import Geometry GeometryTerms.

Section Facts.
Variable get_int_value : gmap string JValue -> string -> Z.

Lemma bind_inr {A B} (m : M A) (k : A -> M B) errs a errs' :
  m errs = (inr a, errs') -> (m ≫= k) errs = k a errs'.
Proof. intros Hm. unfold mbind, M_bind. by rewrite Hm. Qed.

Lemma bind_inl {A B} (m : M A) (k : A -> M B) errs e errs' :
  m errs = (inl e, errs') -> (m ≫= k) errs = (inl e, errs').
Proof. intros Hm. unfold mbind, M_bind. by rewrite Hm. Qed.

Lemma lift_run {A} (r : Exn + A) errs : lift r errs = (r, errs).
Proof. done. Qed.

(** Run a lookup whose result the hypothesis [H] gives. *)
Ltac run_lift H :=
  rewrite H; erewrite bind_inr by apply lift_run; cbv beta.

(** Reading the settings of a band never touches the error list, and it
    raises nothing but a [KeyError]. *)
Lemma band_settings_run data flag display size errs :
  (∃ v, band_settings get_int_value data flag display size errs = (inr v, errs))
  ∨ (∃ k, band_settings get_int_value data flag display size errs = (inl (KeyError k), errs)).
Proof.
  unfold band_settings. destruct (truthy (get data flag)); [|left; eexists; reflexivity].
  unfold mbind, M_bind, lift, enum_of.
  destruct (get data display) as [| | |s]; try (right; (eexists; reflexivity)).
  unfold BandDisplay_lookup.
  repeat (match goal with |- context [String.eqb ?a ?b] =>
            destruct (String.eqb a b); [left; eexists; reflexivity|] end).
  right; eexists; reflexivity.
Qed.

Lemma check_page_size_run unit w h errs :
  ∃ errs', check_page_size unit w h errs = (inr (), errs')
           ∧ (errs' = errs ∨ errs' = errs ++ [invalid_page_size]).
Proof.
  unfold check_page_size.
  repeat case_match; eexists; (split; [reflexivity|]); auto.
Qed.

(** Width and height both outside the bounds: the [elif] on the height is
    not reached, and one record is appended. *)
Lemma check_page_size_both unit w h errs :
  outside_bounds unit w -> outside_bounds unit h ->
  check_page_size unit w h errs = (inr (), errs ++ [invalid_page_size]).
Proof.
  intros Hw Hh. unfold check_page_size.
  destruct unit; simpl in *; [done| |].
  - destruct (decide (mm = mm)); [|done].
    replace ((w <? 100) || (w >=? 100000)) with true; [done|].
    symmetry. apply orb_true_iff. destruct Hw; [left|right]; lia.
  - destruct (decide (inch = mm)); [done|]. destruct (decide (inch = inch)); [|done].
    replace ((w <? 1) || (w >=? 1000)) with true; [done|].
    symmetry. apply orb_true_iff. destruct Hw; [left|right]; lia.
Qed.

(** What the constructor does once the page size is known. *)
Lemma page_size_run data fmt o errs :
  (∃ v errs', page_size get_int_value data fmt o errs = (inr v, errs')
              ∧ (errs' = errs ∨ errs' = errs ++ [invalid_page_size]))
  ∨ (∃ k, page_size get_int_value data fmt o errs = (inl (KeyError k), errs)).
Proof.
  destruct fmt; unfold page_size;
    try (left; destruct (decide (o = portrait));
         eexists _, _; (split; [reflexivity|left; reflexivity])).
  unfold mbind at 1, M_bind at 1, lift, enum_of.
  destruct (get data "unit") as [| | |s]; try (right; (eexists; reflexivity)).
  destruct (Unit_lookup s) as [e|unit] eqn:Hu.
  - unfold Unit_lookup in Hu.
    repeat (match type of Hu with context [String.eqb ?a ?b] =>
              destruct (String.eqb a b); [discriminate|] end).
    simplify_eq. right; eexists; reflexivity.
  - left. destruct (check_page_size_run unit (get_int_value data "pageWidth")
                      (get_int_value data "pageHeight") errs) as (errs' & Hc & Herrs).
    erewrite bind_inr by exact Hc. (eexists _, _; split; [reflexivity|done]).
Qed.

(** Once the page size is known, the constructor appends nothing more, and
    an unsupported locale is where it stops. *)
Lemma init_after_page_size data errs name fmt o v errs1 :
  page_format_name data = inr name ->
  enum_of PageFormat_lookup name = inr fmt ->
  enum_of Orientation_lookup (get data "orientation") = inr o ->
  page_size get_int_value data fmt o errs = (inr v, errs1) ->
  (DocumentProperties_init get_int_value data errs).2 = errs1
  ∧ (get_default data "patternLocale" (JStr "") ∉ supported_locales ->
     (DocumentProperties_init get_int_value data errs).1
     = inl (RuntimeError "invalid pattern_locale")).
Proof.
  intros Hname Hfmt Ho Hsize. unfold DocumentProperties_init.
  run_lift Hname. run_lift Hfmt. run_lift Ho.
  erewrite bind_inr by exact Hsize.
  destruct v as [[w h] unit].
  destruct (decide (get_default data "patternLocale" (JStr "") ∉ supported_locales))
    as [Hbad|Hgood]; [done|].
  split; [|done].
  destruct (band_settings_run data "header" "headerDisplay" "headerSize" errs1)
    as [[[[hd hdisp] hsize] Hh]|[k Hh]];
    [erewrite bind_inr by exact Hh|by erewrite bind_inl by exact Hh].
  destruct (band_settings_run data "footer" "footerDisplay" "footerSize" errs1)
    as [[[[ft fdisp] fsize] Hf]|[k Hf]];
    [by erewrite bind_inr by exact Hf|by erewrite bind_inl by exact Hf].
Qed.

(** C10: a custom page format whose width and height are both outside the
    bounds of its unit adds exactly one invalid-page-size record to the
    report's errors: the constructor ends with the error list it started
    from followed by that single record. *)
Theorem custom_page_both_invalid_one_error data errs o unit :
  requested_format data = inr user_defined ->
  enum_of Orientation_lookup (get data "orientation") = inr o ->
  enum_of Unit_lookup (get data "unit") = inr unit ->
  outside_bounds unit (get_int_value data "pageWidth") ->
  outside_bounds unit (get_int_value data "pageHeight") ->
  (DocumentProperties_init get_int_value data errs).2 = errs ++ [invalid_page_size].
Proof.
  intros Hfmt Ho Hunit Hw Hh. unfold requested_format in Hfmt.
  destruct (page_format_name data) as [|name] eqn:Hname; [done|].
  eapply init_after_page_size; [done..|].
  unfold page_size. erewrite bind_inr by (rewrite Hunit; apply lift_run).
  erewrite bind_inr by (by apply check_page_size_both). reflexivity.
Qed.


End Facts.



(** The theorem at a page of 50 by 200000 millimetres. *)
Lemma custom_page_both_invalid_one_error_witness :
(DocumentProperties_init int_entry (custom_page 50 200000 "mm" "en") []).2
= [] ++ [invalid_page_size].
Proof.
apply (custom_page_both_invalid_one_error int_entry
         (custom_page 50 200000 "mm" "en") [] portrait mm).
- vm_compute; reflexivity.
- vm_compute; reflexivity.
- vm_compute; reflexivity.
- vm_compute; left; reflexivity.
- vm_compute; right; discriminate.
Defined.

End GeometryFacts.

Module PrepareFacts.
Import ReportBand PrepareTerms.

Section Sorting.
Context {A : Type} (key : A -> Z * Z).
Local Abbreviation in_key_order := (PrepareTerms.in_key_order key).

Lemma key_le_total k1 k2 : key_le k1 k2 = false -> key_le k2 k1 = true.
Proof.
  unfold key_le. destruct k1 as [a1 b1], k2 as [a2 b2]; simpl. intros H.
  apply orb_false_iff in H as [H1 H2].
  apply Z.ltb_ge in H1.
  destruct (Z.eqb_spec a1 a2) as [->|Hne].
  - simpl in H2. apply Z.leb_gt in H2.
    rewrite Z.eqb_refl. apply orb_true_iff. right. apply Z.leb_le. lia.
  - apply orb_true_iff. left. apply Z.ltb_lt. lia.
Qed.

Lemma key_le_trans k1 k2 k3 :
  key_le k1 k2 = true -> key_le k2 k3 = true -> key_le k1 k3 = true.
Proof.
  unfold key_le. destruct k1 as [a1 b1], k2 as [a2 b2], k3 as [a3 b3]; simpl.
  rewrite !orb_true_iff, !andb_true_iff, !Z.ltb_lt, !Z.eqb_eq, !Z.leb_le. lia.
Qed.

Lemma insert_sorted_perm a (l : list A) : insert_sorted key a l ≡ₚ a :: l.
Proof.
  induction l as [|b l IH]; simpl; [done|].
  destruct (key_le (key a) (key b)); [done|].
  rewrite IH. apply Permutation_swap.
Qed.

Lemma sorted_perm (l : list A) : sorted l key ≡ₚ l.
Proof.
  induction l as [|a l IH]; simpl; [done|].
  unfold sorted in *. simpl. by rewrite insert_sorted_perm, IH.
Qed.

Lemma insert_sorted_ordered a (l : list A) :
  StronglySorted in_key_order l -> StronglySorted in_key_order (insert_sorted key a l).
Proof.
  induction 1 as [|b l Hl IH Hb]; simpl; [repeat constructor|].
  destruct (key_le (key a) (key b)) eqn:Hab.
  - constructor; [by constructor|]. constructor; [done|].
    eapply Forall_impl; [exact Hb|]. intros c Hc. by eapply key_le_trans.
  - constructor; [done|]. rewrite insert_sorted_perm.
    constructor; [by apply key_le_total|done].
Qed.

(** The list [sorted] returns is in key order. *)
Lemma sorted_ordered (l : list A) : StronglySorted in_key_order (sorted l key).
Proof.
  induction l as [|a l IH]; [constructor|]. by apply insert_sorted_ordered.
Qed.

End Sorting.

Section Prepare.
Context {Priv Frag : Type} `{!ElementOps Priv Frag}.
Implicit Type self : ReportBand.t Frag.
Implicit Type σ : ref -> Element.t Priv.

Lemma selected_for_rows (elem : Element.t Priv) :
  selected false false elem = true ↔ Element.spreadsheet_hide elem = false.
Proof. unfold selected. by destruct (Element.spreadsheet_hide elem). Qed.

Lemma selected_for_verify pdf_doc (elem : Element.t Priv) :
  selected pdf_doc true elem = true.
Proof. unfold selected. by rewrite orb_true_r. Qed.

Lemma prepare_elements_elem ctx pdf_doc only_verify self l σ acc r :
  r ∈ (foldl (prepare_element ctx pdf_doc only_verify self) (σ, acc) l).2
  ↔ r ∈ acc ∨ (r ∈ l ∧ selected pdf_doc only_verify (σ r) = true).
Proof.
  revert σ acc. induction l as [|a l IH]; intros σ acc; cbn [foldl].
  { split; [by left|]. intros [?|[Hr _]]; [done|]. by apply elem_of_nil in Hr. }
  destruct (prepare_element ctx pdf_doc only_verify self (σ, acc) a)
    as [σ1 acc1] eqn:Hstep.
  rewrite IH. unfold prepare_element in Hstep.
  fold (selected pdf_doc only_verify (σ a)) in Hstep.
  destruct (selected pdf_doc only_verify (σ a)) eqn:Ha; simplify_eq.
  - rewrite elem_of_app, list_elem_of_singleton, elem_of_cons.
    destruct (decide (r = a)) as [->|Hne]; [naive_solver|].
    rewrite fn_lookup_insert_ne by done. naive_solver.
  - rewrite elem_of_cons. split; [naive_solver|].
    intros [?|[[->|?] Hr]]; [by left|congruence|by right].
Qed.

(** [sorted_elements] after [prepare]: the selected elements of the band. *)
Lemma prepare_sorted_elements ctx pdf_doc only_verify self σ r :
  r ∈ sorted_elements (prepare ctx pdf_doc only_verify self σ).1
  ↔ r ∈ doc_elements self ∧ selected pdf_doc only_verify (σ r) = true.
Proof.
  unfold prepare.
  pose proof (prepare_elements_elem ctx pdf_doc only_verify self
                (doc_elements self) σ [] r) as Hmem.
  destruct (foldl _ _ _) as [σ1 l1]. simpl in Hmem.
  destruct pdf_doc; simpl; rewrite sorted_perm, Hmem;
    (split; [intros [Hnil|?]; [by apply elem_of_nil in Hnil|done]|by right]).
Qed.

(** [prepare] for a PDF document starts from the elements of the band: what
    an earlier pass left in the two queues plays no part. *)
Lemma prepare_discards_queues ctx only_verify self σ l q :
  prepare ctx true only_verify (with_render_elements q (with_sorted_elements l self)) σ
  = prepare ctx true only_verify self σ.
Proof. by destruct self. Qed.

(** ** Row emission *)

Lemma rows_concat σ (l : list ref) : concat (rows σ l) = l.
Proof.
  induction l as [|r l IH]; simpl; [done|].
  destruct (rows σ l) as [|[|r2 row] rest]; simpl in IH; subst l;
    [done..|by destruct (_ =? _)].
Qed.

Lemma render_row_element_cells ctx σ current_row acc (l : list ref) c :
  c ∈ (foldl (render_row_element ctx σ current_row) acc l).2
  -> c ∈ acc.2 ∨ cw_elem c ∈ l.
Proof.
  revert acc. induction l as [|r l IH]; intros [[row col] ws]; simpl; [by left|].
  intros Hc. apply IH in Hc as [Hc|Hc]; [|right; by right].
  simpl in Hc. apply elem_of_app in Hc as [Hc|Hc]; [by left|].
  apply list_elem_of_singleton in Hc as ->. right; by left.
Qed.

Lemma render_rows_cells ctx σ acc (ll : list (list ref)) c :
  c ∈ (foldl (render_row ctx σ) acc ll).2 -> c ∈ acc.2 ∨ cw_elem c ∈ concat ll.
Proof.
  revert acc. induction ll as [|l ll IH]; intros [row ws]; simpl; [by left|].
  intros Hc. apply IH in Hc as [Hc|Hc]; [|right; apply elem_of_app; by right].
  unfold render_row in Hc.
  pose proof (render_row_element_cells ctx σ row (row, 0, ws) l c) as Hrow.
  destruct (foldl (render_row_element ctx σ row) (row, 0, ws) l) as [[row' col'] ws'].
  simpl in *. destruct (Hrow Hc) as [?|?]; [by left|right; apply elem_of_app; by left].
Qed.

(** Every cell a band writes comes from one of its sorted elements. *)
Lemma render_spreadsheet_cells row ctx self σ ws c :
  c ∈ (render_spreadsheet row ctx self σ ws).2 ->
  c ∈ ws ∨ cw_elem c ∈ sorted_elements self.
Proof.
  unfold render_spreadsheet. intros Hc.
  apply render_rows_cells in Hc. by rewrite rows_concat in Hc.
Qed.

(** C9: a band prepared for row output holds exactly the elements of the
    band whose spreadsheet-hide flag is not set, so a hidden element is not
    in the sorted list and no cell written by the band comes from it; a band
    prepared in verify-only mode holds every element of the band, hidden or
    not. *)
Theorem hidden_elements_skipped_for_rows ctx self σ :
  (∀ r, r ∈ sorted_elements (prepare ctx false false self σ).1
        ↔ r ∈ doc_elements self ∧ Element.spreadsheet_hide (σ r) = false)
  ∧ (∀ row ws c,
       let '(band, σ') := prepare ctx false false self σ in
       c ∈ (render_spreadsheet row ctx band σ' ws).2 ->
       c ∈ ws ∨ Element.spreadsheet_hide (σ (cw_elem c)) = false)
  ∧ (∀ pdf_doc r, r ∈ sorted_elements (prepare ctx pdf_doc true self σ).1
                  ↔ r ∈ doc_elements self).
Proof.
  split; [|split].
  - intros r. by rewrite prepare_sorted_elements, selected_for_rows.
  - intros row ws c.
    pose proof (prepare_sorted_elements ctx false false self σ (cw_elem c)) as Hmem.
    destruct (prepare ctx false false self σ) as [band σ']. simpl in Hmem.
    intros Hc. apply render_spreadsheet_cells in Hc as [?|Hc]; [by left|right].
    apply Hmem in Hc as [_ Hc]. by apply selected_for_rows.
  - intros pdf_doc r. rewrite prepare_sorted_elements, selected_for_verify.
    tauto.
Qed.

End Prepare.

End PrepareFacts.

Module PredecessorFacts.
Import ReportBand PrepareTerms PrepareFacts PredecessorTerms.

Section Predecessors.
Context {Priv Frag : Type} `{!ElementOps Priv Frag}.
Implicit Type self : ReportBand.t Frag.
Implicit Type σ : ref -> Element.t Priv.

Lemma scan_fits σ elem acc q :
  scan σ elem acc q =
    if decide (fits σ elem q) then
      match acc with
      | None => Some q
      | Some p => if decide (Element.bottom (σ p) < Element.bottom (σ q))
                  then Some q else acc
      end
    else acc.
Proof.
  unfold scan, fits. destruct (Z.leb_spec (Element.bottom (σ q)) (Element.y elem));
    simpl; destruct (decide _); try lia; [|done].
  destruct acc as [p|]; [|done].
  destruct (Z.gtb_spec (Element.bottom (σ q)) (Element.bottom (σ p)));
    destruct (decide _); done || lia.
Qed.

Lemma scan_best σ elem (cands : list ref) :
  best σ elem cands (foldl (scan σ elem) None cands).
Proof.
  induction cands as [|x cands IH] using rev_ind.
  { simpl. intros q Hq. by apply elem_of_nil in Hq. }
  rewrite foldl_app. simpl. rewrite scan_fits.
  destruct (foldl (scan σ elem) None cands) as [p|]; simpl in IH.
  - destruct IH as (k & Hk & Hp & Hmax & Hfirst).
    assert (k < length cands)%nat as Hlen by by eapply lookup_lt_Some.
    destruct (decide (fits σ elem x)) as [Hx|Hx].
    + destruct (decide (Element.bottom (σ p) < Element.bottom (σ x))) as [Hlt|Hge].
      * exists (length cands). split; [by rewrite lookup_app_r, Nat.sub_diag by lia|].
        split; [done|]. split.
        -- intros k' q Hq Hfit. apply lookup_app_Some in Hq as [Hq|[_ Hq]].
           ++ specialize (Hmax k' q Hq Hfit). lia.
           ++ apply list_lookup_singleton_Some in Hq as [_ ->]. lia.
        -- intros k' q Hk' Hq Hfit. rewrite lookup_app_l in Hq by done.
           specialize (Hmax k' q Hq Hfit). lia.
      * exists k. split; [by rewrite lookup_app_l|]. split; [done|]. split.
        -- intros k' q Hq Hfit. apply lookup_app_Some in Hq as [Hq|[_ Hq]].
           ++ by eapply Hmax.
           ++ apply list_lookup_singleton_Some in Hq as [_ ->]. lia.
        -- intros k' q Hk' Hq Hfit. rewrite lookup_app_l in Hq by lia.
           by eapply Hfirst.
    + exists k. split; [by rewrite lookup_app_l|]. split; [done|]. split.
      * intros k' q Hq Hfit. apply lookup_app_Some in Hq as [Hq|[_ Hq]].
        -- by eapply Hmax.
        -- apply list_lookup_singleton_Some in Hq as [_ ->]. done.
      * intros k' q Hk' Hq Hfit. rewrite lookup_app_l in Hq by lia.
        by eapply Hfirst.
  - destruct (decide (fits σ elem x)) as [Hx|Hx].
    + exists (length cands). split; [by rewrite lookup_app_r, Nat.sub_diag by lia|].
      split; [done|]. split.
      * intros k' q Hq Hfit. apply lookup_app_Some in Hq as [Hq|[_ Hq]].
        -- exfalso. eapply IH; [|exact Hfit]. by eapply list_elem_of_lookup_2.
        -- apply list_lookup_singleton_Some in Hq as [_ ->]. lia.
      * intros k' q Hk' Hq Hfit. rewrite lookup_app_l in Hq by done.
        exfalso. eapply IH; [|exact Hfit]. by eapply list_elem_of_lookup_2.
    + intros q Hq. apply elem_of_app in Hq as [Hq|Hq]; [by apply IH|].
      by apply list_elem_of_singleton in Hq as ->.
Qed.

Lemma lookup_reverse_take (l : list ref) i k :
  (i <= length l)%nat -> (k < i)%nat ->
  reverse (take i l) !! k = l !! (i - S k)%nat.
Proof.
  intros Hi Hk. rewrite reverse_lookup by (rewrite length_take; lia).
  rewrite length_take, Nat.min_l by done. apply lookup_take_lt. lia.
Qed.

Lemma find_predecessor_spec σ (l : list ref) i r :
  (i <= length l)%nat ->
  match find_predecessor σ l i r with
  | Some p => tightest σ l i r p
  | None => ∀ k q, (k < i)%nat -> l !! k = Some q -> ¬ fits σ (σ r) q
  end.
Proof.
  intros Hi. unfold find_predecessor.
  pose proof (scan_best σ (σ r) (reverse (take i l))) as Hbest.
  assert (length (reverse (take i l)) = i) as Hlen
    by (rewrite length_reverse, length_take; lia).
  destruct (foldl _ _ _) as [p|]; simpl in Hbest.
  - destruct Hbest as (k & Hk & Hp & Hmax & Hfirst).
    assert (k < i)%nat as Hki by (rewrite <- Hlen; by eapply lookup_lt_Some).
    exists (i - S k)%nat. split; [lia|].
    split; [by rewrite <- lookup_reverse_take|]. split; [done|]. split.
    + intros k' q Hk' Hq Hfit. apply (Hmax (i - S k')%nat q); [|done].
      rewrite lookup_reverse_take by lia. by replace (i - S (i - S k'))%nat with k' by lia.
    + intros k' q Hk' Hq Hfit. apply (Hfirst (i - S k')%nat q); [lia| |done].
      rewrite lookup_reverse_take by lia. by replace (i - S (i - S k'))%nat with k' by lia.
  - intros k q Hk Hq. apply Hbest. apply list_elem_of_lookup.
    exists (i - S k)%nat. rewrite lookup_reverse_take by lia.
    by replace (i - S (i - S k))%nat with k by lia.
Qed.

Lemma tightest_unique σ (l : list ref) i r p p' :
  tightest σ l i r p -> tightest σ l i r p' -> p = p'.
Proof.
  intros (j & Hj & Hp & Hfit & Hmax & Hnear) (j' & Hj' & Hp' & Hfit' & Hmax' & Hnear').
  destruct (Nat.lt_total j j') as [Hlt|[->|Hlt]]; [| congruence |].
  - specialize (Hnear j' p' (conj Hlt Hj') Hp' Hfit').
    specialize (Hmax' j p Hj Hp Hfit). lia.
  - specialize (Hnear' j p (conj Hlt Hj) Hp Hfit).
    specialize (Hmax j' p' Hj' Hp' Hfit'). lia.
Qed.

Lemma same_place_refl σ : same_place σ σ.
Proof. by intros q. Qed.

Lemma same_place_trans σ1 σ2 σ3 :
  same_place σ1 σ2 -> same_place σ2 σ3 -> same_place σ1 σ3.
Proof.
  intros H12 H23 q. destruct (H12 q) as (?&?&?), (H23 q) as (?&?&?).
  repeat split; congruence.
Qed.

Lemma set_predecessor_same_place σ r p : same_place σ (set_predecessor σ r p).
Proof.
  intros q. unfold set_predecessor.
  destruct (decide (p = q)) as [->|Hp];
    [rewrite fn_lookup_insert|rewrite fn_lookup_insert_ne by done];
    (destruct (decide (r = q)) as [->|Hr];
     [rewrite fn_lookup_insert|rewrite fn_lookup_insert_ne by done]); done.
Qed.

Lemma set_predecessor_here σ r p :
  Element.predecessor (set_predecessor σ r p r) = Some p.
Proof.
  unfold set_predecessor.
  destruct (decide (p = r)) as [->|Hp];
    [rewrite fn_lookup_insert|rewrite fn_lookup_insert_ne by done];
    by rewrite fn_lookup_insert.
Qed.

Lemma set_predecessor_other σ r p q :
  q ≠ r ->
  Element.predecessor (set_predecessor σ r p q) = Element.predecessor (σ q).
Proof.
  intros Hq. unfold set_predecessor.
  destruct (decide (p = q)) as [->|Hp];
    [rewrite fn_lookup_insert|rewrite fn_lookup_insert_ne by done];
    by rewrite fn_lookup_insert_ne.
Qed.

Lemma link_same_place (l : list ref) σ i : same_place σ (link l σ i).
Proof.
  unfold link. repeat case_match; try apply same_place_refl.
  apply set_predecessor_same_place.
Qed.

Lemma links_same_place (l : list ref) (ks : list nat) σ :
  same_place σ (foldl (link l) σ ks).
Proof.
  revert σ. induction ks as [|k ks IH]; intros σ; simpl; [apply same_place_refl|].
  eapply same_place_trans; [apply link_same_place|apply IH].
Qed.

Lemma scan_same_place σ σ' elem elem' acc q :
  same_place σ σ' -> Element.y elem' = Element.y elem ->
  scan σ' elem' acc q = scan σ elem acc q.
Proof.
  intros Hσ Hy. unfold scan. destruct (Hσ q) as (_ & -> & _). rewrite Hy.
  destruct acc as [p|]; [|done]. by destruct (Hσ p) as (_ & -> & _).
Qed.

Lemma find_predecessor_same_place σ σ' (l : list ref) i r :
  same_place σ σ' -> find_predecessor σ' l i r = find_predecessor σ l i r.
Proof.
  intros Hσ. unfold find_predecessor.
  generalize (reverse (take i l)) (@None ref).
  intros cands. induction cands as [|q cands IH]; intros acc; simpl; [done|].
  rewrite IH. f_equal. apply scan_same_place; [done|]. by destruct (Hσ r) as (-> & _).
Qed.

Lemma tightest_same_place σ σ' (l : list ref) i r p :
  same_place σ σ' -> tightest σ' l i r p -> tightest σ l i r p.
Proof.
  intros Hσ (j & Hj & Hp & Hfit & Hmax & Hnear). unfold fits in *.
  destruct (Hσ r) as (Hy & _). destruct (Hσ p) as (_ & Hb & _).
  exists j. unfold fits. split; [done|]. split; [done|].
  split; [by rewrite <- Hy, <- Hb|]. split.
  - intros k q Hk Hq Hq'. destruct (Hσ q) as (_ & Hbq & _).
    rewrite <- Hb, <- Hbq. apply (Hmax k q Hk Hq). by rewrite Hbq, Hy.
  - intros k q Hk Hq Hq'. destruct (Hσ q) as (_ & Hbq & _).
    rewrite <- Hb, <- Hbq. apply (Hnear k q Hk Hq). by rewrite Hbq, Hy.
Qed.

Lemma link_here (l : list ref) σ i r :
  l !! i = Some r -> Element.predecessor (link l σ i r) = linked σ l i r.
Proof.
  intros Hr. unfold link, linked. rewrite Hr.
  destruct (find_predecessor σ l i r) as [p|]; [|done].
  destruct (Element.is_page_break (σ p)); simpl; [done|].
  apply set_predecessor_here.
Qed.

Lemma link_other (l : list ref) σ k r :
  l !! k ≠ Some r -> Element.predecessor (link l σ k r) = Element.predecessor (σ r).
Proof.
  intros Hk. unfold link. destruct (l !! k) as [r'|]; [|done].
  destruct (find_predecessor σ l k r') as [p|]; [|done].
  destruct (Element.is_page_break (σ p)); simpl; [done|].
  apply set_predecessor_other. congruence.
Qed.

Lemma links_other (l : list ref) (ks : list nat) σ r :
  (∀ k, k ∈ ks -> l !! k ≠ Some r) ->
  Element.predecessor (foldl (link l) σ ks r) = Element.predecessor (σ r).
Proof.
  revert σ. induction ks as [|k ks IH]; intros σ Hks; simpl; [done|].
  rewrite IH by (intros k' Hk'; apply Hks; by right).
  apply link_other, Hks. by left.
Qed.

Lemma linked_same_place σ σ' (l : list ref) i r :
  same_place σ σ' ->
  Element.predecessor (σ' r) = Element.predecessor (σ r) ->
  linked σ' l i r = linked σ l i r.
Proof.
  intros Hσ Hpred. unfold linked.
  rewrite (find_predecessor_same_place σ σ') by done.
  destruct (find_predecessor σ l i r) as [p|]; [|done].
  unfold Element.is_page_break. destruct (Hσ p) as (_ & _ & ->). by rewrite Hpred.
Qed.

(** After all rounds, the link of the element at index [i] is the one its
    own round left. *)
Lemma links_at (l : list ref) σ i r :
  NoDup l -> l !! i = Some r ->
  Element.predecessor (foldl (link l) σ (seq 0 (length l)) r) = linked σ l i r.
Proof.
  intros Hnd Hr.
  assert (i < length l)%nat as Hi by by eapply lookup_lt_Some.
  assert (∀ k, k ≠ i -> l !! k ≠ Some r) as Hother.
  { intros k Hk Hk'. apply Hk. by eapply NoDup_lookup. }
  replace (length l) with (i + S (length l - S i))%nat by lia.
  rewrite seq_app, foldl_app. simpl.
  rewrite links_other by (intros k Hk; apply Hother; apply elem_of_seq in Hk; lia).
  rewrite link_here by done.
  apply linked_same_place; [apply links_same_place|].
  apply links_other. intros k Hk. apply Hother. apply elem_of_seq in Hk. lia.
Qed.

Lemma prepare_elements_pdf ctx only_verify self (l : list ref) σ acc :
  (foldl (prepare_element ctx true only_verify self) (σ, acc) l).2 = acc ++ l.
Proof.
  revert σ acc. induction l as [|a l IH]; intros σ acc; simpl.
  { by rewrite app_nil_r. }
  rewrite IH. by rewrite <- app_assoc.
Qed.

(** C1, as the code has it: in a band prepared for a PDF document, take the
    element above an element (earlier in [sorted_elements]) with the greatest
    bottom edge not exceeding the element's top edge, the nearest of several.
    If that element is not a page-break marker it is the element's
    predecessor.  If it is a page-break marker, the element gets no link: it
    keeps the predecessor it had when the scan began, as it does when no
    element above fits; no other element above is taken instead. *)
Theorem prepare_predecessor ctx only_verify self σ i r :
  NoDup (doc_elements self) ->
  sorted_elements (prepare ctx true only_verify self σ).1 !! i = Some r ->
  let σ1 := prepared_store ctx true only_verify self σ in
  let σ' := (prepare ctx true only_verify self σ).2 in
  let l := sorted_elements (prepare ctx true only_verify self σ).1 in
  (∀ p, tightest σ' l i r p -> Element.is_page_break (σ' p) = false ->
        Element.predecessor (σ' r) = Some p)
  ∧ (∀ p, tightest σ' l i r p -> Element.is_page_break (σ' p) = true ->
          Element.predecessor (σ' r) = Element.predecessor (σ1 r))
  ∧ ((∀ k q, (k < i)%nat -> l !! k = Some q -> ¬ fits σ' (σ' r) q) ->
     Element.predecessor (σ' r) = Element.predecessor (σ1 r)).
Proof.
  intros Hnd. unfold prepared_store, prepare.
  pose proof (prepare_elements_pdf ctx only_verify self (doc_elements self) σ [])
    as Hl1.
  destruct (foldl _ _ _) as [σ1 l1]. simpl in Hl1. subst l1. simpl.
  set (l := sorted (doc_elements self)
              (λ r, (Element.y (σ1 r), Element.sort_order (σ1 r)))).
  set (σ' := foldl (link l) σ1 (seq 0 (length l))).
  intros Hr.
  assert (NoDup l) as Hndl by (unfold l; by rewrite sorted_perm).
  assert (i <= length l)%nat as Hi by (apply Nat.lt_le_incl; by eapply lookup_lt_Some).
  assert (same_place σ1 σ') as Hσ by apply links_same_place.
  assert (Element.predecessor (σ' r) = linked σ1 l i r) as Hlink
    by by apply links_at.
  pose proof (find_predecessor_spec σ1 l i r Hi) as Hspec.
  unfold linked in Hlink.
  split; [|split].
  - intros p Hp Hkind. apply (tightest_same_place σ1 σ') in Hp; [|done].
    destruct (find_predecessor σ1 l i r) as [p'|].
    + rewrite (tightest_unique σ1 l i r p p' Hp Hspec).
      rewrite (tightest_unique σ1 l i r p p' Hp Hspec) in Hkind.
      unfold Element.is_page_break in *. destruct (Hσ p') as (_ & _ & Hk).
      rewrite Hk in Hkind. by rewrite Hkind in Hlink.
    + destruct Hp as (j & Hj & Hjp & Hfit & _). by destruct (Hspec j p Hj Hjp).
  - intros p Hp Hkind. apply (tightest_same_place σ1 σ') in Hp; [|done].
    destruct (find_predecessor σ1 l i r) as [p'|]; [|done].
    rewrite (tightest_unique σ1 l i r p p' Hp Hspec) in Hkind.
    unfold Element.is_page_break in *. destruct (Hσ p') as (_ & _ & Hk).
    rewrite Hk in Hkind. by rewrite Hkind in Hlink.
  - intros Hnone. destruct (find_predecessor σ1 l i r) as [p'|]; [|done].
    destruct Hspec as (j & Hj & Hjp & Hfit & _).
    exfalso. apply (Hnone j p' Hj Hjp). unfold fits in *.
    destruct (Hσ r) as (-> & _). by destruct (Hσ p') as (_ & -> & _).
Qed.

End Predecessors.

(** C1, as the claim has it, fails: the text below the page break has the
    text at the top as the nearest element above it that is not a page break,
    yet [prepare] leaves it without a predecessor. *)
Lemma page_break_above_leaves_no_predecessor :
  let '(band, σ') :=
    prepare (mkContext 0 0) true false (Sample.band_of BandType.content 3 100)
      broken_page in
  sorted_elements band = [0; 1; 2]%nat
  ∧ predecessor_skipping_page_breaks σ' (sorted_elements band) 2 2 = Some 0%nat
  ∧ Element.predecessor (σ' 2%nat) = None.
Proof. vm_compute. done. Qed.

(** The theorem at the page break of [broken_page]: the text at the top is
    the element above it and becomes its predecessor. *)
Lemma prepare_predecessor_witness :
  let ctx := mkContext 0 0 in
  let self := Sample.band_of BandType.content 3 100 in
  NoDup (doc_elements self)
  ∧ sorted_elements (prepare ctx true false self broken_page).1 !! 1%nat = Some 1%nat
  ∧ Element.predecessor ((prepare ctx true false self broken_page).2 1%nat) = Some 0%nat.
Proof.
  intros ctx self.
  assert (NoDup (doc_elements self)) as Hnd.
  { exact (NoDup_seq 0 3). }
  assert (sorted_elements (prepare ctx true false self broken_page).1 !! 1%nat
          = Some 1%nat) as Hr by (vm_compute; reflexivity).
  split; [done|]. split; [done|].
  refine (proj1 (prepare_predecessor ctx false self broken_page 1 1%nat Hnd Hr)
            0%nat _ _); [|vm_compute; reflexivity].
  exists 0%nat. split; [lia|]. split; [vm_compute; reflexivity|].
  split; [vm_compute; discriminate|]. split.
  - intros k q Hk Hq _. assert (k = 0%nat) as -> by lia.
    vm_compute in Hq. injection Hq as <-. vm_compute. discriminate.
  - intros k q Hk. lia.
Defined.

End PredecessorFacts.

Module PassFacts.
Import ReportBand PassTerms.

Section Pass.
Context {Priv Frag : Type} `{!ElementOps Priv Frag}.
Variables (container_height : Z) (ctx : Context).
Implicit Type self : ReportBand.t Frag.
Implicit Type σ : ref -> Element.t Priv.
Implicit Type s : Loop (Priv := Priv) (Frag := Frag).
Local Abbreviation rounds := (PassTerms.rounds container_height ctx).

Lemma rounds_trans s1 s2 s3 : rounds s1 s2 -> rounds s2 s3 -> rounds s1 s3.
Proof. induction 1; [done|]. intros. eapply rounds_next; eauto. Qed.

Lemma rounds_snoc s1 s2 r s3 :
  rounds s1 s2 -> at_cursor s2 r -> body container_height ctx r s2 = Next s3 ->
  rounds s1 s3.
Proof.
  intros H12 Hr Hb. eapply rounds_trans; [exact H12|].
  eapply rounds_next; [exact Hr|exact Hb|apply rounds_here].
Qed.

(** Unfolds [body] and splits along its tests. *)
Ltac body_cases :=
  unfold body;
  repeat match goal with
    | |- context [if ?b then _ else _] => destruct b eqn:?
    | |- context [let '(_, _) := ?p in _] => destruct p as [[? ?] ?] eqn:?
    | |- context [match ?o with Some _ => _ | None => _ end] => destruct o eqn:?
    end.

Lemma length_delete_lt (l : list ref) i r :
  l !! i = Some r -> (length (delete i l) - i < length l - i)%nat.
Proof.
  intros Hr. assert (i < length l)%nat by by eapply lookup_lt_Some.
  rewrite length_delete by eauto. lia.
Qed.

Lemma body_enough s r s' fuel :
  at_cursor s r -> body container_height ctx r s = Next s' ->
  (remaining s <= S fuel)%nat -> enough fuel s'.
Proof.
  intros [Hnp Hr] Hb Hfuel. unfold enough, remaining in *.
  assert (ls_i s < length (sorted_elements (ls_band s)))%nat
    by by eapply lookup_lt_Some.
  pose proof (length_delete_lt _ _ _ Hr).
  revert Hb. body_cases; intros Hb; simplify_eq; simpl; auto; right; simpl; lia.
Qed.

Lemma loop_new_page fuel s :
  ls_new_page s = true -> loop fuel container_height ctx s = Some (finish s).
Proof. intros Hnp. destruct fuel; simpl; by rewrite Hnp. Qed.

(** The pass returns: the bound on the rounds is never exhausted. *)
Lemma loop_total fuel s : enough fuel s -> is_Some (loop fuel container_height ctx s).
Proof.
  revert s. induction fuel as [|fuel IH]; intros s [Hnp|Hfuel];
    try (rewrite loop_new_page by done; by eexists).
  - simpl. destruct (ls_new_page s); [by eexists|].
    destruct (sorted_elements (ls_band s) !! ls_i s) as [r|] eqn:Hr; [|by eexists].
    apply lookup_lt_Some in Hr. unfold remaining in Hfuel. lia.
  - simpl. destruct (ls_new_page s) eqn:Hnp; [by eexists|].
    destruct (sorted_elements (ls_band s) !! ls_i s) as [r|] eqn:Hr; [|by eexists].
    destruct (body container_height ctx r s) as [s'|p] eqn:Hb; [|by eexists].
    apply IH. by eapply body_enough.
Qed.

Lemma loop_fuel fuel fuel' s :
  enough fuel s -> enough fuel' s ->
  loop fuel container_height ctx s = loop fuel' container_height ctx s.
Proof.
  revert fuel' s. induction fuel as [|fuel IH]; intros fuel' s Hf Hf'.
  - destruct Hf as [Hnp|Hf]; [by rewrite !loop_new_page|].
    destruct fuel'; simpl; [done|].
    destruct (ls_new_page s); [done|].
    destruct (sorted_elements (ls_band s) !! ls_i s) as [r|] eqn:Hr; [|done].
    apply lookup_lt_Some in Hr. unfold remaining in Hf. lia.
  - destruct Hf as [Hnp|Hf]; [by rewrite !loop_new_page|].
    destruct Hf' as [Hnp|Hf']; [by rewrite !loop_new_page|].
    destruct fuel' as [|fuel']; simpl.
    + destruct (ls_new_page s); [done|].
      destruct (sorted_elements (ls_band s) !! ls_i s) as [r|] eqn:Hr; [|done].
      apply lookup_lt_Some in Hr. unfold remaining in Hf'. lia.
    + destruct (ls_new_page s) eqn:Hnp; [done|].
      destruct (sorted_elements (ls_band s) !! ls_i s) as [r|] eqn:Hr; [|done].
      destruct (body container_height ctx r s) as [s'|p] eqn:Hb; [|done].
      apply IH; by eapply body_enough.
Qed.

(** From any state a pass goes through, the loop ends as from the start. *)
Lemma loop_rounds fuel s s' :
  rounds s s' -> enough fuel s ->
  loop fuel container_height ctx s = loop (remaining s') container_height ctx s'.
Proof.
  intros Hrounds. revert fuel. induction Hrounds as [s|s r s' s'' Hr Hb _ IH];
    intros fuel Hf.
  - apply loop_fuel; [done|]. right. done.
  - destruct Hr as [Hnp Hr]. destruct Hf as [Hf|Hf]; [congruence|].
    destruct fuel as [|fuel].
    { apply lookup_lt_Some in Hr. unfold remaining in Hf. lia. }
    simpl. rewrite Hnp, Hr, Hb. apply IH. by eapply body_enough.
Qed.

Lemma create_render_elements_rounds self σ s :
  rounds (enter self σ) s ->
  create_render_elements container_height ctx self σ
  = loop (remaining s) container_height ctx s.
Proof.
  intros Hrounds. unfold create_render_elements.
  apply loop_rounds; [done|]. right. unfold remaining. simpl. lia.
Qed.

Lemma create_render_elements_total self σ :
  is_Some (create_render_elements container_height ctx self σ).
Proof. apply loop_total. right. unfold remaining. simpl. lia. Qed.

Lemma predecessor_pending_false σ completed_elements (elem : Element.t Priv) :
  predecessor_pending σ completed_elements elem = false
  ↔ Element.predecessor elem = None
    ∨ ∃ p, Element.predecessor elem = Some p ∧ completed σ completed_elements p.
Proof.
  unfold predecessor_pending, completed.
  destruct (Element.predecessor elem) as [p|]; [|by split; [left|]].
  split.
  - intros [Hin Hc]%orb_false_iff. right. exists p. split; [done|]. split.
    + apply not_eq_None_Some. by apply bool_decide_eq_false in Hin.
    + by apply negb_false_iff.
  - intros [?|(p' & [= <-] & Hin & Hc)]; [done|]. apply orb_false_iff. split.
    + apply bool_decide_eq_false. by apply not_eq_None_Some.
    + by rewrite Hc.
Qed.



Lemma finish_calls s : pass_calls (finish s) = ls_calls s.
Proof. unfold finish. by destruct (_ <? _)%nat. Qed.



(** ** The band along a pass *)

Lemma body_band s r s' :
  body container_height ctx r s = Next s' ->
  allow_page_break (ls_band s') = allow_page_break (ls_band s)
  ∧ (render_elements (ls_band s') = render_elements (ls_band s)
     ∨ ∃ f, render_elements (ls_band s')
            = render_elements (ls_band s) ++ [Fragment f]).
Proof.
  body_cases; intros Hb; simplify_eq; simpl; split; eauto.
Qed.

Lemma rounds_band s s' :
  rounds s s' ->
  allow_page_break (ls_band s') = allow_page_break (ls_band s)
  ∧ ∃ fs, render_elements (ls_band s')
          = render_elements (ls_band s) ++ (Fragment <$> fs).
Proof.
  induction 1 as [s|s r s' s'' _ Hb _ [IHa [fs IHr]]].
  - split; [done|]. exists []. by rewrite app_nil_r.
  - destruct (body_band _ _ _ Hb) as [Ha [Hr|[f Hr]]];
      (split; [congruence|]); rewrite IHr, Hr.
    + by exists fs.
    + exists (f :: fs). by rewrite <- app_assoc.
Qed.

Lemma render_pdf_loop_fragments offset_x offset_y cleanup (fs : list Frag)
    counter page released :
  (render_pdf_loop offset_x offset_y cleanup (Fragment <$> fs) counter page released).1.1
  = (counter + length fs)%nat.
Proof.
  revert counter page released. induction fs as [|f fs IH]; intros; simpl; [lia|].
  rewrite IH. lia.
Qed.

(** A queue of fragments with no page-break entry is drained in one go. *)
Lemma render_pdf_fragments offset_x offset_y cleanup self (fs : list Frag)
    page released :
  render_elements self = Fragment <$> fs ->
  is_finished (render_pdf offset_x offset_y cleanup self page released).1.1 = true.
Proof.
  intros Hfs. unfold render_pdf.
  pose proof (render_pdf_loop_fragments offset_x offset_y cleanup fs 0 page released)
    as Hcount. rewrite <- Hfs in Hcount.
  destruct (render_pdf_loop _ _ _ _ _ _ _) as [[counter page'] released'].
  simpl in *. subst counter. unfold is_finished. simpl.
  apply bool_decide_eq_true. rewrite length_drop, Hfs, length_fmap. lia.
Qed.

(** C6: when a pass over a band that allows no page break comes to a
    page-break marker (whose predecessor, if any, has completed), the pass
    returns [true] and leaves the band without any sorted element; it makes
    no further call and queues no page-break entry, so that everything the
    band queued, starting from the empty queue [prepare] leaves, is drawn by
    one [render_pdf] and the band is finished after it: the band does not
    run over to a second page, whatever its height. *)
Theorem page_break_in_fixed_band self σ s r :
  allow_page_break self = false ->
  rounds (enter self σ) s -> at_cursor s r -> marker_reached s r ->
  ∃ p, create_render_elements container_height ctx self σ = Some p
    ∧ pass_result p = true
    ∧ sorted_elements (pass_band p) = []
    ∧ pass_calls p = ls_calls s
    ∧ (∃ fs, render_elements (pass_band p) = render_elements self ++ (Fragment <$> fs))
    ∧ (render_elements self = [] ->
       ∀ offset_x offset_y cleanup page released,
         is_finished (render_pdf offset_x offset_y cleanup (pass_band p)
                        page released).1.1 = true).
Proof.
  intros Hallow Hrounds [Hnp Hr] [Hpend Hpb].
  destruct (rounds_band _ _ Hrounds) as [Ha [fs Hfs]]. simpl in Ha, Hfs.
  assert (0 < remaining s)%nat as Hpos.
  { apply lookup_lt_Some in Hr. unfold remaining. lia. }
  eexists. split.
  { rewrite (create_render_elements_rounds self σ s Hrounds).
    destruct (remaining s) as [|n]; [lia|]. simpl.
    rewrite Hnp, Hr. unfold body. rewrite Hpend, Hpb, Ha, Hallow. reflexivity. }
  simpl. split; [done|]. split; [done|]. split; [done|].
  split; [by exists fs|].
  intros Hempty offset_x offset_y cleanup page released.
  apply (render_pdf_fragments _ _ _ _ fs). simpl. by rewrite Hfs, Hempty.
Qed.

(** ** The explicit-page-break flag *)

Lemma body_marker s r s' :
  body container_height ctx r s = Next s' ->
  ls_set_explicit_page_break s = false ->
  ls_set_explicit_page_break s' = true ->
  marker_reached s r
  ∧ ls_new_page s' = true
  ∧ page_y (ls_band s') = Element.y (ls_store s r).
Proof.
  unfold marker_reached. body_cases; intros Hb; simplify_eq; simpl; try congruence.
  done.
Qed.

Lemma body_at_marker s r :
  marker_reached s r -> allow_page_break (ls_band s) = true ->
  ∃ s', body container_height ctx r s = Next s'
        ∧ ls_new_page s' = true
        ∧ ls_set_explicit_page_break s' = true
        ∧ allow_page_break (ls_band s') = true.
Proof.
  intros [Hpend Hpb] Hallow. unfold body. rewrite Hpend, Hpb, Hallow.
  eexists. split; [done|]. done.
Qed.

Lemma rounds_new_page s s' : rounds s s' -> ls_new_page s = true -> s' = s.
Proof. destruct 1 as [|s r s' s'' [Hnp _]]; [done|congruence]. Qed.

Lemma rounds_marker s s' :
  rounds s s' ->
  ls_set_explicit_page_break s = false ->
  ls_set_explicit_page_break s' = true ->
  ∃ s0 r, rounds s s0 ∧ at_cursor s0 r ∧ marker_reached s0 r
          ∧ page_y (ls_band s') = Element.y (ls_store s0 r).
Proof.
  induction 1 as [s|s r s' s'' Hr Hb Hrounds IH]; intros Hoff Hon; [congruence|].
  destruct (ls_set_explicit_page_break s') eqn:Hflag.
  - destruct (body_marker _ _ _ Hb Hoff Hflag) as (Hmarker & Hnp & Hy).
    rewrite (rounds_new_page _ _ Hrounds Hnp).
    exists s, r. split; [apply rounds_here|done].
  - destruct (IH eq_refl Hon) as (s0 & r0 & Hrounds0 & Hrest).
    exists s0, r0. split; [|done]. by eapply rounds_next.
Qed.

(** Where a pass ends: at the state the loop leaves by, or in the round
    that returns from within the loop. *)
Lemma loop_end fuel s p :
  loop fuel container_height ctx s = Some p ->
  (∃ s', rounds s s' ∧ p = finish s')
  ∨ (∃ s' r, rounds s s' ∧ at_cursor s' r
             ∧ body container_height ctx r s' = Return p).
Proof.
  revert s. induction fuel as [|fuel IH]; intros s; simpl.
  - destruct (ls_new_page s);
      [|destruct (sorted_elements (ls_band s) !! ls_i s); [done|]];
      intros [= <-]; left; exists s; (split; [apply rounds_here|done]).
  - destruct (ls_new_page s) eqn:Hnp.
    { intros [= <-]; left; exists s; (split; [apply rounds_here|done]). }
    destruct (sorted_elements (ls_band s) !! ls_i s) as [r|] eqn:Hr.
    2:{ intros [= <-]; left; exists s; (split; [apply rounds_here|done]). }
    destruct (body container_height ctx r s) as [s1|p1] eqn:Hb.
    + intros Hloop.
      destruct (IH s1 Hloop) as [(s' & Hrounds & ->)|(s' & r' & Hrounds & Hrest)].
      * left. exists s'. split; [|done]. by eapply rounds_next.
      * right. exists s', r'. split; [|done]. by eapply rounds_next.
    + intros [= <-]. right. exists s, r. split; [apply rounds_here|done].
Qed.

Lemma body_return s r p :
  body container_height ctx r s = Return p -> allow_page_break (ls_band s) = false.
Proof. body_cases; intros Hb; simplify_eq; done. Qed.

(** On a band that allows page breaks, the explicit-page-break flag a pass
    leaves is set exactly when the pass ended at a page-break marker, and
    the baseline is then the top of that marker. *)
Lemma explicit_page_break_after_pass self σ p :
  allow_page_break self = true ->
  create_render_elements container_height ctx self σ = Some p ->
  (explicit_page_break (pass_band p) = true
   ↔ ∃ s r, rounds (enter self σ) s ∧ at_cursor s r ∧ marker_reached s r)
  ∧ (explicit_page_break (pass_band p) = true ->
     ∃ s r, rounds (enter self σ) s ∧ at_cursor s r ∧ marker_reached s r
            ∧ page_y (pass_band p) = Element.y (ls_store s r)).
Proof.
  intros Hallow Hp.
  assert (explicit_page_break (pass_band p) = true ->
          ∃ s r, rounds (enter self σ) s ∧ at_cursor s r ∧ marker_reached s r
                 ∧ page_y (pass_band p) = Element.y (ls_store s r)) as Hforth.
  { destruct (loop_end _ _ _ Hp) as [(s' & Hrounds & ->)|(s' & r & Hrounds & _ & Hret)].
    - destruct (rounds_band _ _ Hrounds) as [Ha _]. simpl in Ha.
      unfold finish. rewrite Ha, Hallow.
      destruct (_ <? _)%nat; simpl; intros Hflag;
        destruct (rounds_marker _ _ Hrounds eq_refl Hflag) as (s0 & r0 & ? & ? & ? & ?);
        by exists s0, r0.
    - apply body_return in Hret. destruct (rounds_band _ _ Hrounds) as [Ha _].
      simpl in Ha. congruence. }
  split; [|done]. split.
  - intros Hflag. destruct (Hforth Hflag) as (s & r & ? & ? & ? & _). by exists s, r.
  - intros (s & r & Hrounds & [Hnp Hr] & Hmarker).
    destruct (rounds_band _ _ Hrounds) as [Ha _]. simpl in Ha.
    destruct (body_at_marker s r Hmarker) as (s' & Hb & Hnp' & Hflag & Ha');
      [congruence|].
    rewrite (create_render_elements_rounds self σ s' (rounds_snoc _ _ _ _ Hrounds
               (conj Hnp Hr) Hb)) in Hp.
    rewrite loop_new_page in Hp by done. injection Hp as <-.
    unfold finish. rewrite Ha'. by destruct (_ <? _)%nat.
Qed.

(** ** Pending predecessors *)

Lemma body_pending s r :
  predecessor_pending (ls_store s) (ls_completed_elements s) (ls_store s r) = true ->
  body container_height ctx r s
  = Next (mkLoop (ls_i s) true (ls_processed_elements s) (ls_completed_elements s)
            (ls_set_explicit_page_break s) (ls_band s) (ls_store s) (ls_calls s)).
Proof. intros Hpend. unfold body. by rewrite Hpend. Qed.

(** C7, as the code has it: in every round of a pass, the round adds a
    fragment to the band's queue only if the element at the cursor has no
    predecessor or its predecessor has completed; and when the predecessor
    of the element at the cursor has not completed, the pass ends there: it
    returns [false], makes no call on the element, closes the page with a
    page-break entry and leaves [sorted_elements] as it stands, the element
    at its index, behind the elements before it that are still pending. *)
Theorem pending_predecessor_ends_page self σ s r :
  rounds (enter self σ) s -> at_cursor s r ->
  (render_elements (step_band (body container_height ctx r s))
   ≠ render_elements (ls_band s) ->
   Element.predecessor (ls_store s r) = None
   ∨ ∃ p, Element.predecessor (ls_store s r) = Some p
          ∧ completed (ls_store s) (ls_completed_elements s) p)
  ∧ (predecessor_pending (ls_store s) (ls_completed_elements s) (ls_store s r) = true ->
     ∃ p, create_render_elements container_height ctx self σ = Some p
       ∧ pass_result p = false
       ∧ sorted_elements (pass_band p) = sorted_elements (ls_band s)
       ∧ sorted_elements (pass_band p) !! ls_i s = Some r
       ∧ render_elements (pass_band p) = render_elements (ls_band s) ++ [PageBreak]
       ∧ pass_calls p = ls_calls s).
Proof.
  intros Hrounds [Hnp Hr]. split.
  - intros Hchanged. apply predecessor_pending_false.
    destruct (predecessor_pending _ _ _) eqn:Hpend; [|done].
    rewrite body_pending in Hchanged by done. done.
  - intros Hpend.
    pose proof (lookup_lt_Some _ _ _ Hr) as Hlen.
    eexists. split.
    { rewrite (create_render_elements_rounds self σ s Hrounds).
      unfold remaining.
      destruct (_ - _)%nat as [|n] eqn:Hn; [lia|]. simpl.
      rewrite Hnp, Hr, body_pending by done. by rewrite loop_new_page. }
    unfold finish. simpl.
    assert ((0 <? length (sorted_elements (ls_band s)))%nat = true) as ->
      by (apply Nat.ltb_lt; lia).
    simpl. split; [|done].
    apply bool_decide_eq_false. lia.
Qed.

End Pass.

End PassFacts.

Module PDFFacts.
Import DocumentPDFRenderer PassTerms PassFacts.

Section Renderer.
Context {Priv Frag : Type} `{!ElementOps Priv Frag}.
Implicit Type self : DocumentPDFRenderer.t (Priv := Priv) (Frag := Frag).

(** ** The sizing loop *)

Lemma sizing_bounded fuel dp ctx page_count band σ calls :
  1 <= page_count < 10000 -> 10000 - page_count <= Z.of_nat fuel ->
  (∃ page_count' band' σ',
      sizing fuel dp ctx page_count band σ calls
      = (Done (page_count', band', σ'),
         Z.to_nat (Z.of_nat calls + (page_count' - page_count + 1)))
      ∧ page_count <= page_count' < 10000)
  ∨ sizing fuel dp ctx page_count band σ calls
    = (Raised too_many_pages, Z.to_nat (Z.of_nat calls + (10000 - page_count))).
Proof.
  revert page_count band σ calls.
  induction fuel as [|fuel IH]; intros page_count band σ calls Hpc Hfuel; [lia|].
  cbn [sizing].
  destruct (create_render_elements_total (content_height dp page_count) ctx band σ)
    as [p ->].
  destruct (ReportBand.pass_result p).
  - left. exists page_count, (ReportBand.pass_band p), (ReportBand.pass_store p).
    split; [|lia]. do 2 f_equal. lia.
  - destruct (Z.geb_spec (page_count + 1) 10000) as [Hcap|Hcap].
    + right. do 2 f_equal. lia.
    + destruct (IH (page_count + 1) (ReportBand.pass_band p)
                  (ReportBand.pass_store p) (S calls)) as [Hdone|Hraised]; [lia..| |].
      * destruct Hdone as (page_count' & band' & σ' & -> & Hpc').
        left. exists page_count', band', σ'. split; [|lia]. do 2 f_equal. lia.
      * right. rewrite Hraised. do 2 f_equal. lia.
Qed.

(** C5: the sizing loop of [render], started as [render] starts it, comes
    to an end after fewer than 10000 calls of [create_render_elements], each
    of which returns: either a call reports the band done, after as many
    calls as the page count it returns, or the 9999th call does not, and
    the loop raises the error of the page cap. *)
Theorem sizing_terminates dp ctx band σ :
  let '(outcome, calls) := sizing (Z.to_nat 10000) dp ctx 1 band σ 0 in
  Z.of_nat calls < 10000
  ∧ ((∃ page_count band' σ',
         outcome = Done (page_count, band', σ')
         ∧ 1 <= page_count < 10000 ∧ Z.of_nat calls = page_count)
     ∨ (outcome = Raised too_many_pages ∧ Z.of_nat calls = 9999)).
Proof.
  destruct (sizing_bounded (Z.to_nat 10000) dp ctx 1 band σ 0)
    as [(page_count & band' & σ' & -> & Hpc)| ->]; [lia..| |].
  - split; [lia|]. left. exists page_count, band', σ'.
    split; [done|]. split; [done|]. lia.
  - split; [lia|]. right. split; [done|]. lia.
Qed.

Lemma sizing_done fuel dp ctx page_count band σ calls p :
  ReportBand.create_render_elements (content_height dp page_count) ctx band σ = Some p ->
  ReportBand.pass_result p = true ->
  (sizing (S fuel) dp ctx page_count band σ calls).1
  = Done (page_count, ReportBand.pass_band p, ReportBand.pass_store p).
Proof. intros Hp Hres. cbn [sizing]. by rewrite Hp, Hres. Qed.

(** ** The page loop *)

Lemma render_pdf_loop_counter offset_x offset_y cleanup
    (l : list (RenderElement Frag)) counter page released :
  (counter + (if l is [] then 0 else 1)
   <= (ReportBand.render_pdf_loop offset_x offset_y cleanup l counter page released).1.1
   <= counter + length l)%nat.
Proof.
  revert counter page released.
  induction l as [|[f|] l IH]; intros counter page released; simpl; [lia| |lia].
  specialize (IH (counter + 1)%nat
                (page ++ [ReportBand.Draw f offset_x offset_y])
                (if cleanup then released ++ [f] else released)).
  destruct l; simpl in *; lia.
Qed.

(** Drawing a page takes at least one entry off a queue that has one. *)
Lemma render_pdf_shrinks offset_x offset_y cleanup (band : ReportBand.t Frag)
    page released :
  let band' := (ReportBand.render_pdf offset_x offset_y cleanup band page released).1.1 in
  (length (ReportBand.render_elements band') <= length (ReportBand.render_elements band))%nat
  ∧ (ReportBand.render_elements band ≠ [] ->
     length (ReportBand.render_elements band') < length (ReportBand.render_elements band))%nat.
Proof.
  unfold ReportBand.render_pdf.
  pose proof (render_pdf_loop_counter offset_x offset_y cleanup
                (ReportBand.render_elements band) 0 page released) as Hcount.
  destruct (ReportBand.render_pdf_loop _ _ _ _ _ _ _) as [[counter page'] released'].
  simpl in *. rewrite length_drop.
  destruct (ReportBand.render_elements band); simpl in *; [split; [lia|done]|].
  split; intros; lia.
Qed.

Lemma render_fixed_band_total (band : ReportBand.t Frag) size offset_x offset_y
    ctx (σ : ref -> Element.t Priv) page released :
  is_Some (render_fixed_band band size offset_x offset_y ctx σ page released).
Proof.
  unfold render_fixed_band.
  destruct (ReportBand.prepare ctx true false band σ) as [band1 σ1].
  destruct (create_render_elements_total size ctx band1 σ1) as [p ->].
  destruct (ReportBand.render_pdf _ _ _ _ _ _) as [[band2 page2] released2].
  by eexists.
Qed.

(** A round of the page loop adds one page, moves the page number on by
    one, and draws one page of the content band. *)
Lemma render_page_total watermark_width watermark_height footer_offset_y self :
  ∃ self',
    render_page watermark_width watermark_height footer_offset_y self = Some self'
    ∧ length (pdf_doc self') = S (length (pdf_doc self))
    ∧ page_number (context self') = page_number (context self) + 1
    ∧ (length (ReportBand.render_elements (content_band self'))
       <= length (ReportBand.render_elements (content_band self)))%nat
    ∧ (ReportBand.render_elements (content_band self) ≠ [] ->
       length (ReportBand.render_elements (content_band self'))
       < length (ReportBand.render_elements (content_band self)))%nat.
Proof.
  unfold render_page.
  set (self1 := add_page self).
  set (dp := document_properties self1).
  set (doc := if add_watermark self1 then _ else _).
  assert (length doc = S (length (pdf_doc self))) as Hdoc.
  { unfold doc. simpl. destruct (add_watermark self); [|done].
    by destruct (Qlt_le_dec _ _). }
  set (with_header := if displayed (Geometry.header_display dp) _ then _ else _).
  assert (is_Some with_header) as [[[[[y1 hb] σ1] page1] released1] ->].
  { unfold with_header. destruct (displayed _ _); [|by eexists].
    destruct (render_fixed_band_total (header_band self1) (Geometry.header_size dp)
                (Geometry.margin_left dp) (Geometry.margin_top dp) (context self1)
                (store self1) (current_page doc) (released self1))
      as [[[[band σ'] page'] released'] ->].
    by eexists. }
  set (with_footer := if displayed (Geometry.footer_display dp) _ then _ else _).
  assert (is_Some with_footer) as [[[[fb σ2] page2] released2] ->].
  { unfold with_footer. destruct (displayed _ _); [|by eexists].
    apply render_fixed_band_total. }
  pose proof (render_pdf_shrinks (Geometry.margin_left dp) y1 true
                (content_band self1) page2 released2) as Hshrink.
  destruct (ReportBand.render_pdf _ _ _ _ _ _) as [[cb page3] released3].
  eexists. split; [done|]. simpl in *.
  split; [|split; [done|exact Hshrink]].
  destruct doc; simpl in *; [done|lia].
Qed.

Lemma pages_later fuel watermark_width watermark_height footer_offset_y self :
  0 < page_number (context self) ->
  (length (ReportBand.render_elements (content_band self)) <= fuel)%nat ->
  ∃ self',
    pages fuel watermark_width watermark_height footer_offset_y self = Done self'
    ∧ (length (pdf_doc self) <= length (pdf_doc self'))%nat
    ∧ (ReportBand.render_elements (content_band self) = [] -> self' = self).
Proof.
  revert self. induction fuel as [|fuel IH]; intros self Hpage Hfuel.
  - assert (ReportBand.render_elements (content_band self) = []) as Hnil
      by (destruct (ReportBand.render_elements _); [done|simpl in *; lia]).
    exists self. simpl. unfold is_finished, ReportBand.is_finished.
    rewrite Hnil. simpl. by destruct (Z.eqb_spec (get_page_number (context self)) 0);
      [unfold get_page_number in *; lia|].
  - cbn [pages]. unfold is_finished at 1, ReportBand.is_finished.
    destruct (Z.eqb_spec (get_page_number (context self)) 0) as [Hz|_];
      [unfold get_page_number in *; lia|].
    rewrite orb_false_r.
    destruct (ReportBand.render_elements (content_band self)) as [|re l] eqn:Hl.
    { exists self. by rewrite bool_decide_eq_true_2. }
    rewrite bool_decide_eq_false_2 by done. simpl negb. cbv iota.
    destruct (render_page_total watermark_width watermark_height footer_offset_y self)
      as (self1 & -> & Hdoc & Hnum & _ & Hlt).
    rewrite Hl in Hlt. specialize (Hlt ltac:(done)). simpl in Hlt, Hfuel.
    destruct (IH self1) as (self' & -> & Hdoc' & _); [lia..|].
    exists self'. split; [done|]. split; [lia|done].
Qed.

Lemma pages_first fuel watermark_width watermark_height footer_offset_y self :
  page_number (context self) = 0 ->
  (length (ReportBand.render_elements (content_band self)) <= fuel)%nat ->
  ∃ self',
    pages (S fuel) watermark_width watermark_height footer_offset_y self = Done self'
    ∧ (S (length (pdf_doc self)) <= length (pdf_doc self'))%nat
    ∧ (ReportBand.render_elements (content_band self) = [] ->
       length (pdf_doc self') = S (length (pdf_doc self))).
Proof.
  intros Hpage Hfuel. cbn [pages].
  replace (get_page_number (context self) =? 0) with true
    by (symmetry; by apply Z.eqb_eq).
  rewrite orb_true_r.
  destruct (render_page_total watermark_width watermark_height footer_offset_y self)
    as (self1 & -> & Hdoc & Hnum & Hle & _).
  destruct (pages_later fuel watermark_width watermark_height footer_offset_y self1)
    as (self' & -> & Hdoc' & Hsame); [lia..|].
  exists self'. split; [done|]. split; [lia|].
  intros Hnil. rewrite Hsame; [done|].
  rewrite Hnil in Hle.
  destruct (ReportBand.render_elements (content_band self1)); [done|simpl in Hle; lia].
Qed.

(** ** [render] *)

Lemma prepare_no_elements ctx pdf_doc only_verify (band : ReportBand.t Frag)
    (σ : ref -> Element.t Priv) :
  ReportBand.doc_elements band = [] ->
  ReportBand.sorted_elements (ReportBand.prepare ctx pdf_doc only_verify band σ).1 = []
  ∧ (pdf_doc = true ->
     ReportBand.render_elements (ReportBand.prepare ctx pdf_doc only_verify band σ).1 = []).
Proof.
  intros Hnone. unfold ReportBand.prepare. rewrite Hnone. simpl.
  by destruct pdf_doc.
Qed.

Lemma create_render_elements_no_elements container_height ctx
    (band : ReportBand.t Frag) (σ : ref -> Element.t Priv) :
  ReportBand.sorted_elements band = [] ->
  ∃ p, ReportBand.create_render_elements container_height ctx band σ = Some p
       ∧ ReportBand.pass_result p = true
       ∧ ReportBand.render_elements (ReportBand.pass_band p)
         = ReportBand.render_elements band.
Proof.
  intros Hnone. unfold ReportBand.create_render_elements. rewrite Hnone. simpl.
  rewrite Hnone. simpl. eexists. split; [done|].
  unfold ReportBand.finish. simpl. rewrite Hnone. simpl. done.
Qed.

(** Started with the page counter at zero, as a fresh context has it,
    [render] either stops with the error of the page cap, raised while the
    pages are counted, or returns with at least one page added to the
    document; and when the content band has no element it returns with
    exactly one page added. *)
Lemma render_adds_a_page watermark_exists self :
  page_number (context self) = 0 ->
  ((∃ self', render watermark_exists self = Done self'
             ∧ (S (length (pdf_doc self)) <= length (pdf_doc self'))%nat)
   ∨ render watermark_exists self = Raised too_many_pages)
  ∧ (ReportBand.doc_elements (content_band self) = [] ->
     ∃ self', render watermark_exists self = Done self'
              ∧ length (pdf_doc self') = S (length (pdf_doc self))).
Proof.
  intros Hpage. unfold render.
  set (dp := document_properties self).
  destruct (if add_watermark self then _ else _) as [[wm ww] wh].
  pose proof (prepare_no_elements (context self) true false (content_band self)
                (store self)) as Hempty.
  destruct (ReportBand.prepare (context self) true false (content_band self)
              (store self)) as [content σ]. simpl in Hempty.
  split.
  - destruct (sizing_bounded (Z.to_nat 10000) dp (context self) 1 content σ 0)
      as [(page_count & band' & σ' & -> & _)| ->]; [lia..| |by right].
    left. cbn [fst].
    match goal with
    | |- context [pages (S ?n) ?a ?b ?c ?x] =>
        destruct (pages_first n a b c x) as (self1 & -> & Hdoc & _);
          [done|done|]
    end.
    eexists. split; [done|]. exact Hdoc.
  - intros Hnone. destruct (Hempty Hnone) as [Hsorted Hrender].
    specialize (Hrender eq_refl).
    destruct (create_render_elements_no_elements (content_height dp 1)
                (context self) content σ Hsorted) as (p & Hp & Hres & Hqueue).
    replace (Z.to_nat 10000) with (S (Z.to_nat 9999)) by lia.
    rewrite (sizing_done _ _ _ _ _ _ _ p Hp Hres).
    match goal with
    | |- context [pages (S ?n) ?a ?b ?c ?x] =>
        destruct (pages_first n a b c x) as (self1 & -> & _ & Hdoc);
          [done|done|]
    end.
    eexists. split; [done|]. simpl. rewrite Hdoc; [done|]. simpl.
    by rewrite Hqueue.
Qed.
(** Started with the page counter above zero, as the context of a report
    has it once a document was generated, [render] adds no page when the
    content band has no element: the guard of the page loop is false at
    once. *)
Lemma render_empty_later watermark_exists self :
  0 < page_number (context self) ->
  ReportBand.doc_elements (content_band self) = [] ->
  ∃ self', render watermark_exists self = Done self'
           ∧ pdf_doc self' = pdf_doc self
           ∧ page_number (context self') = page_number (context self).
Proof.
  intros Hpage Hnone. unfold render.
  set (dp := document_properties self).
  destruct (if add_watermark self then _ else _) as [[wm ww] wh].
  pose proof (prepare_no_elements (context self) true false (content_band self)
                (store self)) as Hempty.
  destruct (ReportBand.prepare (context self) true false (content_band self)
              (store self)) as [content σ]. simpl in Hempty.
  destruct (Hempty Hnone) as [Hsorted Hrender].
  specialize (Hrender eq_refl).
  destruct (create_render_elements_no_elements (content_height dp 1)
              (context self) content σ Hsorted) as (p & Hp & Hres & Hqueue).
  replace (Z.to_nat 10000) with (S (Z.to_nat 9999)) by lia.
  rewrite (sizing_done _ _ _ _ _ _ _ p Hp Hres).
  match goal with
  | |- context [pages (S ?n) ?a ?b ?c ?x] =>
      destruct (pages_later (S n) a b c x) as (self1 & -> & _ & Hsame);
        [done|simpl; lia|]
  end.
  rewrite Hsame by (simpl; by rewrite Hqueue).
  eexists. split; [done|]. done.
Qed.

End Renderer.

End PDFFacts.

Module SceneFacts.
Import ReportBand PassTerms PassFacts Scenes.

(** C7, as the claim has it, fails: the short text waits for the tall one,
    which did not fit the page; the pass ends at the short text, but the queue
    it leaves starts with the tall text, and the next pass calls on the tall
    text first. *)
Lemma pending_element_not_first_on_next_page :
  at_cursor after_tall 1%nat
  ∧ predecessor_pending (ls_store after_tall) (ls_completed_elements after_tall)
      (ls_store after_tall 1%nat) = true
  ∧ ∃ p p',
      create_render_elements 100 ctx0 tall_band tall_store = Some p
      ∧ sorted_elements (pass_band p) = [0; 1]%nat
      ∧ create_render_elements 100 ctx0 (pass_band p) (pass_store p) = Some p'
      ∧ head (pass_calls p') = Some (CallNext 0%nat 0 100).
Proof.
  split; [split; vm_compute; reflexivity|]. split; [vm_compute; reflexivity|].
  destruct (create_render_elements 100 ctx0 tall_band tall_store) as [p|] eqn:Hp;
    [|vm_compute in Hp; discriminate].
  destruct (create_render_elements 100 ctx0 (pass_band p) (pass_store p)) as [p'|] eqn:Hp'.
  2:{ vm_compute in Hp. injection Hp as <-. vm_compute in Hp'. discriminate. }
  exists p, p'. split; [done|].
  vm_compute in Hp. injection Hp as <-.
  split; [vm_compute; reflexivity|]. split; [exact Hp'|].
  vm_compute in Hp'. injection Hp' as <-. vm_compute. reflexivity.
Qed.

(** The theorem at the short text of the scene, which waits for the tall one. *)
Lemma pending_predecessor_ends_page_witness :
  ∃ p, create_render_elements 100 ctx0 tall_band tall_store = Some p
    ∧ pass_result p = false
    ∧ sorted_elements (pass_band p) = sorted_elements (ls_band after_tall)
    ∧ sorted_elements (pass_band p) !! ls_i after_tall = Some 1%nat
    ∧ render_elements (pass_band p) = render_elements (ls_band after_tall) ++ [PageBreak]
    ∧ pass_calls p = ls_calls after_tall.
Proof.
  refine (proj2 (pending_predecessor_ends_page 100 ctx0 tall_band tall_store
                   after_tall 1%nat _ _) _).
  - eapply (rounds_next 100 ctx0 _ 0%nat after_tall); [| |apply rounds_here].
    + split; vm_compute; reflexivity.
    + vm_compute. reflexivity.
  - split; vm_compute; reflexivity.
  - vm_compute. reflexivity.
Defined.

(** The theorem at the page break of the scene's header. *)
Lemma page_break_in_fixed_band_witness :
  ∃ p, create_render_elements 40 ctx0 header_band header_store = Some p
    ∧ pass_result p = true
    ∧ sorted_elements (pass_band p) = []
    ∧ pass_calls p = ls_calls after_text
    ∧ (∃ fs, render_elements (pass_band p)
             = render_elements header_band ++ (Fragment <$> fs))
    ∧ (render_elements header_band = [] ->
       ∀ offset_x offset_y cleanup page released,
         is_finished (render_pdf offset_x offset_y cleanup (pass_band p)
                        page released).1.1 = true).
Proof.
  refine (page_break_in_fixed_band 40 ctx0 header_band header_store
            after_text 1%nat _ _ _ _).
  - vm_compute. reflexivity.
  - eapply (rounds_next 40 ctx0 _ 0%nat after_text); [| |apply rounds_here].
    + split; vm_compute; reflexivity.
    + vm_compute. reflexivity.
  - split; vm_compute; reflexivity.
  - split; vm_compute; reflexivity.
Defined.

(** The header of the scene: the text is drawn, the page break ends the pass,
    the text below it is dropped. *)
Lemma broken_header_pass :
  ∃ p, create_render_elements 40 ctx0 header_band header_store = Some p
    ∧ pass_result p = true
    ∧ sorted_elements (pass_band p) = []
    ∧ render_elements (pass_band p) = [Fragment (1, 0, 10)].
Proof. eexists. split; [vm_compute; reflexivity|]. vm_compute. done. Qed.

(** The theorem at the report of the scene. *)
Lemma render_adds_a_page_witness :
  page_number (DocumentPDFRenderer.context pdf_report) = 0
  ∧ ((∃ self', DocumentPDFRenderer.render false pdf_report = Done self'
               ∧ (S (length (DocumentPDFRenderer.pdf_doc pdf_report))
                  <= length (DocumentPDFRenderer.pdf_doc self'))%nat)
     ∨ DocumentPDFRenderer.render false pdf_report
       = Raised DocumentPDFRenderer.too_many_pages).
Proof.
  split; [reflexivity|].
  refine (proj1 (PDFFacts.render_adds_a_page false pdf_report _)).
  reflexivity.
Defined.

(** The report of the scene takes two pages; the footer text is drawn on
    both, the header on none. *)
Lemma pdf_report_pages :
  match DocumentPDFRenderer.render false pdf_report with
  | Done self' =>
      reverse (DocumentPDFRenderer.pdf_doc self')
      = [[Draw (4, 0, 10) 20 792; Draw (2, 0, 500) 20 20; Draw (3, 500, 272) 20 20];
         [Draw (4, 0, 10) 20 792; Draw (3, 0, 228) 20 20]]
  | _ => False
  end.
Proof. vm_compute. reflexivity. Qed.

(** With no height for the content nothing is ever placed, and the sizing loop
    stops at the page cap. *)
Lemma sizing_cap_reached :
  let '(outcome, calls) :=
    DocumentPDFRenderer.sizing (Z.to_nat 10000) no_room ctx0 1 tall_band tall_store 0 in
  outcome = Raised DocumentPDFRenderer.too_many_pages ∧ Z.of_nat calls = 9999.
Proof. vm_compute. done. Qed.
(** C8: where the code parts from the claim.  The report of the scene has
    a footer shown on every page and a content band without elements.  Its
    first [generate_pdf] gives a document of one page, which shows the
    footer, and leaves the page number in the context of the report at 1.
    The second [generate_pdf] of the same report finds the guard
    [get_page_number() == 0] of the page loop false and gives a document
    without any page. *)
Lemma second_pdf_without_page :
  doc_elements (Report.content (Report.bands empty_report)) = []
  ∧ match Report.generate_pdf false false empty_report with
    | Done (doc1, report1) =>
        doc1 = [[Draw (4, 0, 10) 20 792]]
        ∧ page_number (Report.context report1) = 1
        ∧ match Report.generate_pdf false false report1 with
          | Done (doc2, _) => doc2 = []
          | _ => False
          end
    | _ => False
    end.
Proof. vm_compute. done. Qed.

End SceneFacts.

Module XLSXFacts.
Import DocumentXLSXRenderer Scenes.

Section Renderer.
Context {Priv Frag : Type} `{!ElementOps Priv Frag}.
Implicit Type self : DocumentXLSXRenderer.t (Priv := Priv) (Frag := Frag).

Lemma render_band_document_properties which self :
  document_properties (render_band which self) = document_properties self.
Proof.
  unfold render_band.
  destruct (ReportBand.prepare _ _ _ _ _) as [band σ].
  destruct (ReportBand.render_spreadsheet _ _ _ _ _) as [row ws].
  by destruct which.
Qed.

(** The one pass of the spreadsheet renderer: with a header display policy
    other than "never" it renders header, content and footer in this order,
    each band starting at the row the one before it returned; with the
    policy "never" it renders the content band alone, whatever the footer's
    policy. *)
Lemma render_bands self :
  render self =
    if bool_decide (Geometry.header_display (document_properties self) = Geometry.never)
    then render_band BandType.content self
    else render_band BandType.footer
           (render_band BandType.content (render_band BandType.header self)).
Proof.
  unfold render.
  destruct (decide (Geometry.header_display (document_properties self)
                    = Geometry.never)) as [Hnever|Hshown].
  - rewrite (bool_decide_eq_true_2 _ Hnever).
    assert (bool_decide (Geometry.header_display (document_properties self)
                         ≠ Geometry.never) = false) as Hguard
      by (apply bool_decide_eq_false_2; intros Hne; by apply Hne).
    rewrite Hguard. cbv zeta. rewrite render_band_document_properties.
    by rewrite Hguard.
  - rewrite (bool_decide_eq_false_2 _ Hshown).
    assert (bool_decide (Geometry.header_display (document_properties self)
                         ≠ Geometry.never) = true) as Hguard
      by by apply bool_decide_eq_true_2.
    rewrite Hguard. cbv zeta. rewrite !render_band_document_properties.
    by rewrite Hguard.
Qed.

End Renderer.

(** C2: where the code parts from the claim.  The scene's report has its
    header switched off and its footer shown on every page; the footer holds
    the text with reference 3.  The spreadsheet renderer writes the two
    content rows and nothing for the footer. *)
Lemma footer_rows_dropped_without_header :
  Geometry.header_display (document_properties xlsx_report) = Geometry.never
  ∧ Geometry.footer_display (document_properties xlsx_report) = Geometry.always
  ∧ ReportBand.doc_elements (footer_band xlsx_report) = [3%nat]
  ∧ Element.spreadsheet_hide (store xlsx_report 3%nat) = false
  ∧ worksheet (render xlsx_report)
    = [ReportBand.mkCellWrite 1 0 0; ReportBand.mkCellWrite 2 1 0].
Proof. vm_compute. done. Qed.

End XLSXFacts.

Module OrderFacts.
Import ReportBand PrepareTerms PrepareFacts PredecessorTerms PredecessorFacts OrderTerms.

Section Stable.
Context {A : Type} (key : A -> Z * Z).

Lemma key_le_refl (k : Z * Z) : key_le k k = true.
Proof.
  unfold key_le. destruct k as [a b]; simpl.
  rewrite Z.eqb_refl. apply orb_true_iff. right. apply Z.leb_le. lia.
Qed.

Lemma key_le_false_ne (k1 k2 : Z * Z) : key_le k1 k2 = false -> k1 ≠ k2.
Proof. intros Hle ->. by rewrite key_le_refl in Hle. Qed.

(** Inserting leaves the elements of any one key in their order, the new
    element in front of them. *)
Lemma insert_sorted_stable (k : Z * Z) a (l : list A) :
  filter (λ b, key b = k) (insert_sorted key a l)
  = filter (λ b, key b = k) (a :: l).
Proof.
  induction l as [|b l IH]; simpl; [done|].
  destruct (key_le (key a) (key b)) eqn:Hle; [done|].
  apply key_le_false_ne in Hle.
  rewrite (filter_cons _ b), IH, !filter_cons.
  destruct (decide (key a = k)) as [Ha|Ha]; [|done].
  destruct (decide (key b = k)) as [Hb|Hb]; [congruence|done].
Qed.

(** [sorted] is stable: the elements of any one key come out in the order
    they went in. *)
Lemma sorted_stable (k : Z * Z) (l : list A) :
  filter (λ b, key b = k) (sorted l key) = filter (λ b, key b = k) l.
Proof.
  induction l as [|a l IH]; [done|]. unfold sorted in *. simpl.
  rewrite insert_sorted_stable, !filter_cons, IH. done.
Qed.

Lemma sorted_ext (key' : A -> Z * Z) (l : list A) :
  (∀ a, key' a = key a) -> sorted l key' = sorted l key.
Proof.
  intros Hkey. unfold sorted. induction l as [|a l IH]; simpl; [done|].
  rewrite IH. generalize (foldr (insert_sorted key) [] l). intros l'.
  induction l' as [|b l' IH']; simpl; [done|]. by rewrite !Hkey, IH'.
Qed.

End Stable.

Section Order.
Context {Priv Frag : Type} `{!ElementOps Priv Frag}.
Implicit Type self : ReportBand.t Frag.
Implicit Type σ : ref -> Element.t Priv.

Lemma same_but_links_refl σ : same_but_links σ σ.
Proof. by intros q. Qed.

Lemma same_but_links_trans σ1 σ2 σ3 :
  same_but_links σ1 σ2 -> same_but_links σ2 σ3 -> same_but_links σ1 σ3.
Proof. intros H12 H23 q. by rewrite H23, H12. Qed.

Lemma set_predecessor_same_but_links σ r p :
  same_but_links σ (set_predecessor σ r p).
Proof.
  intros q. unfold set_predecessor.
  destruct (decide (p = q)) as [->|Hp];
    [rewrite fn_lookup_insert|rewrite fn_lookup_insert_ne by done];
    (destruct (decide (r = q)) as [->|Hr];
     [rewrite fn_lookup_insert|rewrite fn_lookup_insert_ne by done]); done.
Qed.

Lemma links_same_but_links (l : list ref) (ks : list nat) σ :
  same_but_links σ (foldl (link l) σ ks).
Proof.
  revert σ. induction ks as [|k ks IH]; intros σ; simpl;
    [apply same_but_links_refl|].
  eapply same_but_links_trans; [|apply IH].
  unfold link. repeat case_match; try apply same_but_links_refl.
  apply set_predecessor_same_but_links.
Qed.

(** What is read off an element without its links is the same in both
    stores. *)
Lemma same_but_links_field {B} (f : Element.t Priv -> B) σ σ' q :
  same_but_links σ σ' ->
  (∀ e, f (Element.with_successors [] (Element.with_predecessor None e)) = f e) ->
  f (σ' q) = f (σ q).
Proof. intros Hσ Hf. by rewrite <- (Hf (σ' q)), <- (Hf (σ q)), Hσ. Qed.

Lemma sort_key_same_but_links pdf_doc σ σ' r :
  same_but_links σ σ' -> sort_key pdf_doc σ' r = sort_key pdf_doc σ r.
Proof.
  intros Hσ. unfold sort_key.
  rewrite (same_but_links_field Element.y σ σ') by done.
  rewrite (same_but_links_field Element.sort_order σ σ') by done.
  by rewrite (same_but_links_field Element.x σ σ') by done.
Qed.

Lemma filter_agree {A} (P1 P2 : A -> Prop)
    `{!∀ x, Decision (P1 x), !∀ x, Decision (P2 x)} (l : list A) :
  (∀ x, x ∈ l -> P1 x ↔ P2 x) -> filter P1 l = filter P2 l.
Proof.
  induction l as [|a l IH]; intros HP; [done|]. rewrite !filter_cons.
  rewrite IH by (intros x Hx; apply HP; by right).
  destruct (decide (P1 a)) as [H1|H1], (decide (P2 a)) as [H2|H2]; try done.
  - destruct H2. apply HP; [by left|done].
  - destruct H1. apply HP; [by left|done].
Qed.

Lemma prepare_elements_selection ctx pdf_doc only_verify self (l : list ref) σ acc :
  NoDup l ->
  (foldl (prepare_element ctx pdf_doc only_verify self) (σ, acc) l).2
  = acc ++ selection pdf_doc only_verify σ l.
Proof.
  revert σ acc. induction l as [|a l IH]; intros σ acc Hnd; cbn [foldl].
  { by rewrite app_nil_r. }
  apply NoDup_cons in Hnd as [Ha Hnd]. unfold selection. rewrite filter_cons.
  assert (∀ e : Element.t Priv,
            filter (λ r, selected pdf_doc only_verify ((<[a:=e]> σ) r) = true) l
            = filter (λ r, selected pdf_doc only_verify (σ r) = true) l) as Hsame.
  { intros e. apply filter_agree. intros r Hr.
    rewrite fn_lookup_insert_ne; [done|]. by intros ->. }
  destruct (prepare_element ctx pdf_doc only_verify self (σ, acc) a)
    as [σ1 acc1] eqn:Hstep.
  unfold prepare_element in Hstep.
  fold (selected pdf_doc only_verify (σ a)) in Hstep.
  destruct (selected pdf_doc only_verify (σ a)) eqn:Hsel; simplify_eq.
  - rewrite decide_True by done. rewrite IH by done. unfold selection.
    rewrite Hsame. by rewrite <- app_assoc.
  - rewrite decide_False by done. by rewrite IH.
Qed.

(** X8: [prepare] orders the elements it takes up: [sorted_elements] holds
    exactly those elements (each once, for a band that holds each element
    once), in the order of their keys, (top, draw order) for a PDF document
    and (top, left) for a spreadsheet, elements with equal keys in the
    order in which the band holds them. *)
Theorem prepare_sorts_elements ctx pdf_doc only_verify self σ :
  NoDup (doc_elements self) ->
  let band := (prepare ctx pdf_doc only_verify self σ).1 in
  let σ' := (prepare ctx pdf_doc only_verify self σ).2 in
  let taken := selection pdf_doc only_verify σ (doc_elements self) in
  sorted_elements band ≡ₚ taken
  ∧ StronglySorted (in_key_order (sort_key pdf_doc σ')) (sorted_elements band)
  ∧ ∀ k, filter (λ r, sort_key pdf_doc σ' r = k) (sorted_elements band)
         = filter (λ r, sort_key pdf_doc σ' r = k) taken.
Proof.
  intros Hnd. unfold prepare.
  pose proof (prepare_elements_selection ctx pdf_doc only_verify self
                (doc_elements self) σ [] Hnd) as Hsel.
  destruct (foldl _ _ _) as [σ1 l1]. simpl in Hsel. subst l1.
  destruct pdf_doc; simpl.
  - set (l := sorted _ _). set (σ' := foldl (link l) σ1 (seq 0 (length l))).
    assert (same_but_links σ1 σ') as Hσ by apply links_same_but_links.
    assert (l = sorted (selection true only_verify σ (doc_elements self))
                  (sort_key true σ')) as Hl.
    { unfold l. symmetry. apply sorted_ext. intros r.
      by rewrite (sort_key_same_but_links true σ1). }
    clearbody σ' l. rewrite Hl. split; [apply sorted_perm|]. split; [apply sorted_ordered|].
    intros k. apply sorted_stable.
  - change (λ r, (Element.y (σ1 r), Element.x (σ1 r))) with (sort_key false σ1).
    split; [apply sorted_perm|]. split; [apply sorted_ordered|].
    intros k. apply sorted_stable.
Qed.

Lemma prepare_elements_anew ctx pdf_doc only_verify self (l : list ref) σ acc :
  allow_page_break self = false ->
  (∀ r, r ∈ acc -> rendered_anew (σ r)) ->
  let res := foldl (prepare_element ctx pdf_doc only_verify self) (σ, acc) l in
  ∀ r, r ∈ res.2 -> rendered_anew (res.1 r).
Proof.
  intros Hfixed. revert σ acc. induction l as [|a l IH]; intros σ acc Hacc;
    cbn [foldl]; [done|].
  destruct (prepare_element ctx pdf_doc only_verify self (σ, acc) a)
    as [σ1 acc1] eqn:Hstep.
  apply IH. unfold prepare_element in Hstep. rewrite Hfixed in Hstep.
  destruct (_ || _); simplify_eq; [|done].
  intros r Hr. destruct (decide (r = a)) as [->|Hne].
  - by rewrite fn_lookup_insert.
  - rewrite fn_lookup_insert_ne by done. apply Hacc.
    apply elem_of_app in Hr as [Hr|Hr]; [done|].
    by apply list_elem_of_singleton in Hr.
Qed.

(** X9: In a band that allows no page break (header, footer) every element
    [prepare] takes up starts over: it is marked as not yet rendered and
    not complete, whatever an earlier page left. *)
Theorem prepare_fixed_band_starts_over ctx pdf_doc only_verify self σ r :
  allow_page_break self = false ->
  r ∈ sorted_elements (prepare ctx pdf_doc only_verify self σ).1 ->
  rendered_anew ((prepare ctx pdf_doc only_verify self σ).2 r).
Proof.
  intros Hfixed. unfold prepare.
  pose proof (prepare_elements_anew ctx pdf_doc only_verify self
                (doc_elements self) σ [] Hfixed) as Hanew.
  destruct (foldl _ _ _) as [σ1 l1]. simpl in Hanew.
  assert (∀ r, r ∈ l1 -> rendered_anew (σ1 r)) as Hall.
  { apply Hanew. intros q Hq. by apply elem_of_nil in Hq. }
  destruct pdf_doc; simpl; intros Hr;
    (eapply elem_of_Permutation_proper in Hr; [|symmetry; apply sorted_perm]);
    [|by apply Hall].
  set (l := sorted _ _). unfold rendered_anew.
  rewrite (same_but_links_field Element.first_render_element σ1)
    by (done || apply links_same_but_links).
  rewrite (same_but_links_field Element.rendering_complete σ1)
    by (done || apply links_same_but_links).
  by apply Hall.
Qed.

Lemma set_predecessor_successors σ r p q :
  Element.successors (set_predecessor σ r p q)
  = if decide (q = p) then Element.successors (σ p) ++ [r]
    else Element.successors (σ q).
Proof.
  unfold set_predecessor. destruct (decide (q = p)) as [->|Hq].
  - rewrite fn_lookup_insert. simpl.
    destruct (decide (r = p)) as [->|Hr];
      [by rewrite fn_lookup_insert|by rewrite fn_lookup_insert_ne].
  - rewrite fn_lookup_insert_ne by done.
    destruct (decide (r = q)) as [->|Hr];
      [by rewrite fn_lookup_insert|by rewrite fn_lookup_insert_ne].
Qed.

Lemma set_predecessor_predecessor σ r p q :
  Element.predecessor (set_predecessor σ r p q)
  = if decide (q = r) then Some p else Element.predecessor (σ q).
Proof.
  destruct (decide (q = r)) as [->|Hq];
    [apply set_predecessor_here|by apply set_predecessor_other].
Qed.

Lemma link_cases (l : list ref) σ k r0 :
  l !! k = Some r0 ->
  link l σ k = σ ∨ ∃ p0, link l σ k = set_predecessor σ r0 p0.
Proof.
  intros Hr0. unfold link. rewrite Hr0.
  destruct (find_predecessor σ l k r0) as [p0|]; [|by left].
  destruct (negb _); [right; by exists p0|by left].
Qed.

(** The links after the rounds for the first [k] elements: only these
    elements have a predecessor, and the successors of an element are the
    elements that name it as predecessor, each once. *)
Lemma links_mutual (l : list ref) σ (k : nat) :
  NoDup l -> without_links σ -> (k <= length l)%nat ->
  let σk := foldl (link l) σ (seq 0 k) in
  (∀ r, Element.predecessor (σk r) ≠ None -> ∃ i, (i < k)%nat ∧ l !! i = Some r)
  ∧ (∀ r p, r ∈ Element.successors (σk p) ↔ Element.predecessor (σk r) = Some p)
  ∧ (∀ p, NoDup (Element.successors (σk p))).
Proof.
  intros Hnd Hfresh. induction k as [|k IH]; intros Hk; cbv zeta in *.
  { simpl. split; [intros r Hr; by destruct (Hfresh r)|]. split.
    - intros r p. destruct (Hfresh r) as [-> _], (Hfresh p) as [_ ->].
      split; [intros Hr; by apply elem_of_nil in Hr|done].
    - intros p. destruct (Hfresh p) as [_ ->]. constructor. }
  rewrite seq_S, foldl_app. cbn [foldl Nat.add].
  destruct IH as (Hidx & Hmut & Hnds); [lia|].
  set (σk := foldl (link l) σ (seq 0 k)) in *.
  destruct (lookup_lt_is_Some_2 l k) as [r0 Hr0]; [lia|].
  assert (Element.predecessor (σk r0) = None) as Hnew.
  { destruct (Element.predecessor (σk r0)) as [p|] eqn:Hp; [|done].
    destruct (Hidx r0) as (i & Hi & Hir); [by rewrite Hp|].
    pose proof (NoDup_lookup l i k r0 Hnd Hir Hr0). lia. }
  destruct (link_cases l σk k r0 Hr0) as [->|[p0 ->]].
  { split; [|done]. intros r Hr. destruct (Hidx r Hr) as (i & Hi & Hir).
    exists i. split; [lia|done]. }
  split; [|split].
  - intros r. rewrite set_predecessor_predecessor.
    destruct (decide (r = r0)) as [->|Hne].
    + intros _. exists k. split; [lia|done].
    + intros Hr. destruct (Hidx r Hr) as (i & Hi & Hir).
      exists i. split; [lia|done].
  - intros r p. rewrite set_predecessor_successors, set_predecessor_predecessor.
    destruct (decide (p = p0)) as [->|Hp].
    + rewrite elem_of_app, list_elem_of_singleton, Hmut.
      destruct (decide (r = r0)) as [->|Hne]; [naive_solver|].
      split; [by intros [?|?]|by left].
    + rewrite Hmut. destruct (decide (r = r0)) as [->|Hne]; [|done].
      rewrite Hnew. split; [done|congruence].
  - intros p. rewrite set_predecessor_successors.
    destruct (decide (p = p0)) as [->|Hp]; [|done].
    apply NoDup_app. split; [done|]. split; [|apply NoDup_singleton].
    intros r Hr Hr'. apply list_elem_of_singleton in Hr' as ->.
    apply Hmut in Hr. congruence.
Qed.

(** X10: The two links [prepare] sets agree: in a band that holds each element
    once and whose elements come without links, after [prepare] for a PDF
    document an element is among the successors of [p] exactly if [p] is
    its predecessor, it is there once, and only elements of
    [sorted_elements] have a predecessor. *)
Theorem prepare_links_agree ctx only_verify self σ :
  NoDup (doc_elements self) ->
  without_links (prepared_store ctx true only_verify self σ) ->
  let band := (prepare ctx true only_verify self σ).1 in
  let σ' := (prepare ctx true only_verify self σ).2 in
  (∀ r p, r ∈ Element.successors (σ' p) ↔ Element.predecessor (σ' r) = Some p)
  ∧ (∀ p, NoDup (Element.successors (σ' p)))
  ∧ (∀ r p, Element.predecessor (σ' r) = Some p -> r ∈ sorted_elements band).
Proof.
  intros Hnd. unfold prepared_store, prepare.
  pose proof (prepare_elements_pdf ctx only_verify self (doc_elements self) σ [])
    as Hl1.
  destruct (foldl _ _ _) as [σ1 l1]. simpl in Hl1. subst l1. simpl.
  intros Hfresh.
  set (l := sorted (doc_elements self)
              (λ r, (Element.y (σ1 r), Element.sort_order (σ1 r)))).
  assert (NoDup l) as Hndl by (unfold l; by rewrite sorted_perm).
  destruct (links_mutual l σ1 (length l) Hndl Hfresh) as (Hidx & Hmut & Hnds);
    [done|].
  split; [done|]. split; [done|].
  intros r p Hp. destruct (Hidx r) as (i & _ & Hi); [by rewrite Hp|].
  by eapply list_elem_of_lookup_2.
Qed.

End Order.

End OrderFacts.

Module QueueFacts.
Import ReportBand PassTerms PassFacts QueueTerms.

Section Queue.
Context {Priv Frag : Type} `{!ElementOps Priv Frag}.
Variables (container_height : Z) (ctx : Context).
Implicit Type self : ReportBand.t Frag.
Implicit Type σ : ref -> Element.t Priv.
Implicit Type s : Loop (Priv := Priv) (Frag := Frag).

Local Abbreviation rounds := (PassTerms.rounds container_height ctx).

Ltac body_cases :=
  unfold body;
  repeat match goal with
    | |- context [if ?b then _ else _] => destruct b eqn:?
    | |- context [let '(_, _) := ?p in _] => destruct p as [[? ?] ?] eqn:?
    | |- context [match ?o with Some _ => _ | None => _ end] => destruct o eqn:?
    end.

(** ** [render_pdf] *)

Lemma render_pdf_loop_page offset_x offset_y cleanup (fs : list Frag)
    (tail : list (RenderElement Frag)) counter page released :
  at_boundary tail ->
  render_pdf_loop offset_x offset_y cleanup ((Fragment <$> fs) ++ tail)
    counter page released
  = ((counter + length fs + (if tail is [] then 0 else 1))%nat,
     page ++ (drawn offset_x offset_y <$> fs),
     if cleanup then released ++ fs else released).
Proof.
  intros Htail. revert counter page released.
  induction fs as [|f fs IH]; intros counter page released; simpl.
  - destruct tail as [|[f|] tail]; simpl; [| done |].
    + rewrite app_nil_r. do 2 f_equal; [lia|]. by destruct cleanup; rewrite ?app_nil_r.
    + rewrite app_nil_r. do 2 f_equal; [lia|]. by destruct cleanup; rewrite ?app_nil_r.
  - rewrite IH. rewrite <- !app_assoc. simpl. do 2 f_equal; [lia|].
    destruct cleanup; [|done]. by rewrite <- app_assoc.
Qed.

(** X15: [render_pdf] draws one page of the queue: the fragments up to the first
    page break, in their order and at the place given; it takes them and
    the page break off the queue, and with [cleanup] it releases each of
    them once.  What follows the page break stays queued. *)
Theorem render_pdf_draws_one_page offset_x offset_y cleanup self
    (fs : list Frag) (tail : list (RenderElement Frag)) page released :
  render_elements self = (Fragment <$> fs) ++ tail -> at_boundary tail ->
  render_pdf offset_x offset_y cleanup self page released
  = (with_render_elements (drop 1 tail) self,
     page ++ (drawn offset_x offset_y <$> fs),
     if cleanup then released ++ fs else released).
Proof.
  intros Hq Htail. unfold render_pdf. rewrite Hq.
  rewrite render_pdf_loop_page by done. f_equal. f_equal. f_equal.
  rewrite Nat.add_0_l, drop_app_add'; [|by rewrite length_fmap].
  destruct tail; [by rewrite !drop_nil|done].
Qed.

(** ** The queues along a pass *)

Lemma body_queues s r s' :
  body container_height ctx r s = Next s' ->
  sorted_elements (ls_band s') `sublist_of` sorted_elements (ls_band s)
  ∧ doc_elements (ls_band s') = doc_elements (ls_band s).
Proof.
  body_cases; intros Hb; simplify_eq; simpl; split; try done;
    apply sublist_delete.
Qed.

Lemma rounds_queues s s' :
  rounds s s' ->
  sorted_elements (ls_band s') `sublist_of` sorted_elements (ls_band s)
  ∧ doc_elements (ls_band s') = doc_elements (ls_band s).
Proof.
  induction 1 as [s|s r s' s'' _ Hb _ [IHs IHd]]; [done|].
  destruct (body_queues _ _ _ Hb) as [Hs Hd]. split; [by etrans|congruence].
Qed.

Lemma body_return_pass s r p :
  body container_height ctx r s = Return p ->
  p = mkPass true (with_sorted_elements [] (ls_band s)) (ls_store s) (ls_calls s).
Proof. body_cases; intros Hb; by simplify_eq. Qed.

(** What a pass does to the two queues of its band. *)
Lemma create_render_elements_queues self σ :
  ∃ p fs,
    create_render_elements container_height ctx self σ = Some p
    ∧ render_elements (pass_band p)
      = render_elements self ++ (Fragment <$> fs) ++ closing (pass_result p)
    ∧ (pass_result p = true ↔ sorted_elements (pass_band p) = [])
    ∧ sorted_elements (pass_band p) `sublist_of` sorted_elements self
    ∧ doc_elements (pass_band p) = doc_elements self
    ∧ allow_page_break (pass_band p) = allow_page_break self.
Proof.
  destruct (create_render_elements_total container_height ctx self σ) as [p Hp].
  exists p.
  destruct (loop_end _ _ _ _ _ Hp) as [(s' & Hrounds & ->)|(s' & r & Hrounds & _ & Hret)].
  - destruct (rounds_band _ _ _ _ Hrounds) as [Ha [fs Hfs]].
    destruct (rounds_queues _ _ Hrounds) as [Hs Hd]. simpl in *.
    exists fs. split; [done|]. unfold finish. simpl.
    destruct (sorted_elements (ls_band s')) as [|r l] eqn:Hl; simpl; rewrite ?Hl.
    + rewrite Hfs, app_nil_r. split; [done|]. split; [done|].
      split; [apply sublist_nil_l|done].
    + rewrite Hfs, <- app_assoc. split; [done|].
      split; [split; intros; discriminate|]. done.
  - apply body_return_pass in Hret as ->.
    destruct (rounds_band _ _ _ _ Hrounds) as [Ha [fs Hfs]].
    destruct (rounds_queues _ _ Hrounds) as [Hs Hd]. simpl in *.
    exists fs. split; [done|]. rewrite Hfs, app_nil_r.
    repeat split; try done. apply sublist_nil_l.
Qed.

(** X11: A pass only ever shortens the list of sorted elements, keeping their
    order, and only ever appends to the queue of render elements: the
    fragments it obtained, followed by one page break unless it reports the
    band done.  It reports the band done exactly when it leaves no sorted
    element. *)
Theorem pass_queues self σ :
  ∃ p fs,
    create_render_elements container_height ctx self σ = Some p
    ∧ render_elements (pass_band p)
      = render_elements self ++ (Fragment <$> fs) ++ closing (pass_result p)
    ∧ (pass_result p = true ↔ sorted_elements (pass_band p) = [])
    ∧ sorted_elements (pass_band p) `sublist_of` sorted_elements self
    ∧ doc_elements (pass_band p) = doc_elements self
    ∧ allow_page_break (pass_band p) = allow_page_break self.
Proof. apply create_render_elements_queues. Qed.

(** ** The calls of a pass *)

Lemma body_within_page s r :
  step_calls (body container_height ctx r s) = ls_calls s
  ∨ ∃ c, step_calls (body container_height ctx r s) = ls_calls s ++ [c]
         ∧ call_elem c = r ∧ within_page container_height c.
Proof.
  unfold body.
  destruct (predecessor_pending _ _ _); [by left|].
  destruct (Element.is_page_break _).
  { destruct (allow_page_break _); by left. }
  destruct (is_printed _ _).
  - destruct (Z.geb_spec (offset_y (ls_band s) (ls_store s) (ls_store s r))
                container_height); [by left|].
    destruct (get_next_render_element _ _ _ _) as [[render_elem complete] elem'].
    right. eexists. split; [by destruct complete|]. done.
  - right. eexists. split; [done|]. done.
Qed.

Lemma loop_within_page fuel s p :
  loop fuel container_height ctx s = Some p ->
  Forall (within_page container_height) (ls_calls s) ->
  Forall (within_page container_height) (pass_calls p).
Proof.
  revert s. induction fuel as [|fuel IH]; intros s; simpl.
  - destruct (ls_new_page s);
      [|destruct (sorted_elements (ls_band s) !! ls_i s); [done|]];
      intros [= <-]; by rewrite finish_calls.
  - destruct (ls_new_page s); [intros [= <-]; by rewrite finish_calls|].
    destruct (sorted_elements (ls_band s) !! ls_i s) as [r|];
      [|intros [= <-]; by rewrite finish_calls].
    pose proof (body_within_page s r) as Hcalls.
    destruct (body container_height ctx r s) as [s'|p'] eqn:Hb; simpl in Hcalls.
    + intros Hloop Hall. apply (IH s' Hloop).
      destruct Hcalls as [->|(c & -> & _ & Hc)]; [done|].
      apply Forall_app. split; [done|]. by constructor.
    + intros [= <-] Hall.
      destruct Hcalls as [->|(c & -> & _ & Hc)]; [done|].
      apply Forall_app. split; [done|]. by constructor.
Qed.

(** X12: A pass asks an element for a fragment only for the height it was given
    and at an offset above that height: an element whose offset has reached
    the lower edge of the page is not called, the page is ended instead. *)
Theorem fragments_requested_within_page self σ :
  ∃ p, create_render_elements container_height ctx self σ = Some p
       ∧ Forall (within_page container_height) (pass_calls p).
Proof.
  destruct (create_render_elements_total container_height ctx self σ) as [p Hp].
  exists p. split; [done|]. by eapply loop_within_page.
Qed.

Lemma drop_delete_same (l : list ref) i : drop i (delete i l) = drop (S i) l.
Proof.
  revert i. induction l as [|a l IH]; intros [|i]; simpl; done.
Qed.

Lemma not_in_drop_S (l : list ref) i r :
  NoDup l -> l !! i = Some r -> r ∉ drop (S i) l.
Proof.
  intros Hnd Hr [k Hk]%list_elem_of_lookup. rewrite lookup_drop in Hk.
  pose proof (NoDup_lookup _ _ _ _ Hnd Hr Hk). lia.
Qed.

Lemma drop_S_subseteq (l : list ref) i r : r ∈ drop (S i) l -> r ∈ drop i l.
Proof.
  intros [k Hk]%list_elem_of_lookup. rewrite lookup_drop in Hk.
  apply list_elem_of_lookup. exists (S k). rewrite lookup_drop.
  by replace (i + S k)%nat with (S i + k)%nat by lia.
Qed.

Lemma body_called_behind s r s' :
  at_cursor s r -> body container_height ctx r s = Next s' ->
  called_behind s -> called_behind s'.
Proof.
  intros [_ Hr] Hb (Hnd & Hcalls & Hbehind).
  assert (r ∉ drop (S (ls_i s)) (sorted_elements (ls_band s))) as Hfresh
    by by apply not_in_drop_S.
  assert (NoDup (delete (ls_i s) (sorted_elements (ls_band s)))) as Hnd'
    by (eapply sublist_NoDup; [exact Hnd|apply sublist_delete]).
  assert (∀ c, c ∈ ls_calls s -> call_elem c ≠ r) as Hnew.
  { intros c Hc Heq. apply (Hbehind c Hc). rewrite Heq. apply list_elem_of_lookup.
    exists 0%nat. by rewrite lookup_drop, Nat.add_0_r. }
  assert (∀ c, NoDup (call_elem <$> ls_calls s ++ [c]) ↔ call_elem c ∉ call_elem <$> ls_calls s)
    as Hsnoc.
  { intros c. rewrite fmap_app, NoDup_app. simpl. split.
    - intros (_ & Hdis & _) Hin. apply (Hdis _ Hin). by left.
    - intros Hc. split; [done|]. split; [|apply NoDup_singleton].
      intros x Hx ->%list_elem_of_singleton. done. }
  assert (∀ q, q ∉ call_elem <$> ls_calls s ↔ ∀ c, c ∈ ls_calls s -> call_elem c ≠ q)
    as Hnotin.
  { intros q. rewrite list_elem_of_fmap. naive_solver. }
  revert Hb. unfold called_behind.
  body_cases; intros Hb; simplify_eq; simpl;
    rewrite ?drop_delete_same, ?Nat.add_1_r;
    (split; [done|]); (split; [first [done|by apply Hsnoc, Hnotin]|]);
    intros c Hc;
    try (apply elem_of_app in Hc as [Hc|Hc];
         [|apply list_elem_of_singleton in Hc; subst c; simpl]);
    first [ exact Hfresh
          | exact (Hbehind c Hc)
          | intros Hin; apply (Hbehind c Hc); by apply drop_S_subseteq ].
Qed.

Lemma loop_called_behind fuel s p :
  loop fuel container_height ctx s = Some p -> called_behind s ->
  NoDup (call_elem <$> pass_calls p).
Proof.
  revert s. induction fuel as [|fuel IH]; intros s; simpl.
  - destruct (ls_new_page s);
      [|destruct (sorted_elements (ls_band s) !! ls_i s); [done|]];
      intros [= <-] (_ & ? & _); by rewrite finish_calls.
  - destruct (ls_new_page s) eqn:Hnp;
      [intros [= <-] (_ & ? & _); by rewrite finish_calls|].
    destruct (sorted_elements (ls_band s) !! ls_i s) as [r|] eqn:Hr;
      [|intros [= <-] (_ & ? & _); by rewrite finish_calls].
    destruct (body container_height ctx r s) as [s'|p'] eqn:Hb.
    + intros Hloop Hinv. apply (IH s' Hloop). by eapply body_called_behind.
    + intros [= <-] (_ & ? & _). apply body_return_pass in Hb as ->. done.
Qed.

(** X13: In one pass an element is called at most once, be it for a fragment or
    to be finished empty: the pass never comes back to an element. *)
Theorem elements_called_once self σ :
  NoDup (sorted_elements self) ->
  ∃ p, create_render_elements container_height ctx self σ = Some p
       ∧ NoDup (call_elem <$> pass_calls p).
Proof.
  intros Hnd.
  destruct (create_render_elements_total container_height ctx self σ) as [p Hp].
  exists p. split; [done|]. eapply loop_called_behind; [exact Hp|].
  split; [done|]. split; [constructor|]. intros c Hc. by apply elem_of_nil in Hc.
Qed.

(** ** Links cleared at the end of a page *)

Lemma unlinked_refl σ : unlinked σ σ.
Proof. intros q. by left. Qed.

Lemma unlinked_trans σ1 σ2 σ3 : unlinked σ1 σ2 -> unlinked σ2 σ3 -> unlinked σ1 σ3.
Proof.
  intros H12 H23 q. destruct (H12 q) as [E12|E12], (H23 q) as [E23|E23];
    rewrite E23, E12; auto.
Qed.

Lemma unlinked_successors σ σ' q :
  unlinked σ σ' -> Element.successors (σ' q) = Element.successors (σ q).
Proof. intros H. by destruct (H q) as [-> | ->]. Qed.

Lemma unlinked_none σ σ' q :
  unlinked σ σ' -> Element.predecessor (σ q) = None ->
  Element.predecessor (σ' q) = None.
Proof. intros H. by destruct (H q) as [-> | ->]. Qed.

Lemma clear_links σ (successors : list ref) :
  let σ' := foldl (λ σ successor,
              <[successor := Element.with_predecessor None (σ successor)]> σ)
              σ successors in
  unlinked σ σ' ∧ ∀ q, q ∈ successors -> Element.predecessor (σ' q) = None.
Proof.
  revert σ. induction successors as [|su l IH]; intros σ; simpl.
  { split; [apply unlinked_refl|]. intros q Hq. by apply elem_of_nil in Hq. }
  set (σ1 := <[su := Element.with_predecessor None (σ su)]> σ).
  assert (unlinked σ σ1) as H1.
  { intros q. unfold σ1. destruct (decide (su = q)) as [->|Hne].
    - right. by rewrite fn_lookup_insert.
    - left. by rewrite fn_lookup_insert_ne. }
  destruct (IH σ1) as [H2 Hall]. split; [by eapply unlinked_trans|].
  intros q [->|Hq]%elem_of_cons; [|by apply Hall].
  eapply unlinked_none; [exact H2|]. unfold σ1. by rewrite fn_lookup_insert.
Qed.

Lemma clear_all_links σ (processed : list ref) :
  let σ' := foldl clear_successors σ processed in
  unlinked σ σ'
  ∧ ∀ pr su, pr ∈ processed -> su ∈ Element.successors (σ pr) ->
             Element.predecessor (σ' su) = None.
Proof.
  revert σ. induction processed as [|pr0 l IH]; intros σ; simpl.
  { split; [apply unlinked_refl|]. intros pr su Hpr. by apply elem_of_nil in Hpr. }
  destruct (clear_links σ (Element.successors (σ pr0))) as [H1 Hall1].
  fold (clear_successors σ pr0) in H1, Hall1.
  destruct (IH (clear_successors σ pr0)) as [H2 Hall2].
  split; [by eapply unlinked_trans|].
  intros pr su [->|Hpr]%elem_of_cons Hsu.
  - eapply unlinked_none; [exact H2|]. by apply Hall1.
  - apply (Hall2 pr su Hpr). by rewrite (unlinked_successors σ).
Qed.

(** X14: A pass that ends a page with elements still waiting unchains the
    dependents of the elements it finished: an element that was completed
    with a fragment or finished empty in the pass is no longer the
    predecessor of any of its successors, which start afresh on the next
    page.  The pass changes nothing else in the elements once its loop has
    ended. *)
Theorem finished_elements_release_successors self σ :
  ∃ p, create_render_elements container_height ctx self σ = Some p
    ∧ (pass_result p = false ->
       ∃ s, rounds (enter self σ) s
         ∧ unlinked (ls_store s) (pass_store p)
         ∧ ∀ pr su, pr ∈ ls_processed_elements s ->
                    su ∈ Element.successors (ls_store s pr) ->
                    Element.predecessor (pass_store p su) = None).
Proof.
  destruct (create_render_elements_total container_height ctx self σ) as [p Hp].
  exists p. split; [done|].
  destruct (loop_end _ _ _ _ _ Hp) as [(s & Hrounds & ->)|(s & r & _ & _ & Hret)].
  - intros Hres. exists s. split; [done|]. revert Hres. unfold finish.
    destruct (_ <? _)%nat eqn:Hlen; simpl.
    + intros _. apply clear_all_links.
    + apply Nat.ltb_ge in Hlen. intros Hres.
      apply bool_decide_eq_false in Hres. simpl in Hlen, Hres. lia.
  - apply body_return_pass in Hret as ->. done.
Qed.

End Queue.

End QueueFacts.

Module SheetFacts.
Import ReportBand SheetTerms.

Section Sheet.
Context {Priv Frag : Type} `{!ElementOps Priv Frag}.
Implicit Type self : ReportBand.t Frag.
Implicit Type σ : ref -> Element.t Priv.

Lemma render_row_elements ctx σ current_row (l : list ref) row col ws :
  ∃ row', foldl (render_row_element ctx σ current_row) (row, col, ws) l
          = (row', col + foldr (λ r acc, span σ r + acc) 0 l,
             ws ++ side_by_side σ current_row col l)
          ∧ row <= row'.
Proof.
  revert row col ws. induction l as [|r l IH]; intros row col ws; simpl.
  { exists row. rewrite app_nil_r. split; [|lia]. do 2 f_equal. lia. }
  fold (span σ r).
  destruct (IH (Z.max row (elem_render_spreadsheet (σ r) current_row col ctx))
              (col + span σ r) (ws ++ [mkCellWrite r current_row col]))
    as (row' & -> & Hrow).
  exists row'. split; [|lia]. rewrite <- app_assoc. simpl. do 2 f_equal. lia.
Qed.

(** A row of the band: its elements are written side by side from column 0
    on, in the row the band has reached, and the band moves on to a row that
    is not before it. *)
Lemma render_row_writes ctx σ (row_elements : list ref) row ws :
  ∃ row', render_row ctx σ (row, ws) row_elements
          = (row', ws ++ side_by_side σ row 0 row_elements)
          ∧ row <= row'.
Proof.
  unfold render_row.
  destruct (render_row_elements ctx σ row row_elements row 0 ws) as (row' & -> & Hrow).
  by exists row'.
Qed.

Lemma side_by_side_elems σ row col (l : list ref) :
  cw_elem <$> side_by_side σ row col l = l.
Proof. revert col. induction l as [|r l IH]; intros col; simpl; by rewrite ?IH. Qed.

Lemma render_rows_writes ctx σ (ll : list (list ref)) row ws :
  ∃ row' writes,
    foldl (render_row ctx σ) (row, ws) ll = (row', ws ++ writes)
    ∧ cw_elem <$> writes = concat ll
    ∧ row <= row'
    ∧ Forall (λ w, row <= cw_row w <= row') writes.
Proof.
  revert row ws. induction ll as [|l ll IH]; intros row ws; cbn [foldl concat].
  { exists row, []. rewrite app_nil_r. repeat split; [lia|constructor]. }
  destruct (render_row_writes ctx σ l row ws) as (row1 & -> & Hrow1).
  destruct (IH row1 (ws ++ side_by_side σ row 0 l)) as (row' & writes & -> & He & Hrow & Hall).
  exists row', (side_by_side σ row 0 l ++ writes).
  rewrite app_assoc. split; [done|]. rewrite fmap_app, side_by_side_elems, He.
  split; [done|]. split; [lia|]. apply Forall_app. split.
  - assert (row <= row') as Hle by lia. generalize 0. clear -Hle.
    induction l as [|r l IH]; intros col; simpl; constructor;
      [simpl; lia|apply IH].
  - eapply Forall_impl; [exact Hall|]. simpl. intros w Hw. lia.
Qed.

(** X16: [render_spreadsheet] keeps the worksheet it is given and appends one
    write for each sorted element of the band, in the order of the list,
    none of them before the row the band starts at or after the row it
    returns; and the row it returns is not before the row it starts at. *)
Theorem render_spreadsheet_writes_each_element row ctx self σ ws :
  ∃ row' writes,
    render_spreadsheet row ctx self σ ws = (row', ws ++ writes)
    ∧ cw_elem <$> writes = sorted_elements self
    ∧ row <= row'
    ∧ Forall (λ w, row <= cw_row w <= row') writes.
Proof.
  unfold render_spreadsheet.
  destruct (render_rows_writes ctx σ (rows σ (sorted_elements self)) row ws)
    as (row' & writes & -> & He & Hrow & Hall).
  exists row', writes. split; [done|]. split; [|done].
  by rewrite He, PrepareFacts.rows_concat.
Qed.

(** ** Lines and rows *)

Lemma rows_one_line σ (l : list ref) y0 :
  l ≠ [] -> (∀ r, r ∈ l -> Element.y (σ r) = y0) -> rows σ l = [l].
Proof.
  induction l as [|r l IH]; intros Hne Hy; [done|]. simpl.
  destruct l as [|r2 l]; [done|].
  rewrite IH; [|done|intros q Hq; apply Hy; by right].
  rewrite (Hy r) by by left. rewrite (Hy r2) by (right; by left).
  by rewrite Z.eqb_refl.
Qed.

(** X17: Elements that all have the same [y] make one row of the spreadsheet:
    they are written into the row the band starts at, in the order of the
    list, the first at column 0 and each next one as many columns further
    as the one before it spans (its column count for a table, 1
    otherwise). *)
Theorem same_line_side_by_side row ctx self σ ws y0 :
  (∀ r, r ∈ sorted_elements self -> Element.y (σ r) = y0) ->
  (render_spreadsheet row ctx self σ ws).2
  = ws ++ side_by_side σ row 0 (sorted_elements self).
Proof.
  intros Hy. unfold render_spreadsheet.
  destruct (sorted_elements self) as [|r l] eqn:Hl; [simpl; by rewrite app_nil_r|].
  rewrite (rows_one_line σ (r :: l) y0) by done. cbn [foldl].
  by destruct (render_row_writes ctx σ (r :: l) row ws) as (row' & -> & _).
Qed.

Lemma rows_separate σ (l : list ref) :
  separate_lines σ l -> rows σ l = (λ r, [r]) <$> l.
Proof.
  induction l as [|r l IH]; [done|]. intros [Hhead Hrest]. simpl.
  rewrite IH by done. destruct l as [|r2 l]; [done|]. simpl.
  destruct (Z.eqb_spec (Element.y (σ r2)) (Element.y (σ r))); [congruence|done].
Qed.

Lemma render_single_rows ctx σ (l : list ref) row ws :
  ∃ writes,
    (foldl (render_row ctx σ) (row, ws) ((λ r, [r]) <$> l)).2 = ws ++ writes
    ∧ Forall (λ w, cw_col w = 0) writes.
Proof.
  revert row ws. induction l as [|r l IH]; intros row ws.
  { exists []. simpl. by rewrite app_nil_r. }
  rewrite fmap_cons. cbn [foldl].
  replace (render_row ctx σ (row, ws) [r])
    with (Z.max row (elem_render_spreadsheet (σ r) row 0 ctx),
          ws ++ [mkCellWrite r row 0]) by reflexivity.
  destruct (IH (Z.max row (elem_render_spreadsheet (σ r) row 0 ctx))
              (ws ++ [mkCellWrite r row 0])) as (writes & -> & Hall).
  exists (mkCellWrite r row 0 :: writes). rewrite <- app_assoc.
  split; [done|]. by constructor.
Qed.

(** X18: Elements of which no two neighbours have the same [y] are written one
    to a row: every write the band makes is at column 0. *)
Theorem separate_lines_start_at_column_0 row ctx self σ ws :
  separate_lines σ (sorted_elements self) ->
  ∃ writes,
    (render_spreadsheet row ctx self σ ws).2 = ws ++ writes
    ∧ Forall (λ w, cw_col w = 0) writes.
Proof.
  intros Hsep. unfold render_spreadsheet. rewrite rows_separate by done.
  apply render_single_rows.
Qed.

End Sheet.

End SheetFacts.

Module PageFacts.
Import Geometry GeometryTerms GeometryFacts PageTerms.

Section Page.
Variable get_int_value : gmap string JValue -> string -> Z.

Local Abbreviation init := (DocumentProperties_init get_int_value).

Ltac run_lift H :=
  rewrite H; erewrite bind_inr by apply lift_run; cbv beta.

Lemma band_settings_inr data flag display size errs v errs' :
  band_settings get_int_value data flag display size errs = (inr v, errs') ->
  errs' = errs
  ∧ v.1.1 = truthy (get data flag)
  ∧ (v.1.1 = false -> v.1.2 = never ∧ v.2 = 0)
  ∧ (v.1.1 = true -> v.2 = get_int_value data size).
Proof.
  unfold band_settings. destruct (truthy (get data flag)).
  - unfold mbind, M_bind, lift. destruct (enum_of _ _); [done|].
    intros [= <- <-]. done.
  - intros [= <- <-]. done.
Qed.

(** A run of the constructor that returns went through every step. *)
Lemma init_inr data errs dp errs' :
  init data errs = (inr dp, errs') ->
  ∃ name w h unit,
    page_format_name data = inr name
    ∧ enum_of PageFormat_lookup name = inr (page_format dp)
    ∧ enum_of Orientation_lookup (get data "orientation") = inr (orientation dp)
    ∧ page_size get_int_value data (page_format dp) (orientation dp) errs
      = (inr (w, h, unit), errs')
    ∧ page_width dp = to_device unit w
    ∧ page_height dp = to_device unit h
    ∧ pattern_locale dp = get_default data "patternLocale" (JStr "")
    ∧ pattern_locale dp ∈ supported_locales
    ∧ (header dp = false -> header_display dp = never ∧ header_size dp = 0)
    ∧ (footer dp = false -> footer_display dp = never ∧ footer_size dp = 0)
    ∧ header dp = truthy (get data "header")
    ∧ footer dp = truthy (get data "footer")
    ∧ margin_top dp = get_int_value data "marginTop"
    ∧ margin_bottom dp = get_int_value data "marginBottom"
    ∧ content_height dp
      = (if get_int_value data "contentHeight" =? 0
         then page_height dp - header_size dp - footer_size dp
              - margin_top dp - margin_bottom dp
         else get_int_value data "contentHeight").
Proof.
  unfold DocumentProperties_init.
  destruct (page_format_name data) as [e|name] eqn:Hname;
    [by erewrite bind_inl by apply lift_run|].
  erewrite bind_inr by apply lift_run. cbv beta.
  destruct (enum_of PageFormat_lookup name) as [e|fmt] eqn:Hfmt;
    [by erewrite bind_inl by apply lift_run|].
  erewrite bind_inr by apply lift_run. cbv beta.
  destruct (enum_of Orientation_lookup (get data "orientation")) as [e|o] eqn:Ho;
    [by erewrite bind_inl by apply lift_run|].
  erewrite bind_inr by apply lift_run. cbv beta.
  destruct (page_size get_int_value data fmt o errs) as [[e|[[w h] unit]] errs1]
    eqn:Hsize; [by erewrite bind_inl by exact Hsize|].
  erewrite bind_inr by exact Hsize.
  destruct (decide (get_default data "patternLocale" (JStr "") ∉ supported_locales))
    as [Hbad|Hgood]; [done|].
  apply dec_stable in Hgood.
  destruct (band_settings get_int_value data "header" "headerDisplay" "headerSize" errs1)
    as [[e|[[hd hdisp] hsize]] errs2] eqn:Hh; [by erewrite bind_inl by exact Hh|].
  erewrite bind_inr by exact Hh.
  apply band_settings_inr in Hh as (-> & Hhd & Hhoff & _).
  destruct (band_settings get_int_value data "footer" "footerDisplay" "footerSize" errs1)
    as [[e|[[ft fdisp] fsize]] errs2] eqn:Hf; [by erewrite bind_inl by exact Hf|].
  erewrite bind_inr by exact Hf.
  apply band_settings_inr in Hf as (-> & Hft & Hfoff & _).
  intros [= <- <-]. simpl in *. exists name, w, h, unit. done.
Qed.

(** X1: The constructor records at most one error, the one of an invalid page
    size, and none at all unless the description asks for a custom page
    format: whether it returns or raises, the report's error list is the
    one it started from, followed at most by that one record. *)
Theorem at_most_one_page_size_error data errs :
  at_most_page_error errs (init data errs).2
  ∧ (requested_format data ≠ inr user_defined -> (init data errs).2 = errs).
Proof.
  unfold requested_format, at_most_page_error.
  destruct (page_format_name data) as [e|name] eqn:Hname.
  { unfold DocumentProperties_init. rewrite Hname.
    erewrite bind_inl by apply lift_run. by split; [left|]. }
  destruct (enum_of PageFormat_lookup name) as [e|fmt] eqn:Hfmt.
  { unfold DocumentProperties_init. run_lift Hname. rewrite Hfmt.
    erewrite bind_inl by apply lift_run. by split; [left|]. }
  destruct (enum_of Orientation_lookup (get data "orientation")) as [e|o] eqn:Ho.
  { unfold DocumentProperties_init. run_lift Hname. run_lift Hfmt. rewrite Ho.
    erewrite bind_inl by apply lift_run. by split; [left|]. }
  destruct (page_size_run get_int_value data fmt o errs)
    as [(v & errs' & Hsize & Herrs)|[k Hsize]].
  - destruct (init_after_page_size get_int_value data errs name fmt o v errs'
                Hname Hfmt Ho Hsize) as [-> _].
    split; [done|]. intros Hnamed.
    destruct fmt; [| | |done]; unfold page_size in Hsize;
      destruct (decide (o = portrait)); unfold mret, M_ret in Hsize;
      by simplify_eq.
  - unfold DocumentProperties_init. run_lift Hname. run_lift Hfmt. run_lift Ho.
    erewrite bind_inl by exact Hsize. by split; [left|].
Qed.

Lemma check_page_size_decided unit w h errs :
  check_page_size unit w h errs
  = (inr (), if decide (outside_bounds unit w ∨ outside_bounds unit h)
             then errs ++ [invalid_page_size] else errs).
Proof.
  unfold check_page_size.
  destruct (decide (outside_bounds unit w ∨ outside_bounds unit h)) as [Hout|Hout];
    destruct unit; simpl in Hout.
  - by destruct Hout as [[]|[]].
  - destruct (decide (mm = mm)); [|done].
    destruct ((w <? 100) || (w >=? 100000)) eqn:Hw; [done|].
    destruct ((h <? 100) || (h >=? 100000)) eqn:Hh; [done|].
    apply orb_false_iff in Hw, Hh. lia.
  - destruct (decide (inch = mm)); [done|]. destruct (decide (inch = inch)); [|done].
    destruct ((w <? 1) || (w >=? 1000)) eqn:Hw; [done|].
    destruct ((h <? 1) || (h >=? 1000)) eqn:Hh; [done|].
    apply orb_false_iff in Hw, Hh. lia.
  - destruct (decide (pt = mm)); [done|]. by destruct (decide (pt = inch)).
  - destruct (decide (mm = mm)); [|done].
    destruct ((w <? 100) || (w >=? 100000)) eqn:Hw;
      [apply orb_true_iff in Hw; lia|].
    destruct ((h <? 100) || (h >=? 100000)) eqn:Hh;
      [apply orb_true_iff in Hh; lia|done].
  - destruct (decide (inch = mm)); [done|]. destruct (decide (inch = inch)); [|done].
    destruct ((w <? 1) || (w >=? 1000)) eqn:Hw;
      [apply orb_true_iff in Hw; lia|].
    destruct ((h <? 1) || (h >=? 1000)) eqn:Hh;
      [apply orb_true_iff in Hh; lia|done].
Qed.

(** X2: For a custom page format the invalid-page-size record is added exactly
    when the width or the height is outside the bounds of the unit
    (millimetres: 100 up to 99999, inches: 1 up to 999; no bounds for any
    other unit), and it is added once, also when both are outside. *)
Theorem custom_page_error_iff_outside_bounds data errs o unit :
  requested_format data = inr user_defined ->
  enum_of Orientation_lookup (get data "orientation") = inr o ->
  enum_of Unit_lookup (get data "unit") = inr unit ->
  (init data errs).2
  = if decide (outside_bounds unit (get_int_value data "pageWidth")
               ∨ outside_bounds unit (get_int_value data "pageHeight"))
    then errs ++ [invalid_page_size] else errs.
Proof.
  intros Hfmt Ho Hunit. unfold requested_format in Hfmt.
  destruct (page_format_name data) as [|name] eqn:Hname; [done|].
  eapply init_after_page_size; [done..|].
  unfold page_size. erewrite bind_inr by (rewrite Hunit; apply lift_run).
  erewrite bind_inr by apply check_page_size_decided. reflexivity.
Qed.

(** X3: What the constructor returns is consistent: the locale is one of the
    supported ones, a band that is switched off is never displayed and has
    size 0 whatever the description says about it, and a content height of
    0 is replaced by what the page height leaves after both bands and the
    top and bottom margins. *)
Theorem constructed_properties_consistent data errs dp errs' :
  init data errs = (inr dp, errs') ->
  pattern_locale dp ∈ supported_locales
  ∧ (header dp = false -> header_display dp = never ∧ header_size dp = 0)
  ∧ (footer dp = false -> footer_display dp = never ∧ footer_size dp = 0)
  ∧ (get_int_value data "contentHeight" = 0 ->
     margin_top dp + header_size dp + content_height dp + footer_size dp
     + margin_bottom dp = page_height dp)
  ∧ (get_int_value data "contentHeight" ≠ 0 ->
     content_height dp = get_int_value data "contentHeight").
Proof.
  intros Hrun. apply init_inr in Hrun
    as (name & w & h & unit & _ & _ & _ & _ & _ & _ & _ & Hloc & Hh & Hf & _ & _
        & _ & _ & Hcontent).
  split; [done|]. split; [done|]. split; [done|].
  split; intros Hc; rewrite Hcontent.
  - rewrite Hc. simpl. lia.
  - by destruct (Z.eqb_spec (get_int_value data "contentHeight") 0).
Qed.

(** X4: The named page formats in points: A4 is 595 by 842, A5 420 by 595 and
    letter 612 by 792, width and height exchanged for any orientation
    other than portrait; and no error is recorded for them. *)
Theorem named_format_size_in_points data errs dp errs' size :
  init data errs = (inr dp, errs') ->
  named_size (page_format dp) (orientation dp) = Some size ->
  (page_width dp, page_height dp) = size ∧ errs' = errs.
Proof.
  intros Hrun Hsize. apply init_inr in Hrun
    as (name & w & h & unit & _ & _ & _ & Hpage & -> & -> & _).
  unfold named_size in Hsize. unfold page_size in Hpage.
  destruct (page_format dp); [| | |done];
    destruct (decide (orientation dp = portrait));
    unfold mret, M_ret in Hpage; simplify_eq; (split; [|done]);
    vm_compute; reflexivity.
Qed.

Lemma py_round_nearest (q : Q) : nearest (py_round q) q.
Proof.
  unfold nearest, py_round. cbv zeta.
  pose proof (Qfloor_le q) as Hlo. pose proof (Qlt_floor q) as Hhi.
  set (f := Qfloor q) in *.
  assert (inject_Z (f + 1) == inject_Z f + 1)%Q as Hf1
    by (by rewrite inject_Z_plus).
  rewrite Hf1 in Hhi.
  destruct (Qcompare_spec (q - inject_Z f) (1 # 2)) as [Heq|Hlt|Hgt].
  - destruct (Z.even f); [|rewrite Hf1]; apply Qabs_Qle_condition; split; lra.
  - apply Qabs_Qle_condition; split; lra.
  - rewrite Hf1. apply Qabs_Qle_condition; split; lra.
Qed.

Lemma nearest_proper z (q q' : Q) : (q == q')%Q -> nearest z q -> nearest z q'.
Proof. unfold nearest. by intros ->. Qed.

Lemma py_round_integer (q : Q) (z : Z) : (q == inject_Z z)%Q -> py_round q = z.
Proof.
  intros Hq. unfold py_round. cbv zeta.
  rewrite (Qfloor_comp _ _ Hq), Qfloor_Z.
  destruct (Qcompare_spec (q - inject_Z z) (1 # 2)) as [Heq|Hlt|Hgt]; [lra|done|lra].
Qed.

Lemma digits2_size p : digits2_pos p = Pos.size p.
Proof. induction p; simpl; congruence. Qed.

Lemma digits2_bounds p :
  2 ^ (Zpos (digits2_pos p) - 1) <= Zpos p < 2 ^ Zpos (digits2_pos p).
Proof.
  rewrite digits2_size. split.
  - pose proof (Pos.size_le p) as H.
    assert (Zpos (2 ^ Pos.size p) <= Zpos p~0) as H' by exact H.
    rewrite Pos2Z.inj_pow in H'.
    replace (Zpos (Pos.size p)) with (Zpos (Pos.size p) - 1 + 1) in H' by lia.
    rewrite Z.pow_add_r in H' by lia. lia.
  - pose proof (Pos.size_gt p) as H.
    assert (Zpos p < Zpos (2 ^ Pos.size p)) as H' by exact H.
    by rewrite Pos2Z.inj_pow in H'.
Qed.

(** The number of binary digits of a positive number is settled by the powers
    of two it lies between. *)
Lemma digits2_between p d :
  0 < d -> 2 ^ (d - 1) <= Zpos p < 2 ^ d -> Zpos (digits2_pos p) = d.
Proof.
  intros Hd [Hlo Hhi]. destruct (digits2_bounds p) as [Hlo' Hhi'].
  set (k := Zpos (digits2_pos p)) in *.
  assert (0 < k) as Hk by (unfold k; lia).
  destruct (Z.lt_trichotomy k d) as [Hlt|[Heq|Hgt]]; [|done|].
  - assert (2 ^ k <= 2 ^ (d - 1)) by (apply Z.pow_le_mono_r; lia). lia.
  - assert (2 ^ d <= 2 ^ (k - 1)) by (apply Z.pow_le_mono_r; lia). lia.
Qed.

Lemma fexp_normal x : -1021 <= x -> fexp PyFloat.prec PyFloat.emax x = x - 53.
Proof. unfold fexp, emin, PyFloat.prec, PyFloat.emax. lia. Qed.

Lemma shr_m_shr_1 m r s :
  0 <= m -> shr_m (shr_1 (Build_shr_record m r s)) = Z.div2 m.
Proof. by destruct m as [|[p|p|]|]. Qed.

(** Rounding to nearest leaves the mantissa or adds one to it. *)
Lemma round_nearest_even_bounds m l :
  m <= round_nearest_even m l <= m + 1.
Proof. destruct l as [|[]]; simpl; [lia| |lia|lia]. destruct (Z.even m); lia. Qed.

(** The second alignment of [binary_round_aux]: a mantissa of 53 bits is
    kept, the carry [2 ^ 53] is halved. *)
Lemma shr_fexp_rounded m e :
  2 ^ 52 <= m <= 2 ^ 53 -> -1074 <= e ->
  ∃ m' e', shr_fexp PyFloat.prec PyFloat.emax m e loc_Exact = (Build_shr_record (Zpos m') false false, e')
    ∧ e <= e' <= e + 1 ∧ Zpos m' * 2 ^ (e' - e) = m ∧ 2 ^ 52 <= Zpos m' < 2 ^ 53.
Proof.
  intros [Hlo Hhi] He. destruct m as [|p|]; [lia| |lia].
  unfold shr_fexp. cbn [Zdigits2 shr_record_of_loc].
  destruct (decide (Zpos p = 2 ^ 53)) as [Hp|Hp].
  - injection Hp as ->. exists (2 ^ 52)%positive, (e + 1).
    rewrite (digits2_between _ 54) by (vm_compute; done).
    rewrite fexp_normal by lia.
    replace (54 + e - 53 - e) with 1 by lia. cbn.
    replace (e + 1 - e) with 1 by lia. split; [done|]. split; [lia|]. done.
  - exists p, e.
    rewrite (digits2_between _ 53) by (try done; lia).
    rewrite fexp_normal by lia.
    replace (53 + e - 53 - e) with 0 by lia. cbn.
    replace (e - e) with 0 by lia. split; [done|]. split; [lia|]. split; [lia|]. lia.
Qed.

Lemma shr_m_of_loc m l : shr_m (shr_record_of_loc m l) = m.
Proof. by destruct l as [|[]]. Qed.

Lemma loc_of_shr_record_of_loc m l :
  loc_of_shr_record (shr_record_of_loc m l) = l.
Proof. by destruct l as [|[]]. Qed.

(** Rounding a quotient of 53 or 54 bits to a double: the result is finite,
    its exponent at most two above the quotient's, and its value within two
    units of the quotient's last place. *)
Lemma binary_round_aux_bounds q e l :
  2 ^ 52 <= q < 2 ^ 54 -> -1074 <= e <= 900 ->
  ∃ m' e', binary_round_aux PyFloat.prec PyFloat.emax false q e l = S754_finite false m' e'
    ∧ e <= e' <= e + 2
    ∧ q - 1 <= Zpos m' * 2 ^ (e' - e) <= q + 2.
Proof.
  intros [Hlo Hhi] He. unfold binary_round_aux.
  destruct q as [|p|]; [lia| |lia].
  destruct (decide (Zpos p < 2 ^ 53)) as [Hp|Hp].
  - unfold shr_fexp at 1. cbn [Zdigits2].
    rewrite (digits2_between _ 53) by (try done; lia).
    rewrite fexp_normal by lia.
    replace (53 + e - 53 - e) with 0 by lia. cbn [shr].
    rewrite shr_m_of_loc, loc_of_shr_record_of_loc.
    pose proof (round_nearest_even_bounds (Zpos p) l) as Hr.
    destruct (shr_fexp_rounded (round_nearest_even (Zpos p) l) e)
      as (m' & e' & -> & He' & Hm' & _); [lia..|].
    exists m', e'. cbn [shr_m].
    replace (e' <=? PyFloat.emax - PyFloat.prec) with true
      by (symmetry; apply Z.leb_le; unfold PyFloat.emax, PyFloat.prec; lia).
    split; [done|]. split; [lia|]. lia.
  - unfold shr_fexp at 1. cbn [Zdigits2].
    rewrite (digits2_between _ 54) by (try done; lia).
    rewrite fexp_normal by lia.
    replace (54 + e - 53 - e) with 1 by lia. cbn [shr SpecFloat.iter_pos].
    set (mrs := shr_1 (shr_record_of_loc (Zpos p) l)).
    assert (shr_m mrs = Z.div2 (Zpos p)) as Hm.
    { unfold mrs. destruct l as [|[]]; by apply shr_m_shr_1. }
    rewrite Hm.
    pose proof (round_nearest_even_bounds (Z.div2 (Zpos p)) (loc_of_shr_record mrs)) as Hr.
    pose proof (Z.div2_odd (Zpos p)) as Hodd.
    assert (0 <= Z.b2z (Z.odd (Zpos p)) <= 1) as Hb by (destruct (Z.odd (Zpos p)); simpl; lia).
    destruct (shr_fexp_rounded
                (round_nearest_even (Z.div2 (Zpos p)) (loc_of_shr_record mrs)) (e + 1))
      as (m' & e' & -> & He' & Hm' & _); [lia..|].
    exists m', e'. cbn [shr_m].
    replace (e' <=? PyFloat.emax - PyFloat.prec) with true
      by (symmetry; apply Z.leb_le; unfold PyFloat.emax, PyFloat.prec; lia).
    split; [done|]. split; [lia|].
    replace (e' - e) with (e' - (e + 1) + 1) by lia.
    rewrite Z.pow_add_r by lia. lia.
Qed.

Lemma binary_round_aux_exact (m : positive) e :
  2 ^ 52 <= Zpos m < 2 ^ 53 -> -1074 <= e <= 900 ->
  binary_round_aux PyFloat.prec PyFloat.emax false (Zpos m) e loc_Exact = S754_finite false m e.
Proof.
  intros Hm He. unfold binary_round_aux.
  destruct (shr_fexp_rounded (Zpos m) e) as (m' & e' & Hr & He' & Hm' & Hb);
    [lia..|].
  assert (e' = e) as ->.
  { destruct (decide (e' = e)) as [|Hne]; [done|].
    replace (e' - e) with 1 in Hm' by lia. lia. }
  replace (e - e) with 0 in Hm' by lia.
  assert (m' = m) as -> by lia.
  rewrite Hr. cbn [shr_m loc_of_shr_record round_nearest_even]. rewrite Hr.
  cbn [shr_m].
  by replace (e <=? PyFloat.emax - PyFloat.prec) with true
    by (symmetry; apply Z.leb_le; unfold PyFloat.emax, PyFloat.prec; lia).
Qed.

Lemma iter_xO_pow p k : Zpos (Pos.iter xO p k) = Zpos p * 2 ^ Zpos k.
Proof.
  induction k as [|k IH] using Pos.peano_ind; [simpl; lia|].
  rewrite Pos.iter_succ, Pos2Z.inj_xO, IH, Pos2Z.inj_succ, Z.pow_succ_r by lia. lia.
Qed.

(** An integer of at most 52 bits is a double as it is: the mantissa is the
    integer moved up to 53 bits. *)
Lemma of_int_exact n d :
  0 < d <= 52 -> 2 ^ (d - 1) <= n < 2 ^ d ->
  ∃ m, PyFloat.of_int n = Some (S754_finite false m (d - 53))
       ∧ Zpos m = n * 2 ^ (53 - d).
Proof.
  intros Hd Hn. assert (0 < 2 ^ (d - 1)) by (apply Z.pow_pos_nonneg; lia).
  destruct n as [|p|]; [lia| |lia].
  unfold PyFloat.of_int, binary_normalize, binary_round, shl_align.
  rewrite (digits2_between _ d) by (try done; lia).
  rewrite fexp_normal by lia.
  destruct (d + 0 - 53 - 0) as [|k|k] eqn:Hk; [lia|lia|].
  assert (Zpos k = 53 - d) as Hk' by lia.
  assert (2 ^ (d - 1) * 2 ^ (53 - d) = 2 ^ 52) as Hlo
    by (rewrite <- Z.pow_add_r by lia; f_equal; lia).
  assert (2 ^ d * 2 ^ (53 - d) = 2 ^ 53) as Hhi
    by (rewrite <- Z.pow_add_r by lia; f_equal; lia).
  assert (0 < 2 ^ (53 - d)) by (apply Z.pow_pos_nonneg; lia).
  pose proof (iter_xO_pow p k) as Hm. rewrite Hk' in Hm.
  rewrite binary_round_aux_exact by (rewrite ?Hm; nia).
  exists (Pos.iter xO p k). split; [|done]. do 2 f_equal. lia.
Qed.

(** The quotient of two doubles with mantissas of 53 bits: within two units
    of the last place of the integer quotient of the mantissas. *)
Lemma SFdiv_bounds m1 e1 m2 e2 :
  2 ^ 52 <= Zpos m1 < 2 ^ 53 -> 2 ^ 52 < Zpos m2 < 2 ^ 53 ->
  -900 <= e1 - e2 <= 900 ->
  ∃ q m e, SFdiv PyFloat.prec PyFloat.emax (S754_finite false m1 e1) (S754_finite false m2 e2)
           = S754_finite false m e
    ∧ q * Zpos m2 <= Zpos m1 * 2 ^ 53 < (q + 1) * Zpos m2
    ∧ e1 - e2 - 53 <= e <= e1 - e2 - 51
    ∧ q - 1 <= Zpos m * 2 ^ (e - (e1 - e2 - 53)) <= q + 2.
Proof.
  intros Hm1 Hm2 He. unfold SFdiv, SFdiv_core_binary. cbn [Zdigits2 xorb].
  rewrite !(digits2_between _ 53) by (try done; lia).
  rewrite fexp_normal by lia.
  rewrite Z.min_l by lia.
  replace (e1 - e2 - (53 + e1 - (53 + e2) - 53)) with 53 by lia.
  rewrite Z.shiftl_mul_pow2 by lia.
  pose proof (Z_div_mod (Zpos m1 * 2 ^ 53) (Zpos m2) eq_refl) as Hdiv.
  destruct (Z.div_eucl (Zpos m1 * 2 ^ 53) (Zpos m2)) as [q r].
  destruct Hdiv as [Hq Hr].
  destruct (binary_round_aux_bounds q (53 + e1 - (53 + e2) - 53) (new_location (Zpos m2) r))
    as (m & e & Hres & He' & Hm); [nia|lia|].
  exists q, m, e. rewrite Hres. split; [done|]. split; [lia|]. split; [lia|].
  by replace (e - (e1 - e2 - 53)) with (e - (53 + e1 - (53 + e2) - 53)) by lia.
Qed.

(** An integer less than 1/2 away from [q] is what [q] is rounded to. *)
Lemma py_round_unique (q : Q) (z : Z) :
  (Qabs (inject_Z z - q) < 1 # 2)%Q -> py_round q = z.
Proof.
  intros Hz. pose proof (py_round_nearest q) as Hr. unfold nearest in Hr.
  apply Qabs_Qlt_condition in Hz. apply Qabs_Qle_condition in Hr.
  set (r := py_round q) in *.
  assert (inject_Z (r - z) < 1)%Q as H1
    by (unfold Z.sub; rewrite inject_Z_plus, inject_Z_opp; lra).
  assert (inject_Z (z - r) < 1)%Q as H2
    by (unfold Z.sub; rewrite inject_Z_plus, inject_Z_opp; lra).
  change 1%Q with (inject_Z 1) in H1, H2.
  rewrite <- Zlt_Qlt in H1, H2. lia.
Qed.

Lemma float_25_4_eq :
  PyFloat.float_25_4 = S754_finite false 7149464408450662 (-48).
Proof. vm_compute. reflexivity. Qed.

(** The conversion of millimetres in doubles gives the integer the exact
    conversion gives, for every positive size below [2 ^ 48 / 72]: the
    double is within [2 ^ -10] of the exact quotient, and the exact
    quotient, a multiple of 1/127, is at least 1/254 away from a tie. *)
Lemma mm_to_device_exact w :
  double_exact w ->
  PyFloat.mm_to_device w = Some (py_round ((72 # 1) * inject_Z w / (254 # 10))).
Proof.
  intros [Hw Hbig]. unfold PyFloat.mm_to_device.
  set (n := 72 * w) in *.
  set (d := Z.log2 n + 1).
  assert (0 < n) as Hn by lia.
  pose proof (Z.log2_nonneg n) as Hl0.
  destruct (Z.log2_spec n Hn) as [Hlo Hhi].
  assert (Z.log2 n < 48) as Hl by (by apply Z.log2_lt_pow2).
  destruct (of_int_exact n d) as (m1 & -> & Hm1).
  { unfold d. lia. }
  { unfold d. replace (Z.log2 n + 1 - 1) with (Z.log2 n) by lia.
    by replace (Z.log2 n + 1) with (Z.succ (Z.log2 n)) by lia. }
  cbn [mbind option_bind]. rewrite float_25_4_eq.
  set (P := 2 ^ (58 - d)).
  assert (2 ^ 10 <= P) as HP by (apply Z.pow_le_mono_r; unfold d; lia).
  assert (Zpos m1 * 2 ^ 53 = n * P * 2 ^ 48) as Hm1'.
  { rewrite Hm1. unfold P. replace (58 - d) with (53 - d + 5) by lia.
    rewrite Z.pow_add_r by (unfold d; lia). lia. }
  assert (2 ^ 52 <= Zpos m1 < 2 ^ 53) as Hm1b.
  { rewrite Hm1. unfold d.
    replace (53 - (Z.log2 n + 1)) with (52 - Z.log2 n) by lia.
    assert (2 ^ Z.log2 n * 2 ^ (52 - Z.log2 n) = 2 ^ 52) as E1
      by (rewrite <- Z.pow_add_r by lia; f_equal; lia).
    assert (2 ^ Z.succ (Z.log2 n) * 2 ^ (52 - Z.log2 n) = 2 ^ 53) as E2
      by (rewrite <- Z.pow_add_r by lia; f_equal; lia).
    assert (0 < 2 ^ (52 - Z.log2 n)) by (apply Z.pow_pos_nonneg; lia).
    nia. }
  destruct (SFdiv_bounds m1 (d - 53) 7149464408450662 (-48))
    as (q & m & e & -> & Hq & He & Hm); [done|done|unfold d; lia|].
  unfold PyFloat.round, PyFloat.value. destruct e as [|pe|pe]; [unfold d in He; lia..|].
  cbn [fmap option_fmap option_map]. f_equal.
  set (z := py_round ((72 # 1) * inject_Z w / (254 # 10))).
  apply py_round_unique.
  pose proof (py_round_nearest ((72 # 1) * inject_Z w / (254 # 10))) as Hz.
  fold z in Hz. clearbody z. unfold nearest in Hz. apply Qabs_Qle_condition in Hz.
  assert (-63 <= 127 * z - 360 * w <= 63) as Hz'.
  { destruct Hz as [Hz1 Hz2].
    unfold Qle, Qminus, Qplus, Qopp, Qdiv, Qmult, Qinv, inject_Z in Hz1, Hz2.
    simpl in Hz1, Hz2. lia. }
  set (c := 2 ^ (Z.neg pe - (d - 53 - -48 - 53))) in *.
  set (D := 2 ^ Zpos pe).
  assert (P = D * c) as HPD.
  { unfold P, D, c. rewrite <- Z.pow_add_r by lia. f_equal. lia. }
  assert (0 < D) by (apply Z.pow_pos_nonneg; lia).
  assert (0 < c) by (apply Z.pow_pos_nonneg; lia).
  assert (q < 2 ^ 54) as Hq54 by nia.
  assert (-254 < 254 * q - 10 * (n * P) < 256) as Hclose by lia.
  assert (2 * Z.abs (z * D - Zpos m) < D) as Hfin.
  { assert (n * P = 72 * (w * P)) as HnP by (unfold n; ring).
    assert (-63 * P <= (127 * z - 360 * w) * P <= 63 * P) as HzP
      by (split; apply Z.mul_le_mono_nonneg_r; lia).
    replace ((127 * z - 360 * w) * P) with (127 * (z * P) - 360 * (w * P))
      in HzP by ring.
    assert (Z.abs (254 * (z * P) - 254 * (Zpos m * c)) < 127 * P) as H1 by lia.
    rewrite HPD in H1.
    replace (254 * (z * (D * c)) - 254 * (Zpos m * c))
      with (254 * (z * D - Zpos m) * c) in H1 by ring.
    rewrite Z.abs_mul, (Z.abs_eq c), Z.mul_assoc in H1 by lia.
    apply Z.mul_lt_mono_pos_r in H1; lia. }
  apply Qabs_Qlt_condition.
  unfold Qlt, Qminus, Qplus, Qopp, inject_Z. simpl.
  rewrite Pos2Z.inj_pow. fold D. lia.
Qed.

Lemma to_device_in_points unit (v : Z) :
  nearest (to_device unit (inject_Z v)) (in_points unit v)
  ∧ (unit ≠ mm -> to_device unit (inject_Z v) = 72 * v).
Proof.
  unfold to_device, dpi. destruct (decide (unit = mm)) as [->|Hunit].
  - split; [|done]. eapply nearest_proper; [|apply py_round_nearest].
    unfold in_points, Qeq, Qdiv, Qmult, Qinv, inject_Z. simpl. lia.
  - assert (py_round ((72 # 1) * inject_Z v) = 72 * v) as ->.
    { apply py_round_integer. unfold Qeq, Qmult, inject_Z. simpl. lia. }
    split; [|done]. unfold nearest.
    assert (in_points unit v = inject_Z (72 * v)) as -> by by destruct unit.
    apply Qabs_Qle_condition. split; lra.
Qed.

(** Every size in millimetres within the bounds of the size check is in
    that range. *)
Lemma within_bounds_double_exact v : ¬ outside_bounds mm v -> double_exact v.
Proof. unfold outside_bounds, double_exact. intros Hin. lia. Qed.

(** Beyond the range the two conversions part.  At [10 ^ 15] millimetres
    the double is the tie [2834645669291338.5] and rounds to the even
    integer below, while the exact quotient rounds up; and for an integer
    beyond the doubles the source raises. *)
Lemma mm_to_device_beyond :
  PyFloat.mm_to_device (10 ^ 15) = Some 2834645669291338
  ∧ to_device mm (inject_Z (10 ^ 15)) = 2834645669291339
  ∧ PyFloat.mm_to_device (10 ^ 400) = None.
Proof. vm_compute. done. Qed.

Lemma to_device_double unit (v : Z) :
  (unit = mm -> double_exact v) ->
  PyFloat.to_device unit v = Some (to_device unit (inject_Z v)).
Proof.
  intros Hv. unfold PyFloat.to_device, to_device, dpi.
  destruct (decide (unit = mm)) as [Hmm|Hunit].
  - by apply mm_to_device_exact, Hv.
  - f_equal. symmetry. apply py_round_integer.
    unfold Qeq, Qmult, inject_Z. simpl. lia.
Qed.

(** X5: A custom page size in points, as the source computes it in doubles.
    For a size in millimetres from 1 up to [2 ^ 48 / 72], which every
    size within the bounds of the size check is, the double
    [(72 * w) / 25.4] rounds to the integer nearest to the exact quotient,
    and this is the size of the page; a size in any other unit is
    multiplied by 72, in integers. *)
Theorem custom_size_in_points data errs dp errs' unit :
  init data errs = (inr dp, errs') ->
  page_format dp = user_defined ->
  enum_of Unit_lookup (get data "unit") = inr unit ->
  (unit = mm -> double_exact (get_int_value data "pageWidth")
                ∧ double_exact (get_int_value data "pageHeight")) ->
  PyFloat.to_device unit (get_int_value data "pageWidth") = Some (page_width dp)
  ∧ PyFloat.to_device unit (get_int_value data "pageHeight") = Some (page_height dp)
  ∧ nearest (page_width dp) (in_points unit (get_int_value data "pageWidth"))
  ∧ nearest (page_height dp) (in_points unit (get_int_value data "pageHeight"))
  ∧ (unit ≠ mm ->
     page_width dp = 72 * get_int_value data "pageWidth"
     ∧ page_height dp = 72 * get_int_value data "pageHeight").
Proof.
  intros Hrun Hfmt Hunit Hrange. apply init_inr in Hrun
    as (name & w & h & unit' & _ & _ & _ & Hpage & -> & -> & _).
  rewrite Hfmt in Hpage. unfold page_size in Hpage.
  erewrite bind_inr in Hpage by (rewrite Hunit; apply lift_run).
  erewrite bind_inr in Hpage by apply check_page_size_decided.
  unfold mret, M_ret in Hpage. injection Hpage as Hw0 Hh0 Hu0 He0.
  subst w h unit'.
  destruct (to_device_in_points unit (get_int_value data "pageWidth")) as [Hw Hw'].
  destruct (to_device_in_points unit (get_int_value data "pageHeight")) as [Hh Hh'].
  split; [apply to_device_double; intros Hmm; by apply Hrange|].
  split; [apply to_device_double; intros Hmm; by apply Hrange|].
  split; [done|]. split; [done|]. intros Hmm. split; [by apply Hw'|by apply Hh'].
Qed.

(** X6: Names the constructor does not know.  The page format is looked
    up first and the orientation second, before anything is recorded.  A
    page format that is no string has no [lower]: [AttributeError].  A
    page format is looked up in lower case: a string of ASCII characters
    that, in lower case, names no member raises the [KeyError] of the
    name in lower case.  An orientation is looked up as it is written:
    with a page format that is known, a string that names no orientation
    raises the [KeyError] of that string.  The errors of the report are
    left as they were. *)
Theorem unknown_names_raise data errs :
  (¬ is_string (get data "pageFormat") ->
   init data errs = (inl AttributeError, errs))
  ∧ (∀ s e, get data "pageFormat" = JStr s -> is_ascii s = true ->
            PageFormat_lookup (lower s) = inl e ->
            init data errs = (inl (KeyError (lower s)), errs))
  ∧ (∀ s fmt name e, get data "pageFormat" = JStr s ->
            PageFormat_lookup (lower s) = inr fmt ->
            get data "orientation" = JStr name ->
            Orientation_lookup name = inl e ->
            init data errs = (inl (KeyError name), errs)).
Proof.
  unfold DocumentProperties_init. split; [|split].
  - intros Hno.
    assert (page_format_name data = inl AttributeError) as Hname.
    { unfold page_format_name. destruct (get data "pageFormat") as [| | |s]; try done.
      destruct Hno. by exists s. }
    rewrite Hname. by erewrite bind_inl by apply lift_run.
  - intros s e Hs _ He.
    assert (page_format_name data = inr (JStr (lower s))) as Hname
      by (unfold page_format_name; by rewrite Hs).
    rewrite Hname. erewrite bind_inr by apply lift_run. cbv beta.
    assert (e = KeyError (lower s)) as ->
      by (unfold PageFormat_lookup in He; repeat case_match; by simplify_eq).
    cbn [enum_of]. rewrite He. by erewrite bind_inl by apply lift_run.
  - intros s fmt name e Hs Hfmt Hname' He.
    assert (page_format_name data = inr (JStr (lower s))) as Hname
      by (unfold page_format_name; by rewrite Hs).
    rewrite Hname. erewrite bind_inr by apply lift_run. cbv beta.
    cbn [enum_of]. rewrite Hfmt. erewrite bind_inr by apply lift_run. cbv beta.
    assert (e = KeyError name) as ->
      by (unfold Orientation_lookup in He; repeat case_match; by simplify_eq).
    rewrite Hname'. cbn [enum_of]. rewrite He.
    by erewrite bind_inl by apply lift_run.
Qed.

(** X7: The three bands of a report on the properties the constructor
    returns: a band that is not visible has height 0; only the content
    band allows a page break; and when the description leaves the content
    height at 0, the bands and the top and bottom margins fill the page
    height exactly. *)
Theorem bands_fill_the_page {Frag : Type} data errs dp errs' :
  init data errs = (inr dp, errs') ->
  let header_band : ReportBand.t Frag := ReportBand.init BandType.header dp in
  let content_band : ReportBand.t Frag := ReportBand.init BandType.content dp in
  let footer_band : ReportBand.t Frag := ReportBand.init BandType.footer dp in
  (∀ band, let b : ReportBand.t Frag := ReportBand.init band dp in
           (ReportBand.is_visible dp b = false -> ReportBand.height b = 0)
           ∧ (ReportBand.allow_page_break b = true ↔ band = BandType.content))
  ∧ (get_int_value data "contentHeight" = 0 ->
     margin_top dp + ReportBand.height header_band + ReportBand.height content_band
     + ReportBand.height footer_band + margin_bottom dp = page_height dp).
Proof.
  intros Hrun. apply init_inr in Hrun
    as (name & w & h & unit & _ & _ & _ & _ & _ & _ & _ & _ & Hh & Hf & _ & _
        & _ & _ & Hcontent).
  split.
  - intros [] b; unfold b, ReportBand.is_visible; simpl.
    + split; [intros Hoff; by apply Hh|done].
    + split; [done|done].
    + split; [intros Hoff; by apply Hf|done].
  - intros Hc. simpl. rewrite Hcontent, Hc. simpl. lia.
Qed.

End Page.

End PageFacts.

Module PagesFacts.
Import ReportBand DocumentPDFRenderer PassTerms PassFacts PDFFacts QueueTerms QueueFacts PagesTerms.

Section Pages.
Context {Priv Frag : Type} `{!ElementOps Priv Frag}.
Implicit Type self : DocumentPDFRenderer.t (Priv := Priv) (Frag := Frag).
Implicit Type l : list (RenderElement Frag).

Lemma fragments_app l l' : fragments (l ++ l') = fragments l ++ fragments l'.
Proof. induction l as [|[f|] l IH]; simpl; [done| |done]. by rewrite IH. Qed.

Lemma fragments_fmap (fs : list Frag) : fragments (Fragment <$> fs) = fs.
Proof. induction fs as [|f fs IH]; csimpl; [done|]. by rewrite IH. Qed.

Lemma page_breaks_app l l' : page_breaks (l ++ l') = (page_breaks l + page_breaks l')%nat.
Proof. induction l as [|[f|] l IH]; simpl; [done|done|]. by rewrite IH. Qed.

Lemma page_breaks_fmap (fs : list Frag) : page_breaks (Fragment <$> fs) = 0%nat.
Proof. induction fs as [|f fs IH]; csimpl; [done|]. by rewrite IH. Qed.

(** Every queue is a run of fragments followed by nothing or by a page
    break and the rest. *)
Lemma queue_split l :
  ∃ (fs : list Frag) tail, l = (Fragment <$> fs) ++ tail ∧ at_boundary tail.
Proof.
  induction l as [|[f|] l IH].
  - by exists [], [].
  - destruct IH as (fs & tail & -> & Htail). by exists (f :: fs), tail.
  - by exists [], (PageBreak :: l).
Qed.

Lemma boundary_fragments (tail : list (RenderElement Frag)) :
  at_boundary tail -> fragments (drop 1 tail) = fragments tail.
Proof. by destruct tail as [|[f|] tail]. Qed.

Lemma render_pdf_page offset_x offset_y cleanup (band : ReportBand.t Frag)
    page released :
  ∃ (fs : list Frag) tail,
    render_elements band = (Fragment <$> fs) ++ tail ∧ at_boundary tail
    ∧ render_pdf offset_x offset_y cleanup band page released
      = (with_render_elements (drop 1 tail) band,
         page ++ (drawn offset_x offset_y <$> fs),
         if cleanup then released ++ fs else released).
Proof.
  destruct (queue_split (render_elements band)) as (fs & tail & Hq & Htail).
  exists fs, tail. split; [done|]. split; [done|].
  unfold render_pdf. rewrite Hq.
  rewrite render_pdf_loop_page by done. f_equal. f_equal. f_equal.
  rewrite Nat.add_0_l, drop_app_add'; [|by rewrite length_fmap].
  destruct tail; [by rewrite !drop_nil|done].
Qed.

(** Drawing header or footer releases nothing. *)
Lemma render_fixed_band_released (band : ReportBand.t Frag) size offset_x offset_y
    ctx (σ : ref -> Element.t Priv) page released band' σ' page' released' :
  render_fixed_band band size offset_x offset_y ctx σ page released
  = Some (band', σ', page', released') ->
  released' = released.
Proof.
  unfold render_fixed_band.
  destruct (ReportBand.prepare ctx true false band σ) as [band1 σ1].
  destruct (ReportBand.create_render_elements size ctx band1 σ1) as [p|]; [|done].
  destruct (render_pdf_page offset_x offset_y false (pass_band p) page released)
    as (fs & tail & _ & _ & ->).
  by intros [= _ _ _ <-].
Qed.

(** What a round of the page loop does to the content band and the
    counters. *)
Lemma render_page_content watermark_width watermark_height footer_offset_y self self' :
  render_page watermark_width watermark_height footer_offset_y self = Some self' ->
  ∃ (fs : list Frag) tail,
    render_elements (content_band self) = (Fragment <$> fs) ++ tail
    ∧ at_boundary tail
    ∧ render_elements (content_band self') = drop 1 tail
    ∧ sorted_elements (content_band self') = sorted_elements (content_band self)
    ∧ released self' = released self ++ fs
    ∧ pages_added self self' = 1
    ∧ page_number (context self') = page_number (context self) + 1
    ∧ page_count (context self') = page_count (context self).
Proof.
  unfold render_page.
  set (self1 := add_page self).
  set (dp := document_properties self1).
  set (doc := if add_watermark self1 then _ else _).
  assert (length doc = S (length (pdf_doc self))) as Hdoc.
  { unfold doc. simpl. destruct (add_watermark self); [|done].
    by destruct (Qlt_le_dec _ _). }
  set (with_header := if displayed (Geometry.header_display dp) _ then _ else _).
  assert (match with_header with
          | Some (_, _, _, _, rel) => rel = released self
          | None => True
          end) as Hh.
  { unfold with_header. destruct (displayed _ _); [|done].
    destruct (render_fixed_band _ _ _ _ _ _ _ _) as [[[[band σ'] page'] released']|]
      eqn:Hfixed; [|done].
    by apply render_fixed_band_released in Hfixed. }
  destruct with_header as [[[[[y1 hb] σ1] page1] released1]|]; [|done]. subst released1.
  set (with_footer := if displayed (Geometry.footer_display dp) _ then _ else _).
  assert (match with_footer with
          | Some (_, _, _, rel) => rel = released self
          | None => True
          end) as Hf.
  { unfold with_footer. destruct (displayed _ _); [|done].
    destruct (render_fixed_band _ _ _ _ _ _ _ _) as [[[[band σ'] page'] released']|]
      eqn:Hfixed; [|done].
    by apply render_fixed_band_released in Hfixed. }
  destruct with_footer as [[[[fb σ2] page2] released2]|]; [|done]. subst released2.
  destruct (render_pdf_page (Geometry.margin_left dp) y1 true
              (content_band self1) page2 (released self))
    as (fs & tail & Hq & Htail & ->).
  intros [= <-]. exists fs, tail. simpl in *.
  split; [done|]. split; [done|]. split; [done|]. split; [done|]. split; [done|].
  split; [|done]. unfold pages_added. simpl.
  destruct doc; simpl in *; [done|lia].
Qed.

(** The page loop, from any state it is entered in: it releases the
    fragments of the queue, in order, leaves the queue empty, and adds as
    many pages as the queue has page breaks, or one more. *)
Lemma pages_run fuel watermark_width watermark_height footer_offset_y self self' :
  pages fuel watermark_width watermark_height footer_offset_y self = Done self' ->
  0 <= page_number (context self) ->
  let queue := render_elements (content_band self) in
  released self' = released self ++ fragments queue
  ∧ render_elements (content_band self') = []
  ∧ sorted_elements (content_band self') = sorted_elements (content_band self)
  ∧ page_count (context self') = page_count (context self)
  ∧ page_number (context self') = page_number (context self) + pages_added self self'
  ∧ Z.of_nat (page_breaks queue) <= pages_added self self'
    <= Z.of_nat (page_breaks queue) + 1
  ∧ (0 < page_number (context self) -> queue = [] -> pages_added self self' = 0)
  ∧ (page_number (context self) = 0 -> 1 <= pages_added self self').
Proof.
  assert (∀ s0,
            negb (bool_decide (length (render_elements (content_band s0)) = 0%nat))
            || (page_number (context s0) =? 0) = false ->
            Done s0 = Done self' -> 0 <= page_number (context s0) ->
            let queue := render_elements (content_band s0) in
            released self' = released s0 ++ fragments queue
            ∧ render_elements (content_band self') = []
            ∧ sorted_elements (content_band self') = sorted_elements (content_band s0)
            ∧ page_count (context self') = page_count (context s0)
            ∧ page_number (context self')
              = page_number (context s0) + pages_added s0 self'
            ∧ Z.of_nat (page_breaks queue) <= pages_added s0 self'
              <= Z.of_nat (page_breaks queue) + 1
            ∧ (0 < page_number (context s0) -> queue = [] ->
               pages_added s0 self' = 0)
            ∧ (page_number (context s0) = 0 -> 1 <= pages_added s0 self'))
    as Hstop.
  { intros s0 Hcond [= <-] Hnum. apply orb_false_iff in Hcond as [Hfin Hzero].
    apply negb_false_iff, bool_decide_eq_true in Hfin.
    apply length_zero_iff_nil in Hfin. apply Z.eqb_neq in Hzero.
    rewrite Hfin. unfold pages_added. simpl. rewrite app_nil_r.
    repeat split; try done; lia. }
  revert self. induction fuel as [|fuel IH]; intros self; cbn [pages];
    unfold is_finished at 1, ReportBand.is_finished, get_page_number;
    destruct (negb _ || _) eqn:Hcond; [done|by apply Hstop| |by apply Hstop].
  destruct (render_page watermark_width watermark_height footer_offset_y self)
    as [self1|] eqn:Hpage; [|done].
  intros Hrun Hnum.
  apply render_page_content in Hpage
    as (fs & tail & Hq & Htail & Hq1 & Hs1 & Hr1 & Hadd1 & Hn1 & Hc1).
  destruct (IH self1 Hrun) as (Hr & Hq' & Hs & Hc & Hn & Hpb & Hnone & _); [lia|].
  rewrite Hq1 in Hr, Hpb, Hnone. rewrite Hq. cbv zeta.
  assert (pages_added self self' = 1 + pages_added self1 self') as Hadd
    by (unfold pages_added in *; lia).
  rewrite fragments_app, fragments_fmap, page_breaks_app, page_breaks_fmap.
  split; [by rewrite Hr, Hr1, boundary_fragments, <- app_assoc|].
  split; [done|]. split; [congruence|]. split; [congruence|]. split; [lia|].
  split; [|split; [|lia]].
  - destruct tail as [|[f|] tail]; [|done|];
      cbn [drop page_breaks] in Hpb, Hnone |- *; [|rewrite drop_0 in Hpb; lia].
    rewrite Hnone in Hadd by (done || lia). lia.
  - intros Hpos Hnil. apply orb_true_iff in Hcond as [Hfin|Hzero].
    + apply negb_true_iff, bool_decide_eq_false in Hfin.
      rewrite Hq, Hnil in Hfin. done.
    + apply Z.eqb_eq in Hzero. lia.
Qed.

Lemma closing_page_breaks (done : bool) :
  page_breaks (closing (Frag := Frag) done) = if done then 0%nat else 1%nat.
Proof. by destruct done. Qed.

(** The sizing loop queues one page break for every page it counts but the
    last, and it ends with no sorted element left. *)
Lemma sizing_queue fuel dp ctx count (band : ReportBand.t Frag)
    (σ : ref -> Element.t Priv) calls count' band' σ' calls' :
  sizing fuel dp ctx count band σ calls
  = (Done (count', band', σ'), calls') ->
  Z.of_nat (page_breaks (render_elements band'))
  = Z.of_nat (page_breaks (render_elements band)) + (count' - count)
  ∧ sorted_elements band' = [].
Proof.
  revert count band σ calls.
  induction fuel as [|fuel IH]; intros count band σ calls; cbn [sizing]; [done|].
  destruct (create_render_elements_queues (content_height dp count) ctx band σ)
    as (p & fs & -> & Hq & Hdone & _).
  destruct (pass_result p) eqn:Hres.
  - intros [= <- <- <- <-]. rewrite Hq, !page_breaks_app, page_breaks_fmap. simpl.
    split; [lia|by apply Hdone].
  - destruct (count + 1 >=? 10000); [done|].
    intros Hrun. apply IH in Hrun as [Hpb Hsorted]. split; [|done].
    rewrite Hpb, Hq, !page_breaks_app, page_breaks_fmap. simpl. lia.
Qed.

Lemma prepare_pdf_queue ctx only_verify (band : ReportBand.t Frag)
    (σ : ref -> Element.t Priv) :
  render_elements (prepare ctx true only_verify band σ).1 = [].
Proof. unfold prepare. by destruct (foldl _ _ _). Qed.

(** [render], once the pages are counted. *)
Lemma render_run watermark_exists self count (content : ReportBand.t Frag)
    (σ : ref -> Element.t Priv) :
  page_number (context self) = 0 ->
  counted self = Done (count, content, σ) ->
  ∃ self',
    render watermark_exists self = Done self'
    ∧ released self' = released self ++ fragments (render_elements content)
    ∧ render_elements (content_band self') = []
    ∧ sorted_elements (content_band self') = []
    ∧ page_count (context self') = count
    ∧ page_number (context self') = pages_added self self'
    ∧ 1 <= pages_added self self'
    ∧ count - 1 <= pages_added self self' <= count.
Proof.
  intros Hzero. unfold counted, render.
  destruct (if add_watermark self then _ else _) as [[wm ww] wh].
  pose proof (prepare_pdf_queue (context self) false (content_band self) (store self))
    as Hq0.
  destruct (ReportBand.prepare (context self) true false (content_band self)
              (store self)) as [content0 σ0]. simpl in Hq0.
  destruct (sizing _ _ _ _ _ _ _) as [out calls] eqn:Hsizing. cbn [fst].
  intros ->. apply sizing_queue in Hsizing as [Hpb Hsorted].
  rewrite Hq0 in Hpb. simpl in Hpb.
  match goal with
  | |- context [pages (S ?n) ?a ?b ?c ?x] =>
      destruct (pages_first n a b c x) as (self1 & Hrun & _); [done|done|];
      rewrite Hrun; apply pages_run in Hrun; [|simpl; lia]
  end.
  simpl in Hrun. destruct Hrun as (Hr & Hq & Hs & Hc & Hn & Hadd & _ & Hone).
  eexists. split; [done|]. unfold pages_added in *. simpl in *.
  rewrite Hzero in Hn, Hone. specialize (Hone eq_refl).
  split; [done|]. split; [done|]. split; [congruence|]. split; [done|].
  split; [lia|]. split; lia.
Qed.

(** X19: [render] releases what it drew of the content band: when the pages
    have been counted without reaching the cap, [render] returns, having
    released every fragment the content band queued, each once and in the
    order queued, and nothing else; the content band is left with an
    empty queue and no sorted element, and the context holds the page
    count. *)
Theorem render_releases_content watermark_exists self count
    (content : ReportBand.t Frag) (σ : ref -> Element.t Priv) :
  page_number (context self) = 0 ->
  counted self = Done (count, content, σ) ->
  ∃ self',
    render watermark_exists self = Done self'
    ∧ released self' = released self ++ fragments (render_elements content)
    ∧ render_elements (content_band self') = []
    ∧ sorted_elements (content_band self') = []
    ∧ page_count (context self') = count.
Proof.
  intros Hzero Hcounted.
  destruct (render_run watermark_exists self count content σ Hzero Hcounted)
    as (self' & Hrun & Hr & Hq & Hs & Hc & _).
  by exists self'.
Qed.

(** X20: The pages [render] adds against the page count it announces: started
    with the page counter at zero, a [render] that returns has added at
    least one page, the page counter stands at the number of pages added,
    and the page count in the context is that number or one more. *)
Theorem pages_against_page_count watermark_exists self self' :
  page_number (context self) = 0 ->
  render watermark_exists self = Done self' ->
  1 <= pages_added self self'
  ∧ page_number (context self') = pages_added self self'
  ∧ pages_added self self' <= page_count (context self')
    <= pages_added self self' + 1.
Proof.
  intros Hzero Hrun.
  destruct (counted self) as [[[count content] σ]|e|] eqn:Hcounted.
  - destruct (render_run watermark_exists self count content σ Hzero Hcounted)
      as (self'' & Hrun' & _ & _ & _ & Hc & Hn & Hone & Hadd).
    rewrite Hrun in Hrun'. injection Hrun' as <-. lia.
  - exfalso. revert Hrun Hcounted. unfold counted, render.
    destruct (if add_watermark self then _ else _) as [[wm ww] wh].
    destruct (ReportBand.prepare _ _ _ _ _) as [content0 σ0].
    intros Hrun Hc. by rewrite Hc in Hrun.
  - exfalso. revert Hrun Hcounted. unfold counted, render.
    destruct (if add_watermark self then _ else _) as [[wm ww] wh].
    destruct (ReportBand.prepare _ _ _ _ _) as [content0 σ0].
    intros Hrun Hc. by rewrite Hc in Hrun.
Qed.

(** What drawing header or footer adds to the page. *)
Lemma render_fixed_band_draws (band : ReportBand.t Frag) size offset_x offset_y
    ctx (σ : ref -> Element.t Priv) page released :
  ∃ band' σ' (fs : list Frag),
    render_fixed_band band size offset_x offset_y ctx σ page released
    = Some (band', σ', page ++ (drawn offset_x offset_y <$> fs), released).
Proof.
  unfold render_fixed_band.
  destruct (ReportBand.prepare ctx true false band σ) as [band1 σ1].
  destruct (create_render_elements_total size ctx band1 σ1) as [p ->].
  destruct (render_pdf_page offset_x offset_y false (pass_band p) page released)
    as (fs & tail & _ & _ & ->).
  by eexists _, _, fs.
Qed.

(** X29: What a page holds, in the order drawn: the watermark image if there is
    one, then the fragments of the header at the left and top margins, the
    fragments of the footer at the footer's offset, and the fragments of
    the content band below the header, at the top margin plus the header
    size when the header is displayed on this page and at the top margin
    otherwise.  Header and footer are drawn only when their display policy
    admits the page.  The height the content band was given for the page
    ends where the footer begins, or at the bottom margin when the footer
    is not displayed. *)
Theorem page_layout watermark_width watermark_height footer_offset_y self :
  let dp := document_properties self in
  let number := page_number (context self) + 1 in
  let with_header := displayed (Geometry.header_display dp) number in
  let with_footer := displayed (Geometry.footer_display dp) number in
  let top :=
    Geometry.margin_top dp + (if with_header then Geometry.header_size dp else 0) in
  ∃ self' image (header_fragments footer_fragments content_fragments : list Frag),
    render_page watermark_width watermark_height footer_offset_y self = Some self'
    ∧ pdf_doc self'
      = (image
         ++ (drawn (Geometry.margin_left dp) (Geometry.margin_top dp)
               <$> header_fragments)
         ++ (drawn (Geometry.margin_left dp) footer_offset_y <$> footer_fragments)
         ++ (drawn (Geometry.margin_left dp) top <$> content_fragments))
        :: pdf_doc self
    ∧ (image = [] ∨ ∃ x y, image = [Image x y watermark_width watermark_height])
    ∧ (add_watermark self = false -> image = [])
    ∧ (with_header = false -> header_fragments = [])
    ∧ (with_footer = false -> footer_fragments = [])
    ∧ top + content_height dp number
      = Geometry.page_height dp - Geometry.margin_bottom dp
        - (if with_footer then Geometry.footer_size dp else 0).
Proof.
  intros dp number with_header with_footer top. unfold render_page.
  set (self1 := add_page self).
  change (document_properties self1) with dp.
  change (get_page_number (context self1)) with number.
  fold with_header with_footer.
  set (doc := if add_watermark self1 then _ else _).
  assert (∃ image, doc = image :: pdf_doc self
                   ∧ (image = [] ∨ ∃ x y, image = [Image x y watermark_width
                                                     watermark_height])
                   ∧ (add_watermark self = false -> image = []))
    as (image & -> & Himage & Hnone).
  { unfold doc. simpl. destruct (add_watermark self); [|by exists []; auto].
    destruct (Qlt_le_dec _ _); [|by exists []; auto].
    eexists. split; [reflexivity|]. split; [right; by eexists _, _|done]. }
  cbn [current_page].
  assert (∃ hb σ1 (hfs : list Frag),
            (if with_header then
               match render_fixed_band (header_band self1) (Geometry.header_size dp)
                       (Geometry.margin_left dp) (Geometry.margin_top dp)
                       (context self1) (store self1) image (released self1) with
               | Some (band, σ, page, rel) =>
                   Some (Geometry.margin_top dp + Geometry.header_size dp,
                         band, σ, page, rel)
               | None => None
               end
             else Some (Geometry.margin_top dp, header_band self1, store self1,
                        image, released self1))
            = Some (top, hb, σ1,
                    image ++ (drawn (Geometry.margin_left dp) (Geometry.margin_top dp)
                                <$> hfs),
                    released self1)
            ∧ (with_header = false -> hfs = [])) as (hb & σ1 & hfs & -> & Hhfs).
  { unfold top. destruct with_header.
    - destruct (render_fixed_band_draws (header_band self1) (Geometry.header_size dp)
                  (Geometry.margin_left dp) (Geometry.margin_top dp) (context self1)
                  (store self1) image (released self1)) as (hb & σ1 & hfs & ->).
      by exists hb, σ1, hfs.
    - exists (header_band self1), (store self1), []. simpl.
      by rewrite app_nil_r, Z.add_0_r. }
  assert (∃ fb σ2 (ffs : list Frag),
            (if with_footer then
               render_fixed_band (footer_band self1) (Geometry.footer_size dp)
                 (Geometry.margin_left dp) footer_offset_y (context self1) σ1
                 (image ++ (drawn (Geometry.margin_left dp) (Geometry.margin_top dp)
                              <$> hfs)) (released self1)
             else Some (footer_band self1, σ1,
                        image ++ (drawn (Geometry.margin_left dp)
                                    (Geometry.margin_top dp) <$> hfs),
                        released self1))
            = Some (fb, σ2,
                    (image ++ (drawn (Geometry.margin_left dp) (Geometry.margin_top dp)
                                 <$> hfs))
                    ++ (drawn (Geometry.margin_left dp) footer_offset_y <$> ffs),
                    released self1)
            ∧ (with_footer = false -> ffs = [])) as (fb & σ2 & ffs & -> & Hffs).
  { destruct with_footer.
    - destruct (render_fixed_band_draws (footer_band self1) (Geometry.footer_size dp)
                  (Geometry.margin_left dp) footer_offset_y (context self1) σ1
                  (image ++ (drawn (Geometry.margin_left dp) (Geometry.margin_top dp)
                               <$> hfs)) (released self1)) as (fb & σ2 & ffs & ->).
      by exists fb, σ2, ffs.
    - exists (footer_band self1), σ1, []. simpl. by rewrite app_nil_r. }
  destruct (render_pdf_page (Geometry.margin_left dp) top true (content_band self1)
              ((image ++ (drawn (Geometry.margin_left dp) (Geometry.margin_top dp)
                            <$> hfs))
               ++ (drawn (Geometry.margin_left dp) footer_offset_y <$> ffs))
              (released self1)) as (cfs & tail & _ & _ & ->).
  eexists _, image, hfs, ffs, cfs. split; [reflexivity|]. simpl.
  split; [by rewrite <- !app_assoc|]. split; [done|]. split; [done|].
  split; [done|]. split; [done|].
  unfold top, content_height. fold with_header with_footer.
  destruct with_header, with_footer; lia.
Qed.

End Pages.

End PagesFacts.

Module WorkbookFacts.
Import ReportBand DocumentXLSXRenderer PrepareTerms PrepareFacts SheetTerms SheetFacts XLSXFacts WorkbookTerms.

Section Workbook.
Context {Priv Frag : Type} `{!ElementOps Priv Frag}.
Implicit Type self : DocumentXLSXRenderer.t (Priv := Priv) (Frag := Frag).
Implicit Type σ : ref -> Element.t Priv.

Lemma prepare_elements_elsewhere ctx pdf_doc only_verify (band : ReportBand.t Frag)
    (l : list ref) σ acc q :
  q ∉ l ->
  (foldl (prepare_element ctx pdf_doc only_verify band) (σ, acc) l).1 q = σ q.
Proof.
  revert σ acc. induction l as [|a l IH]; intros σ acc Hq; cbn [foldl]; [done|].
  apply not_elem_of_cons in Hq as [Hqa Hq].
  destruct (prepare_element ctx pdf_doc only_verify band (σ, acc) a)
    as [σ1 acc1] eqn:Hstep.
  rewrite IH by done. unfold prepare_element in Hstep.
  destruct (_ || _); simplify_eq; [|done]. by rewrite fn_lookup_insert_ne.
Qed.

(** Preparing a band for a spreadsheet touches no element outside the
    band. *)
Lemma prepare_elsewhere ctx only_verify (band : ReportBand.t Frag) σ q :
  q ∉ doc_elements band -> (prepare ctx false only_verify band σ).2 q = σ q.
Proof.
  intros Hq. unfold prepare.
  pose proof (prepare_elements_elsewhere ctx false only_verify band
                (doc_elements band) σ [] q Hq) as Hsame.
  by destruct (foldl _ _ _) as [σ1 l1].
Qed.

Lemma prepare_doc_elements ctx pdf_doc only_verify (band : ReportBand.t Frag) σ :
  doc_elements (prepare ctx pdf_doc only_verify band σ).1 = doc_elements band.
Proof. unfold prepare. destruct (foldl _ _ _). by destruct pdf_doc. Qed.

(** One band of the spreadsheet. *)
Lemma render_band_effect which self :
  ∃ writes,
    worksheet (render_band which self) = worksheet self ++ writes
    ∧ row self <= row (render_band which self)
    ∧ within_rows (row self) (row (render_band which self)) writes
    ∧ (∀ r, r ∈ cw_elem <$> writes
            ↔ r ∈ doc_elements (get_band which self)
              ∧ Element.spreadsheet_hide (store self r) = false)
    ∧ (∀ q, q ∉ doc_elements (get_band which self) ->
            store (render_band which self) q = store self q)
    ∧ (∀ other, doc_elements (get_band other (render_band which self))
                = doc_elements (get_band other self)).
Proof.
  unfold render_band.
  pose proof (prepare_sorted_elements (context self) false false
                (get_band which self) (store self)) as Hsel.
  pose proof (prepare_elsewhere (context self) false (get_band which self)
                (store self)) as Helse.
  pose proof (prepare_doc_elements (context self) false false (get_band which self)
                (store self)) as Hdoc.
  destruct (prepare _ _ _ _ _) as [band σ]. simpl in Hsel, Helse, Hdoc.
  unfold render_spreadsheet.
  destruct (render_rows_writes (context self) σ (rows σ (sorted_elements band))
              (row self) (worksheet self)) as (row' & writes & -> & He & Hrow & Hall).
  rewrite rows_concat in He.
  exists writes.
  assert (∀ r, r ∈ cw_elem <$> writes
               ↔ r ∈ doc_elements (get_band which self)
                 ∧ Element.spreadsheet_hide (store self r) = false) as Hmem.
  { intros r. rewrite He, Hsel. unfold selected. simpl.
    rewrite orb_false_r, negb_true_iff. done. }
  destruct which; simpl;
    (split; [done|]; split; [done|]; split; [done|]; split; [exact Hmem|];
     split; [exact Helse|]; by intros []).
Qed.

(** X21: The spreadsheet renderer keeps the cells the worksheet has and only
    adds to them; every cell it adds holds an element of one of the three
    bands and lies between the row the renderer starts at and the row it
    ends at; and every element of the content band that is not hidden is
    written, whatever the display policies say (provided the header band
    does not hold the same element). *)
Theorem render_writes_content self :
  ∃ writes,
    worksheet (render self) = worksheet self ++ writes
    ∧ row self <= row (render self)
    ∧ within_rows (row self) (row (render self)) writes
    ∧ (∀ r, r ∈ cw_elem <$> writes -> in_report self r)
    ∧ (∀ r, r ∈ doc_elements (content_band self) ->
            r ∉ doc_elements (header_band self) ->
            Element.spreadsheet_hide (store self r) = false ->
            r ∈ cw_elem <$> writes).
Proof.
  rewrite render_bands. case_bool_decide as Hnever.
  - destruct (render_band_effect BandType.content self)
      as (writes & Hw & Hrow & Hall & Hmem & _).
    exists writes. split; [done|]. split; [done|]. split; [done|]. split.
    + intros r Hr. exists BandType.content. by apply Hmem.
    + intros r Hr _ Hshown. by apply Hmem.
  - destruct (render_band_effect BandType.header self)
      as (w1 & Hw1 & Hrow1 & Hall1 & Hmem1 & Hstore1 & Hdoc1).
    set (self1 := render_band BandType.header self) in *.
    destruct (render_band_effect BandType.content self1)
      as (w2 & Hw2 & Hrow2 & Hall2 & Hmem2 & Hstore2 & Hdoc2).
    set (self2 := render_band BandType.content self1) in *.
    destruct (render_band_effect BandType.footer self2)
      as (w3 & Hw3 & Hrow3 & Hall3 & Hmem3 & _ & _).
    set (self3 := render_band BandType.footer self2) in *.
    exists (w1 ++ w2 ++ w3).
    split; [by rewrite Hw3, Hw2, Hw1, <- !app_assoc|]. split; [lia|].
    unfold within_rows in *. split; [|split].
    + rewrite !Forall_app. repeat split;
        (eapply Forall_impl; [eassumption|]); simpl; intros w Hw; lia.
    + intros r. rewrite !fmap_app, !elem_of_app.
      intros [Hr|[Hr|Hr]].
      * exists BandType.header. by apply Hmem1.
      * exists BandType.content. apply Hmem2 in Hr as [Hr _].
        by rewrite (Hdoc1 BandType.content) in Hr.
      * exists BandType.footer. apply Hmem3 in Hr as [Hr _].
        by rewrite (Hdoc2 BandType.footer), (Hdoc1 BandType.footer) in Hr.
    + intros r Hr Hhead Hshown. rewrite !fmap_app, !elem_of_app.
      right; left. apply Hmem2. split.
      * by rewrite (Hdoc1 BandType.content).
      * by rewrite Hstore1.
Qed.

End Workbook.

End WorkbookFacts.

Module FontFacts.
Import FPDFRB FontTerms.

Lemma styles_cases (s : string) :
  s ∈ styles -> s = "" ∨ s = "B" ∨ s = "I" ∨ s = "BI".
Proof.
  unfold styles. rewrite !elem_of_cons, elem_of_nil. naive_solver.
Qed.

(** The style map, entry by entry. *)
Lemma make_style_map_entries (r b i bi : string) :
  let mapped_b := if bool_decide (b = r) then "" else "B" in
  let mapped_i :=
    if bool_decide (i = b) then mapped_b
    else if bool_decide (i = r) then "" else "I" in
  let mapped_bi :=
    if bool_decide (bi = i) then mapped_i
    else if bool_decide (bi = b) then mapped_b
    else if bool_decide (bi = r) then "" else "BI" in
  make_style_map r b i bi
  = <["BI" := mapped_bi]> (<["I" := mapped_i]> (<["B" := mapped_b]> (<["" := ""]> ∅))).
Proof.
  unfold make_style_map. cbv zeta.
  destruct (bool_decide (b = r)), (bool_decide (i = b)), (bool_decide (i = r)),
    (bool_decide (bi = i)), (bool_decide (bi = b)), (bool_decide (bi = r));
    apply map_eq; intros k;
    (destruct (decide (k = "BI")) as [->|?]; [by vm_compute|]);
    (destruct (decide (k = "I")) as [->|?]; [by vm_compute|]);
    (destruct (decide (k = "B")) as [->|?]; [by vm_compute|]);
    (destruct (decide (k = "")) as [->|?]; [by vm_compute|]);
    by rewrite ?lookup_insert_ne, ?lookup_empty by done.
Qed.

(** X22: The style map of an additional font sends each of the four styles to a
    style that stands for the same font file, and it sends two styles that
    stand for the same file to the same style: a font file is used under one
    style only, however many styles share it. *)
Theorem style_map_one_style_per_file (additional_font : AdditionalFont) :
  let font := font_files additional_font in
  (∀ s, s ∈ styles ->
        ∃ m, style_map font !! s = Some m ∧ m ∈ styles
             ∧ file_of font m = file_of font s)
  ∧ (∀ s s', s ∈ styles -> s' ∈ styles -> file_of font s = file_of font s' ->
             style_map font !! s = style_map font !! s').
Proof.
  destruct additional_font as [v f0 b i bi u]. unfold font_files, file_of. simpl.
  set (r := default "" f0). set (fb := default r b). set (fi := default r i).
  set (fbi := default r bi). clearbody r fb fi fbi.
  rewrite make_style_map_entries. cbv zeta.
  assert ("" ∈ styles ∧ "B" ∈ styles ∧ "I" ∈ styles ∧ "BI" ∈ styles)
    as (H0 & HB & HI & HBI) by (unfold styles; set_solver).
  split.
  - intros s Hs. apply styles_cases in Hs.
    destruct Hs as [-> | [-> | [-> | ->]]]; repeat case_bool_decide;
      (eexists; split; [vm_compute; reflexivity|]);
      (split; [assumption|]); vm_compute; congruence.
  - intros s s' Hs Hs'. apply styles_cases in Hs, Hs'.
    destruct Hs as [-> | [-> | [-> | ->]]], Hs' as [-> | [-> | [-> | ->]]];
      repeat case_bool_decide; vm_compute; congruence.
Qed.

Lemma additions_app family (l l' : list FontCall) :
  additions family (l ++ l') = (additions family l + additions family l')%nat.
Proof. unfold additions. by rewrite filter_app, length_app. Qed.

Lemma additions_set_font family family' style size (l : list FontCall) :
  additions family (l ++ [SetFont family' style size]) = additions family l.
Proof. rewrite additions_app. unfold additions. simpl. lia. Qed.

Lemma additions_add_font family family' style fname uni (l : list FontCall) :
  additions family (l ++ [AddFont family' style fname uni])
  = (additions family l + if decide (family' = family) then 1 else 0)%nat.
Proof.
  rewrite additions_app. f_equal. unfold additions. rewrite filter_cons. simpl.
  destruct (decide (family' = family)) as [Heq|Hne].
  - by rewrite bool_decide_eq_true_2, decide_True.
  - by rewrite bool_decide_eq_false_2, decide_False.
Qed.

Lemma selects_set_font family family' style size (l : list FontCall) :
  selects family (l ++ [SetFont family' style size]) ↔ selects family l ∨ family' = family.
Proof.
  unfold selects. split.
  - intros (st & sz & Hin). apply elem_of_app in Hin as [Hin|Hin]; [left; eauto|].
    apply list_elem_of_singleton in Hin. right. congruence.
  - intros [(st & sz & Hin)| ->].
    + exists st, sz. apply elem_of_app. by left.
    + exists style, size. apply elem_of_app. right. by apply list_elem_of_singleton.
Qed.

Lemma selects_add_font family family' style fname uni (l : list FontCall) :
  selects family (l ++ [AddFont family' style fname uni]) ↔ selects family l.
Proof.
  unfold selects. split.
  - intros (st & sz & Hin). apply elem_of_app in Hin as [Hin|Hin]; [eauto|].
    by apply list_elem_of_singleton in Hin.
  - intros (st & sz & Hin). exists st, sz. apply elem_of_app. by left.
Qed.

(** The fonts of a new document: nothing is added yet. *)
Lemma fonts_fresh (additional_fonts : list AdditionalFont) (fonts : gmap string Font) family :
  (∀ files, fonts !! family = Some (AdditionalFontFiles files) -> added files = false) ->
  ∀ files, foldl add_additional_font fonts additional_fonts !! family
           = Some (AdditionalFontFiles files) ->
           added files = false.
Proof.
  revert fonts. induction additional_fonts as [|af l IH]; intros fonts Hfonts; [done|].
  simpl. apply IH. unfold add_additional_font. intros files.
  destruct (decide (default "" (af_value af) = family)) as [<-|Hne].
  - rewrite lookup_insert_eq. by intros [= <-].
  - rewrite lookup_insert_ne by done. apply Hfonts.
Qed.

Lemma standard_fonts_standard family font :
  standard_fonts !! family = Some font -> font = StandardFont.
Proof.
  unfold standard_fonts. intros Hl.
  repeat (apply lookup_insert_Some in Hl as [[_ Hl]|[_ Hl]]; [done|]).
  by rewrite lookup_empty in Hl.
Qed.

Lemma init_in_step document_properties additional_fonts :
  fonts_in_step (available_fonts (init document_properties additional_fonts))
    (init document_properties additional_fonts).
Proof.
  intros family. unfold init.
  assert (∀ files, standard_fonts !! family = Some (AdditionalFontFiles files) ->
                   added files = false) as Hstd.
  { intros files Hl. by apply standard_fonts_standard in Hl. }
  pose proof (fonts_fresh (default [] additional_fonts) standard_fonts family Hstd)
    as Hfresh.
  assert (∀ st sz, SetFont family st sz ∉ []) as Hnone
    by (intros st sz Hin; by apply elem_of_nil in Hin).
  destruct (decide _); simpl;
    (destruct (foldl _ _ _ !! family) as [[|files]|] eqn:Hf; [done| |]);
    try (rewrite (Hfresh files eq_refl));
    (split; [done|]); intros (st & sz & Hin); by apply Hnone in Hin.
Qed.

(** One more selection of a family the table has, added if it is an
    additional font. *)
Lemma select_in_step fonts family style size self :
  fonts_in_step fonts self ->
  match available_fonts self !! family with
  | Some StandardFont => True
  | Some (AdditionalFontFiles files) => added files = true
  | None => False
  end ->
  fonts_in_step fonts (call (SetFont family style size) self).
Proof.
  intros Hstep Hfont family'. specialize (Hstep family'). simpl.
  destruct (decide (family = family')) as [<-|Hne].
  - destruct (fonts !! family) as [[|files0]|],
      (available_fonts self !! family) as [[|files]|]; try done;
      rewrite additions_set_font; [done|].
    split; [by apply Hstep|done].
  - destruct (fonts !! family') as [[|files0]|],
      (available_fonts self !! family') as [[|files]|]; try done;
      rewrite additions_set_font, ?selects_set_font; naive_solver.
Qed.

(** [set_font] keeps the calls and the table of fonts in step. *)
Lemma set_font_in_step fonts family style size underline self :
  fonts_in_step fonts self ->
  fonts_in_step fonts (after (set_font family style size underline self)).
Proof.
  intros Hstep. unfold set_font.
  destruct (available_fonts self !! family) as [[|files]|] eqn:Hfont; [| |done].
  - (* a standard font *)
    destruct underline; simpl; apply select_in_step; by rewrite ?Hfont.
  - (* an additional font *)
    set (mapped := if negb (String.eqb style "") then _ else _).
    destruct (added files) eqn:Hadded; simpl.
    + destruct (if underline then _ else mapped) as [st|]; simpl; [|done].
      apply select_in_step; [done|]. by rewrite Hfont.
    + assert (fonts_in_step fonts
                (with_font family
                   (AdditionalFontFiles
                      (mkFontFiles true (regular_filename files) (bold_filename files)
                         (italic_filename files) (bold_italic_filename files)
                         (style_map files) (uni files) (style2filename files)))
                   (call (AddFont family mapped (mapped ≫= (style2filename files !!.))
                            (uni files)) self))) as Hadd.
      { intros family'. specialize (Hstep family'). simpl.
        destruct (decide (family = family')) as [<-|Hne].
        - rewrite lookup_insert_eq. rewrite Hfont in Hstep.
          destruct (fonts !! family) as [[]|]; try done. simpl.
          rewrite Hadded in Hstep. destruct Hstep as [Hadds _].
          rewrite additions_add_font, Hadds, decide_True by done. done.
        - rewrite lookup_insert_ne by done.
          destruct (fonts !! family') as [[|files0]|],
            (available_fonts self !! family') as [[|files']|]; try done;
            rewrite additions_add_font, ?selects_add_font, decide_False, Nat.add_0_r
              by done; done. }
      destruct (if underline then _ else mapped) as [st|]; simpl; [|done].
      apply select_in_step; [done|]. simpl. by rewrite lookup_insert_eq.
Qed.

Lemma set_fonts_in_step fonts requests self :
  fonts_in_step fonts self -> fonts_in_step fonts (after (set_fonts requests self)).
Proof.
  revert self. induction requests as [|[[[family style] size] underline] requests IH];
    intros self Hstep; [done|]. simpl.
  pose proof (set_font_in_step fonts family style size underline self Hstep) as Hnext.
  destruct (set_font family style size underline self) as [self1|self1]; [|done].
  by apply IH.
Qed.

(** X23: However a new document is asked for fonts, each family is added to the
    PDF document at most once, whatever styles of it are asked for: a
    standard font and a family the document does not know are never added,
    a family it does not know is never selected either, and an additional
    font that is selected has been added exactly once. *)
Theorem font_added_once document_properties additional_fonts requests family :
  let self := init document_properties additional_fonts in
  let calls' := calls (after (set_fonts requests self)) in
  (additions family calls' <= 1)%nat
  ∧ match available_fonts self !! family with
    | None => additions family calls' = 0%nat ∧ ¬ selects family calls'
    | Some StandardFont => additions family calls' = 0%nat
    | Some (AdditionalFontFiles _) => selects family calls' -> additions family calls' = 1%nat
    end.
Proof.
  intros self calls'.
  pose proof (set_fonts_in_step (available_fonts self) requests self
                (init_in_step document_properties additional_fonts) family) as Hstep.
  fold calls' in Hstep.
  destruct (available_fonts self !! family) as [[|files0]|],
    (available_fonts (after (set_fonts requests self)) !! family) as [[|files]|];
    try done.
  - split; [lia|done].
  - destruct Hstep as [Hadds Hsel]. destruct (added files) eqn:Hadded.
    + split; [lia|done].
    + split; [lia|]. intros Hs. by specialize (Hsel Hs).
  - destruct Hstep as [Hadds Hsel]. split; [lia|done].
Qed.

(** X24: A named page format reaches [fpdf.FPDF] with the dimensions of its
    portrait form whatever the orientation is, the orientation being told by
    the letter alone: the constructor of the document properties exchanges
    width and height for any orientation other than portrait, and the
    constructor of the PDF document exchanges them back. *)
Theorem named_format_page_setup get_int_value data errs dp errs' additional_fonts size :
  Geometry.DocumentProperties_init get_int_value data errs = (inr dp, errs') ->
  PageTerms.named_size (Geometry.page_format dp) Geometry.portrait = Some size ->
  dimension (init dp additional_fonts) = size
  ∧ (orientation (init dp additional_fonts) = "P"
     ↔ Geometry.orientation dp = Geometry.portrait).
Proof.
  intros Hrun Hsize. apply PageFacts.init_inr in Hrun
    as (name & w & h & unit & _ & _ & _ & Hpage & Hw & Hh & _).
  unfold init, PageTerms.named_size in *. unfold Geometry.page_size in Hpage.
  rewrite Hw, Hh.
  destruct (Geometry.page_format dp); [| | |done];
    destruct (decide (Geometry.orientation dp = Geometry.portrait)) as [Ho|Ho];
    unfold mret, Geometry.M_ret in Hpage; simplify_eq; simpl;
    (split; [vm_compute; reflexivity|done]).
Qed.

End FontFacts.

Module ReportFacts.
Import Report ReportTerms WorkbookFacts.

(** ** Parameters *)

Lemma named_app name (l l' : list ReportParameter) :
  named name (l ++ l') = named name l ++ named name l'.
Proof. apply filter_app. Qed.

Lemma named_nil name (items : list ReportParameter) :
  named name items = [] ↔ name ∉ parameter_name <$> items.
Proof.
  unfold named. induction items as [|p items IH]; simpl.
  { split; [intros _ Hin; by apply elem_of_nil in Hin|done]. }
  rewrite filter_cons, not_elem_of_cons.
  destruct (decide (parameter_name p = name)) as [Heq|Hne].
  - split; [done|]. intros [Hne _]. by destruct Hne.
  - rewrite IH. split; [by split|by intros [_ ?]].
Qed.

Lemma add_parameters_snoc items errors p :
  add_parameters (items ++ [p]) errors = add_parameter (add_parameters items errors) p.
Proof. unfold add_parameters. by rewrite foldl_app. Qed.

(** X25: The parameters of a report: the list holds every parameter in the order
    of the description; the dictionary holds, for each name, the last
    parameter of that name; one duplicate-parameter record is appended for
    every parameter that does not add a name to the dictionary, and none
    exactly when no two parameters share a name. *)
Theorem duplicate_parameters_recorded items errors :
  let '(parameters, parameter_list, errors') := add_parameters items errors in
  parameter_list = items
  ∧ (∀ name, parameters !! name = last (named name items))
  ∧ (∃ new, errors' = errors ++ new
            ∧ (length new + size parameters = length items)%nat
            ∧ Forall duplicate_record new
            ∧ (new = [] ↔ NoDup (parameter_name <$> items))).
Proof.
  induction items as [|p items IH] using rev_ind.
  { simpl. split; [done|]. split; [intros name; by rewrite lookup_empty|].
    exists []. rewrite app_nil_r. split; [done|]. split; [done|].
    split; [done|]. split; [intros _; constructor|done]. }
  rewrite add_parameters_snoc.
  destruct (add_parameters items errors) as [[parameters parameter_list] errors1].
  destruct IH as (-> & Hlast & new & -> & Hlen & Hdup & Hnodup).
  unfold add_parameter.
  assert (∀ name, parameters !! name = None ↔ name ∉ parameter_name <$> items) as Hdom.
  { intros name. by rewrite Hlast, last_None, named_nil. }
  split; [done|]. split.
  { intros name. rewrite named_app. unfold named at 2. rewrite filter_cons, filter_nil.
    destruct (decide (parameter_name p = name)) as [<-|Hne].
    - by rewrite lookup_insert_eq, last_snoc.
    - by rewrite lookup_insert_ne, app_nil_r. }
  case_bool_decide as Hseen.
  - exists (new ++ [mkObjectError "errorMsgDuplicateParameter" (parameter_id p) "name"]).
    rewrite fmap_app, NoDup_app, !length_app. simpl.
    rewrite app_assoc. split; [done|].
    rewrite map_size_insert_Some by done. split; [lia|].
    split; [apply Forall_app; split; [done|by repeat constructor]|].
    split; [by intros ?%app_eq_nil%proj2|].
    intros (_ & Hfresh & _). exfalso.
    destruct (decide (parameter_name p ∈ parameter_name <$> items)) as [Hin|Hnot].
    + apply (Hfresh _ Hin). by apply list_elem_of_singleton.
    + apply Hdom in Hnot. rewrite Hnot in Hseen. by destruct Hseen.
  - exists new. rewrite fmap_app, NoDup_app, !length_app. simpl. split; [done|].
    assert (parameters !! parameter_name p = None) as Hnone.
    { destruct (parameters !! parameter_name p) eqn:Hl; [|done].
      destruct Hseen. by eexists. }
    rewrite map_size_insert_None by done. split; [lia|]. split; [done|].
    rewrite Hnodup. split.
    + intros Hnd. split; [done|]. split; [|apply NoDup_singleton].
      intros name Hin Hp. apply list_elem_of_singleton in Hp as ->.
      by apply Hdom in Hnone.
    + by intros [? _].
Qed.

Section Elements.
Context {Priv Frag : Type} `{!ElementOps Priv Frag}.
Variables elem_width elem_height : Element.t Priv -> Z.
Implicit Type σ : ref -> Element.t Priv.
Implicit Type bands : Bands (Frag := Frag).

(** ** Document elements *)

Local Abbreviation inside := (ReportTerms.inside elem_width elem_height).
Local Abbreviation check_position := (Report.check_position elem_width elem_height).
Local Abbreviation add_doc_element := (Report.add_doc_element elem_width elem_height).
Local Abbreviation add_doc_elements := (Report.add_doc_elements elem_width elem_height).

(** The records one element can bring: at most two, one for each axis,
    all naming the element; none exactly when the container is not
    visible or the element lies within it. *)
Lemma check_position_run dp (container : ReportBand.t Frag) (elem : Element.t Priv)
    errors :
  ∃ new,
    check_position dp container elem errors = errors ++ new
    ∧ (length new <= 2)%nat
    ∧ Forall (λ e, oe_object_id e = Element.id elem ∧ oe_field e = "position") new
    ∧ (new = [] ↔ ReportBand.is_visible dp container = false ∨ inside container elem).
Proof.
  unfold Report.check_position, ReportTerms.inside.
  destruct (ReportBand.is_visible dp container).
  2:{ exists []. rewrite app_nil_r. repeat split; auto. }
  destruct (Z.ltb_spec (Element.x elem) 0) as [Hx|Hx];
    [|destruct (Z.gtb_spec (Element.x elem + elem_width elem)
                  (ReportBand.width container)) as [Hw|Hw]];
    (destruct (Z.ltb_spec (Element.y elem) 0) as [Hy|Hy];
     [|destruct (Z.gtb_spec (Element.y elem + elem_height elem)
                   (ReportBand.height container)) as [Hh|Hh]]);
    rewrite <- ?app_assoc;
    (eexists; split; [try reflexivity; by rewrite app_nil_r|]);
    (split; [simpl; lia|]);
    (split; [repeat constructor|]);
    (split; [try done; intros _; right; lia|intros [?|?]; try done; lia]).
Qed.

Lemma omap_placed which (item : DocElementItem) (items : list DocElementItem) :
  omap (placed which) (item :: items)
  = match placed which item with
    | Some r => r :: omap (placed which) items
    | None => omap (placed which) items
    end.
Proof. done. Qed.

Lemma get_set_band which other (band : ReportBand.t Frag) bands :
  get_band other (set_band which band bands)
  = if decide (other = which) then band else get_band other bands.
Proof. by destruct which, other. Qed.

Lemma is_visible_frame dp (band band' : ReportBand.t Frag) :
  frame band' = frame band ->
  ReportBand.is_visible dp band' = ReportBand.is_visible dp band.
Proof.
  unfold frame, ReportBand.is_visible. intros [= Hb _ _ _ _ _ _ _ _]. by rewrite Hb.
Qed.

Lemma inside_frame (band band' : ReportBand.t Frag) (elem : Element.t Priv) :
  frame band' = frame band -> inside band' elem ↔ inside band elem.
Proof.
  unfold frame, ReportTerms.inside. intros [= _ Hw Hh _ _ _ _ _ _]. by rewrite Hw, Hh.
Qed.

(** The loop over the entries that raise nothing. *)
Lemma add_doc_elements_run dp σ (doc_elements : list DocElementItem) bands errors :
  constructed doc_elements ->
  ∃ bands' new,
    add_doc_elements dp σ doc_elements (bands, errors) = inr (bands', errors ++ new)
    ∧ (∀ which,
          ReportBand.doc_elements (get_band which bands')
          = ReportBand.doc_elements (get_band which bands)
            ++ omap (placed which) doc_elements
          ∧ frame (get_band which bands') = frame (get_band which bands))
    ∧ (length new <= 2 * length doc_elements)%nat
    ∧ (new = [] ↔
       ∀ doc_element which r,
         doc_element ∈ doc_elements -> placed which doc_element = Some r ->
         ReportBand.is_visible dp (get_band which bands) = true ->
         inside (get_band which bands) (σ r)).
Proof.
  revert bands errors.
  induction doc_elements as [|item items IH]; intros bands errors Hok.
  { exists bands, []. simpl. rewrite app_nil_r. split; [done|].
    split; [intros which; by rewrite app_nil_r|]. split; [lia|].
    split; [intros _ ? ? ? Hin; by apply elem_of_nil in Hin|done]. }
  apply Forall_cons in Hok as [[elem Helem] Hok].
  cbn [Report.add_doc_elements]. unfold Report.add_doc_element. rewrite Helem.
  destruct elem as [r|]; [destruct (container_of (container_id item)) as [which|] eqn:Hc|].
  - (* an element with one of the bands as container *)
    destruct (check_position_run dp (get_band which bands) (σ r) errors)
      as (new1 & -> & Hlen1 & _ & Hnone1).
    destruct (IH (set_band which (ReportBand.add r (get_band which bands)) bands)
                (errors ++ new1) Hok) as (bands' & new & -> & Hbands & Hlen & Hnone).
    exists bands', (new1 ++ new). rewrite app_assoc. split; [done|].
    assert (∀ other,
              frame (get_band other
                       (set_band which (ReportBand.add r (get_band which bands)) bands))
              = frame (get_band other bands)) as Hframe.
    { intros other. rewrite get_set_band. by destruct (decide (other = which)) as [->|]. }
    split; [|split; [rewrite length_app; simpl; lia|]].
    + intros other. destruct (Hbands other) as [-> ->]. split; [|apply Hframe].
      rewrite get_set_band, omap_placed.
      assert (placed other item = if decide (other = which) then Some r else None)
        as ->.
      { unfold placed. rewrite Helem, Hc.
        destruct (decide (other = which)) as [->|Hne];
          [by rewrite decide_True|by rewrite decide_False by congruence]. }
      destruct (decide (other = which)) as [->|Hne]; [|done].
      simpl. by rewrite <- app_assoc.
    + split.
      * intros [-> ->]%app_eq_nil item' other r' Hin Hplaced Hvisible.
        apply elem_of_cons in Hin as [->|Hin].
        -- unfold placed in Hplaced. rewrite Helem, Hc in Hplaced.
           destruct (decide (Some which = Some other)) as [[= <-]|]; [|done].
           simplify_eq. destruct (proj1 Hnone1 eq_refl) as [Hinv|Hin]; [congruence|done].
        -- rewrite <- (is_visible_frame dp _ _ (Hframe other)) in Hvisible.
           apply (inside_frame _ _ _ (Hframe other)).
           by eapply (proj1 Hnone eq_refl).
      * intros Hall.
        assert (new1 = []) as ->.
        { apply Hnone1. destruct (ReportBand.is_visible dp (get_band which bands))
            eqn:Hvis; [right|by left].
          apply (Hall item which r); [by left| |done].
          unfold placed. rewrite Helem, Hc. by rewrite decide_True. }
        assert (new = []) as ->; [|done].
        apply Hnone. intros item' other r' Hin Hplaced Hvisible.
        rewrite (is_visible_frame dp _ _ (Hframe other)) in Hvisible.
        apply (inside_frame _ _ _ (Hframe other)).
        apply (Hall item' other r'); [by right|done|done].
  - (* no container among the bands *)
    destruct (IH bands errors Hok) as (bands' & new & -> & Hbands & Hlen & Hnone).
    exists bands', new. split; [done|].
    assert (∀ which, placed which item = None) as Hskip.
    { intros which. unfold placed. rewrite Helem, Hc. done. }
    split; [|split; [simpl; lia|]].
    + intros which. rewrite omap_placed, Hskip. apply Hbands.
    + rewrite Hnone. split.
      * intros Hall item' which r' Hin. apply elem_of_cons in Hin as [->|Hin];
          [by rewrite Hskip|by apply Hall].
      * intros Hall item' which r' Hin. apply Hall. by right.
  - (* no element *)
    destruct (IH bands errors Hok) as (bands' & new & -> & Hbands & Hlen & Hnone).
    exists bands', new. split; [done|].
    assert (∀ which, placed which item = None) as Hskip.
    { intros which. unfold placed. by rewrite Helem. }
    split; [|split; [simpl; lia|]].
    + intros which. rewrite omap_placed, Hskip. apply Hbands.
    + rewrite Hnone. split.
      * intros Hall item' which r' Hin. apply elem_of_cons in Hin as [->|Hin];
          [by rewrite Hskip|by apply Hall].
      * intros Hall item' which r' Hin. apply Hall. by right.
Qed.

(** X26: Every element that names one of the three bands as its container is
    added to that band, in the order of the description and after the
    elements the band has, whether or not it is reported as out of place;
    nothing else about a band changes, and entries without an element or
    without a band as container add nothing. *)
Theorem doc_elements_added_in_order dp σ (doc_elements : list DocElementItem)
    bands errors :
  constructed doc_elements ->
  ∃ bands' errors',
    add_doc_elements dp σ doc_elements (bands, errors) = inr (bands', errors')
    ∧ ∀ which,
        ReportBand.doc_elements (get_band which bands')
        = ReportBand.doc_elements (get_band which bands)
          ++ omap (placed which) doc_elements
        ∧ frame (get_band which bands') = frame (get_band which bands).
Proof.
  intros Hok.
  destruct (add_doc_elements_run dp σ doc_elements bands errors Hok)
    as (bands' & new & Hrun & Hbands & _).
  by exists bands', (errors ++ new).
Qed.

(** X27: The position records: the loop keeps the errors it starts with and
    appends at most two records for each entry; it appends none exactly
    when every element placed in a visible band lies within the band:
    not left of or above its origin, and not beyond its width or
    height. *)
Theorem out_of_place_elements_reported dp σ (doc_elements : list DocElementItem)
    bands errors :
  constructed doc_elements ->
  ∃ bands' new,
    add_doc_elements dp σ doc_elements (bands, errors) = inr (bands', errors ++ new)
    ∧ (length new <= 2 * length doc_elements)%nat
    ∧ (new = [] ↔
       ∀ doc_element which r,
         doc_element ∈ doc_elements -> placed which doc_element = Some r ->
         ReportBand.is_visible dp (get_band which bands) = true ->
         inside (get_band which bands) (σ r)).
Proof.
  intros Hok.
  destruct (add_doc_elements_run dp σ doc_elements bands errors Hok)
    as (bands' & new & Hrun & _ & Hlen & Hnone).
  by exists bands', new.
Qed.

End Elements.

Section Verify.
Context {Priv Frag : Type} `{!ElementOps Priv Frag}.
Implicit Type σ : ref -> Element.t Priv.
Implicit Type bands : Bands (Frag := Frag).

(** ** [verify] *)

Lemma prepare_elements_verify ctx pdf_doc (band : ReportBand.t Frag)
    (l : list ref) σ acc :
  (foldl (ReportBand.prepare_element ctx pdf_doc true band) (σ, acc) l).2 = acc ++ l.
Proof.
  revert σ acc. induction l as [|a l IH]; intros σ acc; cbn [foldl].
  { by rewrite app_nil_r. }
  unfold ReportBand.prepare_element at 2. rewrite orb_true_r.
  rewrite IH. by rewrite <- app_assoc.
Qed.

(** A band prepared for verification takes up all its elements. *)
Lemma prepare_verify_all ctx (band : ReportBand.t Frag) σ :
  ReportBand.sorted_elements (ReportBand.prepare ctx false true band σ).1
  ≡ₚ ReportBand.doc_elements band.
Proof.
  unfold ReportBand.prepare.
  pose proof (prepare_elements_verify ctx false band (ReportBand.doc_elements band) σ [])
    as Hall.
  destruct (foldl _ _ _) as [σ1 l1]. simpl in *. subst l1.
  apply PrepareFacts.sorted_perm.
Qed.

(** X28: [verify] goes through the footer only when the header is displayed:
    the content band always has all its elements prepared; with a header
    display policy other than "never" so has the footer band; with the
    policy "never" the header band and the footer band are left as they
    are, whatever the footer's own policy, and no element outside the
    content band is touched. *)
Theorem verify_footer_follows_header dp ctx bands σ :
  let bands' := (verify dp ctx bands σ).1 in
  let σ' := (verify dp ctx bands σ).2 in
  ReportBand.sorted_elements (content bands') ≡ₚ ReportBand.doc_elements (content bands)
  ∧ (Geometry.header_display dp ≠ Geometry.never ->
     ReportBand.sorted_elements (footer bands')
     ≡ₚ ReportBand.doc_elements (footer bands))
  ∧ (Geometry.header_display dp = Geometry.never ->
     header bands' = header bands ∧ footer bands' = footer bands
     ∧ ∀ q, q ∉ ReportBand.doc_elements (content bands) -> σ' q = σ q).
Proof.
  unfold verify. case_bool_decide as Hshown.
  - pose proof (prepare_verify_all ctx (header bands) σ) as Hh.
    destruct (ReportBand.prepare ctx false true (header bands) σ) as [hb σ1].
    pose proof (prepare_verify_all ctx (content bands) σ1) as Hc.
    simpl. destruct (ReportBand.prepare ctx false true (content bands) σ1) as [cb σ2].
    pose proof (prepare_verify_all ctx (footer bands) σ2) as Hf.
    simpl. destruct (ReportBand.prepare ctx false true (footer bands) σ2) as [fb σ3].
    simpl in *. done.
  - pose proof (prepare_verify_all ctx (content bands) σ) as Hc.
    pose proof (prepare_elsewhere ctx true (content bands) σ) as Helse.
    destruct (ReportBand.prepare ctx false true (content bands) σ) as [cb σ1].
    simpl in *. split; [done|]. split; [done|]. intros _. done.
Qed.

End Verify.

End ReportFacts.

Module CaseFacts.
Import Scenes Cases.

(** X15, the theorem at the queue of [queued]: the first fragment is drawn and
    released, the second stays queued. *)
Lemma render_pdf_draws_one_page_witness :
  ReportBand.render_pdf 20 30 true queued [] []
  = (ReportBand.with_render_elements [Fragment (2, 0, 5)] queued,
     [ReportBand.Draw (1, 0, 10) 20 30], [(1, 0, 10)]).
Proof.
  exact (QueueFacts.render_pdf_draws_one_page 20 30 true queued [(1, 0, 10)]
           [PageBreak; Fragment (2, 0, 5)] [] [] eq_refl I).
Defined.

(** X13, the theorem at the scene of the tall and the short text. *)
Lemma elements_called_once_witness :
  ∃ p, ReportBand.create_render_elements 100 ctx0 tall_band tall_store = Some p
       ∧ NoDup (PassTerms.call_elem <$> ReportBand.pass_calls p).
Proof.
  apply (QueueFacts.elements_called_once 100 ctx0 tall_band tall_store).
  exact (NoDup_seq 0 2).
Defined.

(** X17, the theorem at the two texts at the top of [report_store]. *)
Lemma same_line_side_by_side_witness :
  (ReportBand.render_spreadsheet 5 ctx0 one_line report_store []).2
  = [ReportBand.mkCellWrite 0 5 0; ReportBand.mkCellWrite 1 5 1].
Proof.
  refine (SheetFacts.same_line_side_by_side 5 ctx0 one_line report_store [] 0 _).
  intros r Hr. repeat (apply elem_of_cons in Hr as [->|Hr]; [reflexivity|]).
  by apply elem_of_nil in Hr.
Defined.

(** X18, the theorem at the two content texts of [report_store]. *)
Lemma separate_lines_start_at_column_0_witness :
  ∃ writes,
    (ReportBand.render_spreadsheet 5 ctx0 two_lines report_store []).2 = [] ++ writes
    ∧ Forall (λ w, ReportBand.cw_col w = 0) writes.
Proof.
  apply (SheetFacts.separate_lines_start_at_column_0 5 ctx0 two_lines report_store []).
  split; [discriminate|]. split; exact I.
Defined.

(** X8, the theorem at the scene of the tall and the short text: the two texts
    are taken up, in key order. *)
Lemma prepare_sorts_elements_witness :
  let band := Sample.band_of BandType.content 2 100 in
  let prepared := ReportBand.prepare ctx0 true false band tall_then_short in
  ReportBand.sorted_elements prepared.1
  ≡ₚ OrderTerms.selection true false tall_then_short (ReportBand.doc_elements band)
  ∧ StronglySorted (PrepareTerms.in_key_order (OrderTerms.sort_key true prepared.2))
      (ReportBand.sorted_elements prepared.1).
Proof.
  intros band prepared.
  pose proof (OrderFacts.prepare_sorts_elements ctx0 true false band tall_then_short
                (NoDup_seq 0 2)) as (Hperm & Hsorted & _).
  split; [exact Hperm|exact Hsorted].
Defined.

(** X9, the theorem at a header whose text a page has left rendered and
    complete. *)
Lemma prepare_fixed_band_starts_over_witness :
  OrderTerms.rendered_anew
    ((ReportBand.prepare ctx0 true false (Sample.band_of BandType.header 1 40)
        worn_header).2 0%nat)
  ∧ Element.rendering_complete (worn_header 0%nat) = true.
Proof.
  split; [|reflexivity].
  apply (OrderFacts.prepare_fixed_band_starts_over ctx0 true false
           (Sample.band_of BandType.header 1 40) worn_header 0%nat).
  - reflexivity.
  - vm_compute. constructor.
Defined.

(** X10, the theorem at the scene of the tall and the short text: the short text
    has the tall one as predecessor, and is among its successors. *)
Lemma prepare_links_agree_witness :
  let σ' :=
    (ReportBand.prepare ctx0 true false (Sample.band_of BandType.content 2 100)
       tall_then_short).2 in
  Element.predecessor (σ' 1%nat) = Some 0%nat
  ∧ 1%nat ∈ Element.successors (σ' 0%nat).
Proof.
  intros σ'. split; [reflexivity|].
  refine (proj2 (proj1 (OrderFacts.prepare_links_agree ctx0 false
                          (Sample.band_of BandType.content 2 100) tall_then_short
                          (NoDup_seq 0 2) _) 1%nat 0%nat) _); [|reflexivity].
  intros [|[|q]]; split; reflexivity.
Defined.

(** X2, the theorem at a custom page of 50 by 300 millimetres: the width is
    outside the bounds, the height is not, and one record is added. *)
Lemma custom_page_error_iff_outside_bounds_witness :
  (Geometry.DocumentProperties_init Geometry.int_entry
     (GeometryTerms.custom_page 50 300 "mm" "en") []).2
  = [Geometry.invalid_page_size].
Proof.
  rewrite (PageFacts.custom_page_error_iff_outside_bounds Geometry.int_entry
             (GeometryTerms.custom_page 50 300 "mm" "en") []
             Geometry.portrait Geometry.mm);
    vm_compute; reflexivity.
Defined.

(** X3, the theorem at a custom page of 210 by 297 millimetres with a header of
    60 and no footer. *)
Lemma constructed_properties_consistent_witness :
  ∃ dp errs',
    Geometry.DocumentProperties_init Geometry.int_entry
      (GeometryTerms.custom_page 210 297 "mm" "en") [] = (inr dp, errs')
    ∧ Geometry.pattern_locale dp ∈ Geometry.supported_locales
    ∧ (Geometry.footer dp = false ->
       Geometry.footer_display dp = Geometry.never ∧ Geometry.footer_size dp = 0)
    ∧ Geometry.margin_top dp + Geometry.header_size dp + Geometry.content_height dp
      + Geometry.footer_size dp + Geometry.margin_bottom dp = Geometry.page_height dp.
Proof.
  destruct (Geometry.DocumentProperties_init Geometry.int_entry
              (GeometryTerms.custom_page 210 297 "mm" "en") [])
    as [[e|dp] errs'] eqn:Hrun; [vm_compute in Hrun; discriminate|].
  exists dp, errs'. split; [reflexivity|].
  destruct (PageFacts.constructed_properties_consistent Geometry.int_entry
              _ _ _ _ Hrun) as (Hlocale & _ & Hfooter & Hcontent & _).
  split; [exact Hlocale|]. split; [exact Hfooter|]. apply Hcontent. reflexivity.
Defined.

(** X4, the theorem at the A4 landscape description. *)
Lemma named_format_size_in_points_witness :
  ∃ dp errs',
    Geometry.DocumentProperties_init Geometry.int_entry a4_landscape [] = (inr dp, errs')
    ∧ (Geometry.page_width dp, Geometry.page_height dp) = (842, 595) ∧ errs' = [].
Proof.
  destruct (Geometry.DocumentProperties_init Geometry.int_entry a4_landscape [])
    as [[e|dp] errs'] eqn:Hrun; [vm_compute in Hrun; discriminate|].
  exists dp, errs'. split; [reflexivity|].
  apply (PageFacts.named_format_size_in_points Geometry.int_entry _ _ _ _ _ Hrun).
  vm_compute in Hrun. injection Hrun as <- <-. reflexivity.
Defined.

(** X5, the theorem at a custom page of 210 by 297 millimetres: 595 by 842
    points, in doubles as in exact numbers. *)
Lemma custom_size_in_points_witness :
  ∃ dp errs',
    Geometry.DocumentProperties_init Geometry.int_entry
      (GeometryTerms.custom_page 210 297 "mm" "en") [] = (inr dp, errs')
    ∧ PyFloat.to_device Geometry.mm 210 = Some (Geometry.page_width dp)
    ∧ PyFloat.to_device Geometry.mm 297 = Some (Geometry.page_height dp)
    ∧ Geometry.page_width dp = 595 ∧ Geometry.page_height dp = 842.
Proof.
  destruct (Geometry.DocumentProperties_init Geometry.int_entry
              (GeometryTerms.custom_page 210 297 "mm" "en") [])
    as [[e|dp] errs'] eqn:Hrun; [vm_compute in Hrun; discriminate|].
  exists dp, errs'. split; [reflexivity|].
  destruct (PageFacts.custom_size_in_points Geometry.int_entry
              _ _ _ _ Geometry.mm Hrun) as (Hw & Hh & _).
  - vm_compute in Hrun. injection Hrun as <- <-. reflexivity.
  - reflexivity.
  - intros _. unfold PageTerms.double_exact. repeat split; reflexivity.
  - split; [exact Hw|]. split; [exact Hh|].
    vm_compute in Hrun. injection Hrun as <- <-. split; reflexivity.
Defined.

(** X6, the theorem at the A4 report with its page format taken out, with
    the page format "A3", and with the orientation written "Landscape". *)
Lemma unknown_names_raise_witness :
  Geometry.DocumentProperties_init Geometry.int_entry
    (delete "pageFormat" a4_landscape) [] = (inl AttributeError, [])
  ∧ Geometry.DocumentProperties_init Geometry.int_entry
      (<["pageFormat" := Geometry.JStr "A3"]> a4_landscape) []
    = (inl (KeyError "a3"), [])
  ∧ Geometry.DocumentProperties_init Geometry.int_entry
      (<["orientation" := Geometry.JStr "Landscape"]> a4_landscape) []
    = (inl (KeyError "Landscape"), []).
Proof.
  split; [|split].
  - apply (proj1 (PageFacts.unknown_names_raise Geometry.int_entry _ [])).
    intros [s Hs]. vm_compute in Hs. discriminate.
  - apply (proj1 (proj2 (PageFacts.unknown_names_raise Geometry.int_entry _ []))
             "A3" (KeyError "a3")); reflexivity.
  - apply (proj2 (proj2 (PageFacts.unknown_names_raise Geometry.int_entry _ []))
             "A4" Geometry.a4 "Landscape" (KeyError "Landscape")); reflexivity.
Defined.

(** X7, the theorem at a custom page of 210 by 297 millimetres with a header of
    60, margins of 20 and no footer. *)
Lemma bands_fill_the_page_witness :
  ∃ dp errs',
    Geometry.DocumentProperties_init Geometry.int_entry
      (GeometryTerms.custom_page 210 297 "mm" "en") [] = (inr dp, errs')
    ∧ Geometry.margin_top dp
      + ReportBand.height (ReportBand.init (Frag := Z * Z * Z) BandType.header dp)
      + ReportBand.height (ReportBand.init (Frag := Z * Z * Z) BandType.content dp)
      + ReportBand.height (ReportBand.init (Frag := Z * Z * Z) BandType.footer dp)
      + Geometry.margin_bottom dp = Geometry.page_height dp.
Proof.
  destruct (Geometry.DocumentProperties_init Geometry.int_entry
              (GeometryTerms.custom_page 210 297 "mm" "en") [])
    as [[e|dp] errs'] eqn:Hrun; [vm_compute in Hrun; discriminate|].
  exists dp, errs'. split; [reflexivity|].
  apply (PageFacts.bands_fill_the_page (Frag := Z * Z * Z) Geometry.int_entry
           _ _ _ _ Hrun).
  reflexivity.
Defined.

(** X24, the theorem at the A4 landscape description: [fpdf.FPDF] is given the
    dimensions of A4 in portrait form and the letter L. *)
Lemma named_format_page_setup_witness :
  ∃ dp errs',
    Geometry.DocumentProperties_init Geometry.int_entry a4_landscape [] = (inr dp, errs')
    ∧ FPDFRB.dimension (FPDFRB.init dp None) = (595, 842)
    ∧ FPDFRB.orientation (FPDFRB.init dp None) = "L".
Proof.
  destruct (Geometry.DocumentProperties_init Geometry.int_entry a4_landscape [])
    as [[e|dp] errs'] eqn:Hrun; [vm_compute in Hrun; discriminate|].
  exists dp, errs'. split; [reflexivity|].
  split.
  - apply (FontFacts.named_format_page_setup Geometry.int_entry _ _ _ _ None _ Hrun).
    vm_compute in Hrun. injection Hrun as <- <-. reflexivity.
  - vm_compute in Hrun. injection Hrun as <- <-. reflexivity.
Defined.

(** X19, the theorem at the report of the scene: two pages are counted, and the
    three fragments of the content band are released in the order drawn. *)
Lemma render_releases_content_witness :
  ∃ self',
    DocumentPDFRenderer.render false pdf_report = Done self'
    ∧ DocumentPDFRenderer.released self' = [(2, 0, 500); (3, 500, 272); (3, 0, 228)]
    ∧ page_count (DocumentPDFRenderer.context self') = 2.
Proof.
  destruct (PagesTerms.counted pdf_report) as [[[count content] σ]|e|] eqn:Hcounted;
    [|vm_compute in Hcounted; discriminate..].
  destruct (PagesFacts.render_releases_content false pdf_report count content σ
              eq_refl Hcounted) as (self' & Hrun & Hreleased & _ & _ & Hcount).
  exists self'. split; [exact Hrun|].
  vm_compute in Hcounted. injection Hcounted as <- <- <-.
  split; [exact Hreleased|exact Hcount].
Defined.

(** X20, the theorem at the report with the two page breaks: one page is added,
    and two are announced. *)
Lemma pages_against_page_count_witness :
  match DocumentPDFRenderer.render false broken_report with
  | Done self' =>
      PagesTerms.pages_added broken_report self' = 1
      ∧ page_count (DocumentPDFRenderer.context self') = 2
      ∧ 1 <= PagesTerms.pages_added broken_report self'
      ∧ page_number (DocumentPDFRenderer.context self')
        = PagesTerms.pages_added broken_report self'
      ∧ PagesTerms.pages_added broken_report self'
        <= page_count (DocumentPDFRenderer.context self')
        <= PagesTerms.pages_added broken_report self' + 1
  | _ => False
  end.
Proof.
  destruct (DocumentPDFRenderer.render false broken_report) as [self'|e|] eqn:Hrun;
    [|vm_compute in Hrun; discriminate..].
  pose proof (PagesFacts.pages_against_page_count false broken_report self' eq_refl Hrun)
    as Hpages.
  vm_compute in Hrun. injection Hrun as <-.
  split; [reflexivity|]. split; [reflexivity|]. exact Hpages.
Defined.

(** X26, the theorem at the entries of the scene: the tall text is added to the
    content band, the short one to the header, the other two entries add
    nothing. *)
Lemma doc_elements_added_in_order_witness :
  ∃ bands' errors',
    Report.add_doc_elements width_100 height_of footer_only report_store entries
      (Report.new_bands (Frag := Z * Z * Z) footer_only, []) = inr (bands', errors')
    ∧ ReportBand.doc_elements (Report.content bands') = [2%nat]
    ∧ ReportBand.doc_elements (Report.header bands') = [0%nat]
    ∧ ReportBand.doc_elements (Report.footer bands') = [].
Proof.
  assert (ReportTerms.constructed entries) as Hok
    by (repeat constructor; eexists; reflexivity).
  destruct (ReportFacts.doc_elements_added_in_order width_100 height_of footer_only
              report_store entries (Report.new_bands (Frag := Z * Z * Z) footer_only) [] Hok)
    as (bands' & errors' & Hrun & Hbands).
  exists bands', errors'. split; [exact Hrun|].
  split; [exact (proj1 (Hbands BandType.content))|].
  split; [exact (proj1 (Hbands BandType.header))|exact (proj1 (Hbands BandType.footer))].
Defined.

(** X27, the theorem at the entries of the scene: at most eight records are
    appended. *)
Lemma out_of_place_elements_reported_witness :
  ∃ bands' new,
    Report.add_doc_elements width_100 height_of footer_only report_store entries
      (Report.new_bands (Frag := Z * Z * Z) footer_only, []) = inr (bands', [] ++ new)
    ∧ (length new <= 2 * length entries)%nat.
Proof.
  assert (ReportTerms.constructed entries) as Hok
    by (repeat constructor; eexists; reflexivity).
  destruct (ReportFacts.out_of_place_elements_reported width_100 height_of footer_only
              report_store entries (Report.new_bands (Frag := Z * Z * Z) footer_only) [] Hok)
    as (bands' & new & Hrun & Hlen & _).
  exists bands', new. split; [exact Hrun|exact Hlen].
Defined.

End CaseFacts.
